(** * Vila Barca production dashboard: the normalisation, parsing,
      matching and aggregation core of [SVB_MVP]

    A shallow embedding of the pure helpers of [app.py], [stats.py] and
    [list_tab.py], followed by the properties established about them.

    Python strings are sequences of Unicode code points; they are modelled
    as lists of code points.  The Unicode tables used by the helpers
    ([str.lower], [str.upper], [str.isspace], [unicodedata.normalize],
    [unicodedata.combining], the regex classes [\w], [\s], [\d]) are
    tabulated for U+0000..U+00FF, for the combining diacritical marks
    U+0300..U+036F and for every Unicode white-space character; this covers
    the whole vocabulary of the dashboard (Portuguese labels and ASCII
    identifiers).  Code points outside that range are carried through
    unchanged, as symbols without case, decomposition or class, except
    the four letters that [re.IGNORECASE] folds to ASCII (U+0130, U+0131,
    U+017F, U+212A), which the identifier pattern takes. *)

From Stdlib Require Import ZArith NArith List Bool Lia Strings.String Strings.Ascii.
From stdpp Require Import gmap sorting.
Import ListNotations.

(** ** Python strings and the string methods the program calls *)

Module Py.

Definition char := N.
Definition str := list char.
#[global] Typeclasses Transparent char str.

Local Open Scope N_scope.

(** Source literals are written as UTF-8 text and decoded to code points. *)
Fixpoint utf8 (bs : list N) : str :=
  match bs with
  | [] => []
  | b :: r =>
    if b <? 0x80 then b :: utf8 r
    else match r with
      | [] => []
      | b2 :: r2 =>
        if b <? 0xE0 then ((b - 0xC0) * 64 + (b2 - 0x80)) :: utf8 r2
        else match r2 with
          | [] => []
          | b3 :: r3 =>
            if b <? 0xF0
            then ((b - 0xE0) * 4096 + (b2 - 0x80) * 64 + (b3 - 0x80)) :: utf8 r3
            else match r3 with
              | [] => []
              | b4 :: r4 =>
                ((b - 0xF0) * 262144 + (b2 - 0x80) * 4096
                 + (b3 - 0x80) * 64 + (b4 - 0x80)) :: utf8 r4
              end
          end
      end
  end.

Definition txt (s : string) : str :=
  utf8 (map N_of_ascii (list_ascii_of_string s)).
Arguments txt s%_string.

Fixpoint str_eqb (a b : str) : bool :=
  match a, b with
  | [], [] => true
  | x :: a', y :: b' => (x =? y) && str_eqb a' b'
  | _, _ => false
  end.

(** Truthiness of a string: [if s:] *)
Definition truthy (s : str) : bool :=
  match s with [] => false | _ :: _ => true end.

Definition in_range (lo hi c : N) : bool := (lo <=? c) && (c <=? hi).

(** [str.isspace] (also the regex class [\s]): complete for Unicode 14. *)
Definition isspace (c : char) : bool :=
  in_range 0x09 0x0D c || in_range 0x1C 0x20 c || (c =? 0x85) || (c =? 0xA0)
  || (c =? 0x1680) || in_range 0x2000 0x200A c || (c =? 0x2028)
  || (c =? 0x2029) || (c =? 0x202F) || (c =? 0x205F) || (c =? 0x3000).

(** [str.isdecimal] (also the regex class [\d]) on the tabulated range. *)
Definition isdecimal (c : char) : bool := in_range 0x30 0x39 c.

Definition is_ascii_lower (c : char) : bool := in_range 0x61 0x7A c.
Definition is_ascii_upper (c : char) : bool := in_range 0x41 0x5A c.
Definition is_ascii_alnum (c : char) : bool :=
  isdecimal c || is_ascii_upper c || is_ascii_lower c.

(** [str.isalnum] on the tabulated range, and on the four letters beyond
    it that fold to an ASCII letter: U+0130, U+0131, U+017F and U+212A. *)
Definition isalnum (c : char) : bool :=
  is_ascii_alnum c
  || (c =? 0xAA) || (c =? 0xB2) || (c =? 0xB3) || (c =? 0xB5) || (c =? 0xB9)
  || (c =? 0xBA) || in_range 0xBC 0xBE c || in_range 0xC0 0xD6 c
  || in_range 0xD8 0xF6 c || in_range 0xF8 0xFF c
  || (c =? 0x130) || (c =? 0x131) || (c =? 0x17F) || (c =? 0x212A).

(** The regex class [\w]: alphanumeric or underscore. *)
Definition isword (c : char) : bool := isalnum c || (c =? 0x5F).

(** [str.lower], character by character. *)
Definition lower_char (c : char) : char :=
  if is_ascii_upper c then c + 32
  else if in_range 0xC0 0xDE c && negb (c =? 0xD7) then c + 32
  else c.

Definition lower (s : str) : str := map lower_char s.

(** [str.upper]: sharp s becomes two letters, micro sign and y-diaeresis
    leave the Latin-1 block, dotless i and long s enter ASCII. *)
Definition upper_char (c : char) : str :=
  if is_ascii_lower c then [c - 32]
  else if c =? 0xB5 then [0x39C]
  else if c =? 0xDF then [0x53; 0x53]
  else if c =? 0xFF then [0x178]
  else if in_range 0xE0 0xFE c && negb (c =? 0xF7) then [c - 32]
  else if c =? 0x131 then [0x49]
  else if c =? 0x17F then [0x53]
  else [c].

Definition upper (s : str) : str := flat_map upper_char s.

(** [str.strip()], [str.strip(chars)] *)
Fixpoint lstrip_by (p : char -> bool) (s : str) : str :=
  match s with
  | [] => []
  | c :: r => if p c then lstrip_by p r else s
  end.

Definition rstrip_by (p : char -> bool) (s : str) : str :=
  rev (lstrip_by p (rev s)).

Definition strip_by (p : char -> bool) (s : str) : str :=
  rstrip_by p (lstrip_by p s).

Definition strip (s : str) : str := strip_by isspace s.

(** [s.startswith(p)], [s.endswith(p)] *)
Fixpoint startswith (p s : str) : bool :=
  match p, s with
  | [], _ => true
  | x :: p', y :: s' => (x =? y) && startswith p' s'
  | _ :: _, [] => false
  end.

Definition endswith (p s : str) : bool := startswith (rev p) (rev s).

(** Slices [s[n:]] and [s[:-n]] *)
Definition slice_from (n : nat) (s : str) : str := skipn n s.
Definition slice_drop_last (n : nat) (s : str) : str :=
  firstn (length s - n) s.

(** [sub in s] *)
Fixpoint contains (sub s : str) : bool :=
  startswith sub s ||
  match s with
  | [] => false
  | _ :: r => contains sub r
  end.

(** [s.replace(old, new)] for a non-empty [old]: every non-overlapping
    occurrence, scanning from the left.  [skip] counts the characters of
    the occurrence being consumed. *)
Fixpoint replace_from (old new : str) (skip : nat) (s : str) : str :=
  match s with
  | [] => []
  | c :: r =>
    match skip with
    | S k => replace_from old new k r
    | O =>
      if startswith old s
      then new ++ replace_from old new (length old - 1) r
      else c :: replace_from old new 0 r
    end
  end.

Definition replace (old new s : str) : str := replace_from old new 0 s.

(** [unicodedata.normalize("NFD", s)]: canonical decompositions of the
    Latin-1 letters (base letter, combining mark). *)
Definition nfd_table : list (N * (N * N)) :=
  [ (0xC0, (0x41, 0x300)); (0xC1, (0x41, 0x301)); (0xC2, (0x41, 0x302));
    (0xC3, (0x41, 0x303)); (0xC4, (0x41, 0x308)); (0xC5, (0x41, 0x30A));
    (0xC7, (0x43, 0x327)); (0xC8, (0x45, 0x300)); (0xC9, (0x45, 0x301));
    (0xCA, (0x45, 0x302)); (0xCB, (0x45, 0x308)); (0xCC, (0x49, 0x300));
    (0xCD, (0x49, 0x301)); (0xCE, (0x49, 0x302)); (0xCF, (0x49, 0x308));
    (0xD1, (0x4E, 0x303)); (0xD2, (0x4F, 0x300)); (0xD3, (0x4F, 0x301));
    (0xD4, (0x4F, 0x302)); (0xD5, (0x4F, 0x303)); (0xD6, (0x4F, 0x308));
    (0xD9, (0x55, 0x300)); (0xDA, (0x55, 0x301)); (0xDB, (0x55, 0x302));
    (0xDC, (0x55, 0x308)); (0xDD, (0x59, 0x301));
    (0xE0, (0x61, 0x300)); (0xE1, (0x61, 0x301)); (0xE2, (0x61, 0x302));
    (0xE3, (0x61, 0x303)); (0xE4, (0x61, 0x308)); (0xE5, (0x61, 0x30A));
    (0xE7, (0x63, 0x327)); (0xE8, (0x65, 0x300)); (0xE9, (0x65, 0x301));
    (0xEA, (0x65, 0x302)); (0xEB, (0x65, 0x308)); (0xEC, (0x69, 0x300));
    (0xED, (0x69, 0x301)); (0xEE, (0x69, 0x302)); (0xEF, (0x69, 0x308));
    (0xF1, (0x6E, 0x303)); (0xF2, (0x6F, 0x300)); (0xF3, (0x6F, 0x301));
    (0xF4, (0x6F, 0x302)); (0xF5, (0x6F, 0x303)); (0xF6, (0x6F, 0x308));
    (0xF9, (0x75, 0x300)); (0xFA, (0x75, 0x301)); (0xFB, (0x75, 0x302));
    (0xFC, (0x75, 0x308)); (0xFD, (0x79, 0x301)); (0xFF, (0x79, 0x308)) ].

Fixpoint assoc_N {A} (k : N) (t : list (N * A)) : option A :=
  match t with
  | [] => None
  | (k', v) :: t' => if k =? k' then Some v else assoc_N k t'
  end.

Definition nfd_char (c : char) : str :=
  match assoc_N c nfd_table with
  | Some (b, m) => [b; m]
  | None => [c]
  end.

(** The canonical reordering step of NFD only permutes characters of
    non-zero combining class among themselves; every caller removes those
    characters right after normalising, so it is not modelled. *)
Definition nfd (s : str) : str := flat_map nfd_char s.

(** [unicodedata.combining(ch) != 0]: U+034F has class 0. *)
Definition combining (c : char) : bool :=
  in_range 0x300 0x36F c && negb (c =? 0x34F).

(** [int(n)] of a run of decimal digits *)
Definition digit_val (c : char) : Z := Z.of_N (c - 0x30).

Definition int_of_digits (ds : str) : Z :=
  fold_left (fun acc c => (10 * acc + digit_val c)%Z) ds 0%Z.

(** [unidecode(s)]: ASCII is kept; the code points U+0080..U+00FF follow
    the library's transliteration table, where the controls U+0080..U+009F
    and the soft hyphen give nothing.  The code points beyond U+00FF are
    not tabulated here and are dropped. *)
Definition unidecode_table : list (N * str) :=
  [ (0xA0, txt " "); (0xA1, txt "!"); (0xA2, txt "C/"); (0xA3, txt "PS");
    (0xA4, txt "$?"); (0xA5, txt "Y="); (0xA6, txt "|"); (0xA7, txt "SS");
    (0xA8, [0x22]); (0xA9, txt "(c)"); (0xAA, txt "a"); (0xAB, txt "<<");
    (0xAC, txt "!"); (0xAD, []); (0xAE, txt "(r)"); (0xAF, txt "-");
    (0xB0, txt "deg"); (0xB1, txt "+-"); (0xB2, txt "2"); (0xB3, txt "3");
    (0xB4, txt "'"); (0xB5, txt "u"); (0xB6, txt "P"); (0xB7, txt "*");
    (0xB8, txt ","); (0xB9, txt "1"); (0xBA, txt "o"); (0xBB, txt ">>");
    (0xBC, txt " 1/4"); (0xBD, txt " 1/2"); (0xBE, txt " 3/4");
    (0xBF, txt "?");
    (0xC0, txt "A"); (0xC1, txt "A"); (0xC2, txt "A"); (0xC3, txt "A");
    (0xC4, txt "A"); (0xC5, txt "A"); (0xC6, txt "AE"); (0xC7, txt "C");
    (0xC8, txt "E"); (0xC9, txt "E"); (0xCA, txt "E"); (0xCB, txt "E");
    (0xCC, txt "I"); (0xCD, txt "I"); (0xCE, txt "I"); (0xCF, txt "I");
    (0xD0, txt "D"); (0xD1, txt "N"); (0xD2, txt "O"); (0xD3, txt "O");
    (0xD4, txt "O"); (0xD5, txt "O"); (0xD6, txt "O"); (0xD7, txt "x");
    (0xD8, txt "O"); (0xD9, txt "U"); (0xDA, txt "U"); (0xDB, txt "U");
    (0xDC, txt "U"); (0xDD, txt "Y"); (0xDE, txt "Th"); (0xDF, txt "ss");
    (0xE0, txt "a"); (0xE1, txt "a"); (0xE2, txt "a"); (0xE3, txt "a");
    (0xE4, txt "a"); (0xE5, txt "a"); (0xE6, txt "ae"); (0xE7, txt "c");
    (0xE8, txt "e"); (0xE9, txt "e"); (0xEA, txt "e"); (0xEB, txt "e");
    (0xEC, txt "i"); (0xED, txt "i"); (0xEE, txt "i"); (0xEF, txt "i");
    (0xF0, txt "d"); (0xF1, txt "n"); (0xF2, txt "o"); (0xF3, txt "o");
    (0xF4, txt "o"); (0xF5, txt "o"); (0xF6, txt "o"); (0xF7, txt "/");
    (0xF8, txt "o"); (0xF9, txt "u"); (0xFA, txt "u"); (0xFB, txt "u");
    (0xFC, txt "u"); (0xFD, txt "y"); (0xFE, txt "th"); (0xFF, txt "y") ].

Definition unidecode_char (c : char) : str :=
  if c <? 0x80 then [c]
  else match assoc_N c unidecode_table with
       | Some t => t
       | None => []
       end.

Definition unidecode (s : str) : str := flat_map unidecode_char s.

(** Membership in a literal set or list of strings. *)
Definition str_in (s : str) (l : list str) : bool := existsb (str_eqb s) l.

(** The first element a loop body returns on. *)
Fixpoint find_map {A B} (f : A -> option B) (l : list A) : option B :=
  match l with
  | [] => None
  | x :: r => match f x with Some y => Some y | None => find_map f r end
  end.

(** The values a column or a parsed list can hold. *)
Inductive pyval :=
  | PyInt (z : Z)
  | PyStr (s : str)
  | PyNaN.

Definition is_int (v : pyval) : bool :=
  match v with PyInt _ => true | _ => false end.

(** A dict, in insertion order. *)
Definition dict (V : Type) := list (str * V).

Fixpoint dict_get {V} (d : dict V) (k : str) (default : V) : V :=
  match d with
  | [] => default
  | (k', v) :: d' => if str_eqb k k' then v else dict_get d' k default
  end.

Fixpoint dict_mem {V} (d : dict V) (k : str) : bool :=
  match d with
  | [] => false
  | (k', _) :: d' => str_eqb k k' || dict_mem d' k
  end.

#[global] Instance pyval_eq_dec : EqDecision pyval.
Proof. solve_decision. Defined.

#[global] Instance pyval_countable : Countable pyval.
Proof.
  refine (inj_countable'
    (fun v => match v with
              | PyInt z => inl z
              | PyStr s => inr (Some s)
              | PyNaN => inr None
              end)
    (fun x => match x with
              | inl z => PyInt z
              | inr (Some s) => PyStr s
              | inr None => PyNaN
              end) _).
  intros []; reflexivity.
Defined.

(** [sep.join(parts)] *)
Fixpoint join (sep : str) (parts : list str) : str :=
  match parts with
  | [] => []
  | [p] => p
  | p :: rest => p ++ sep ++ join sep rest
  end.

(** [a <= b] on strings: by code point, a prefix first. *)
Fixpoint str_leb (a b : str) : bool :=
  match a, b with
  | [], _ => true
  | _ :: _, [] => false
  | x :: a', y :: b' => if N.ltb x y then true
                        else if N.eqb x y then str_leb a' b' else false
  end.

(** [min(xs)]; [None] is the [ValueError] on an empty argument. *)
Definition py_min (xs : list Z) : option Z :=
  match xs with
  | [] => None
  | x :: rest => Some (fold_right Z.min x rest)
  end.

End Py.

(** ** The regular expressions of the program

    Each pattern that the source hands to [re] is a character-class run, a
    bounded word alternation or the identifier pattern; the scanners below
    implement [re.sub], [re.findall], [re.split] and [re.search] for
    those shapes (leftmost match, greedy repetition, ordered alternation). *)

Module Re.
Import Py.

(** [re.sub(r"[cls]+", repl, s)]: every maximal run of class characters is
    replaced by [repl]. *)
Fixpoint sub_runs_from (cls : char -> bool) (repl : str) (in_run : bool)
    (s : str) : str :=
  match s with
  | [] => []
  | c :: r =>
    if cls c
    then (if in_run then [] else repl) ++ sub_runs_from cls repl true r
    else c :: sub_runs_from cls repl false r
  end.

Definition sub_runs (cls : char -> bool) (repl s : str) : str :=
  sub_runs_from cls repl false s.

(** [re.sub(r"[cls]", repl, s)]: every class character is replaced. *)
Definition sub_each (cls : char -> bool) (repl s : str) : str :=
  flat_map (fun c => if cls c then repl else [c]) s.

(** [re.findall(r"[cls]+", s)]: the maximal runs, left to right; [cur] is
    the run being read. *)
Fixpoint findall_runs_from (cls : char -> bool) (cur : str) (s : str)
    : list str :=
  match s with
  | [] => if truthy cur then [cur] else []
  | c :: r =>
    if cls c then findall_runs_from cls (cur ++ [c]) r
    else (if truthy cur then [cur] else []) ++ findall_runs_from cls [] r
  end.

Definition findall_runs (cls : char -> bool) (s : str) : list str :=
  findall_runs_from cls [] s.

(** [re.split(r"[cls]+", s)]: the pieces between the runs, empty pieces at
    the ends included. *)
Fixpoint split_runs_from (cls : char -> bool) (cur : str) (in_sep : bool)
    (s : str) : list str :=
  match s with
  | [] => [cur]
  | c :: r =>
    if cls c
    then (if in_sep then [] else [cur]) ++ split_runs_from cls [] true r
    else split_runs_from cls (cur ++ [c]) false r
  end.

Definition split_runs (cls : char -> bool) (s : str) : list str :=
  split_runs_from cls [] false s.

(** [\b] between the character before the position and the one after it. *)
Definition word_opt (c : option char) : bool :=
  match c with Some c => isword c | None => false end.

Definition boundary (prev next : option char) : bool :=
  xorb (word_opt prev) (word_opt next).

(** An alternative [a] of [\b(a1|a2|...)\b] matches at the head of [s]
    when it is a prefix of [s] and a boundary follows it. *)
Definition alt_matches (s a : str) : bool :=
  startswith a s && boundary (last a) (nth_error s (length a)).

(** [re.sub(r"\b(a1|a2|...)\b", "", s)] for non-empty alternatives; [prev]
    is the character before the position, [skip] the number of characters
    of the current match still to be consumed. *)
Fixpoint sub_words_from (alts : list str) (prev : option char) (skip : nat)
    (s : str) : str :=
  match s with
  | [] => []
  | c :: r =>
    match skip with
    | S k => sub_words_from alts (Some c) k r
    | O =>
      if boundary prev (Some c) then
        match find (alt_matches s) alts with
        | Some a => sub_words_from alts (Some c) (length a - 1) r
        | None => c :: sub_words_from alts (Some c) 0 r
        end
      else c :: sub_words_from alts (Some c) 0 r
    end
  end.

Definition sub_words (alts : list str) (s : str) : str :=
  sub_words_from alts None 0 s.

(** The non-empty prefixes of a run, longest first: the order in which a
    greedy [+] gives characters back. *)
Fixpoint prefixes_longest_first (run : str) : list str :=
  match run with
  | [] => []
  | c :: r => map (cons c) (prefixes_longest_first r) ++ [[c]]
  end.

Fixpoint take_while (p : char -> bool) (s : str) : str :=
  match s with
  | [] => []
  | c :: r => if p c then c :: take_while p r else []
  end.

(** The case folding of [re.IGNORECASE] as far as it reaches ASCII: an
    ASCII letter of a pattern takes both its cases and, for [i], [s] and
    [k], the letters that fold to them: U+0130 and U+0131, U+017F,
    U+212A. *)
Definition fold_ascii (c : char) : char :=
  if is_ascii_upper c then (c + 32)%N
  else if N.eqb c 0x130 || N.eqb c 0x131 then 0x69%N
  else if N.eqb c 0x17F then 0x73%N
  else if N.eqb c 0x212A then 0x6B%N
  else c.

(** The class [[A-Za-z0-9]] with [re.IGNORECASE] *)
Definition id_char (c : char) : bool := is_ascii_alnum (fold_ascii c).

(** [r"\b(?:SVB|RIG|PER)_([A-Za-z0-9]+)\b"] with [re.IGNORECASE], anchored
    at the head of [s]; the result is group 1. *)
Definition svb_id_at (prev : option char) (s : str) : option str :=
  if boundary prev (head s) then
    if existsb (fun p => str_eqb (map fold_ascii (firstn 3 s)) p)
         [txt "svb"; txt "rig"; txt "per"]
    then
      match skipn 3 s with
      | c :: r =>
        if N.eqb c 0x5F then
          find (fun g => boundary (last g)
                                  (nth_error r (length g)))
               (prefixes_longest_first (take_while id_char r))
        else None
      | [] => None
      end
    else None
  else None.

(** [_SVB_ID_RE.search(s)]: the leftmost position where the pattern
    matches. *)
Fixpoint svb_id_search_from (prev : option char) (s : str) : option str :=
  match svb_id_at prev s with
  | Some g => Some g
  | None =>
    match s with
    | [] => None
    | c :: r => svb_id_search_from (Some c) r
    end
  end.

Definition svb_id_search (s : str) : option str := svb_id_search_from None s.

(** The separators of [\s*(?:,|;|/|\||&|\+|\be\b|\band\b)\s*] with
    [re.IGNORECASE]: the length of the delimiter at the head of [s], the
    character before it being [prev]. *)
Definition delim_at (prev : option char) (s : str) : option nat :=
  match s with
  | [] => None
  | c :: r =>
    if existsb (N.eqb c) (txt ",;/|&+") then Some 1%nat
    else if N.eqb (lower_char c) 0x65
            && boundary prev (Some c) && boundary (Some c) (head r)
    then Some 1%nat
    else if str_eqb (lower (firstn 3 s)) (txt "and")
            && boundary prev (Some c)
            && boundary (nth_error s 2) (nth_error s 3)
    then Some 3%nat
    else None
  end.

(** The length of the match of the whole pattern at the head of [s]: the
    white space before the delimiter, the delimiter, the white space after
    it.  The leading [\s*] is greedy and no delimiter starts with white
    space, so a match takes the whole run of white space or fails. *)
Definition sep_at (prev : option char) (s : str) : option nat :=
  let ws := take_while isspace s in
  let rest := skipn (length ws) s in
  let prev' := match last ws with Some w => Some w | None => prev end in
  match delim_at prev' rest with
  | Some d =>
    Some (length ws + d + length (take_while isspace (skipn d rest)))%nat
  | None => None
  end.

(** [pat.split(s)]: the pieces between the leftmost matches, empty pieces
    included; [skip] counts the characters of the current match still to
    be passed. *)
Fixpoint split_sep_from (prev : option char) (skip : nat) (cur : str)
    (s : str) : list str :=
  match s with
  | [] => [cur]
  | c :: r =>
    match skip with
    | S k => split_sep_from (Some c) k cur r
    | O =>
      match sep_at prev s with
      | Some n => cur :: split_sep_from (Some c) (n - 1) [] r
      | None => split_sep_from (Some c) 0 (cur ++ [c]) r
      end
    end
  end.

Definition split_sep (s : str) : list str := split_sep_from None 0 [] s.

End Re.

(** ** The slice of pandas the program uses

    A frame is its column labels and its rows of text cells, a label
    naming the first column that carries it; [None] stands for the
    [KeyError] of [df[c]] on a missing column. *)

Module Pandas.
Import Py.

Record DataFrame := mkDF { columns : list str; rows : list (list str) }.

Fixpoint index_of (c : str) (cols : list str) : option nat :=
  match cols with
  | [] => None
  | c' :: r => if str_eqb c c' then Some 0%nat else S <$> index_of c r
  end.

(** [c in df.columns] *)
Definition has_column (df : DataFrame) (c : str) : bool :=
  str_in c (columns df).

(** [row.get(c, default)] for a row of a frame with labels [cols] *)
Definition row_get (cols : list str) (row : list str) (c : str)
    (default : str) : str :=
  match index_of c cols with
  | Some i => nth i row default
  | None => default
  end.

(** [df[c].tolist()] *)
Definition column (df : DataFrame) (c : str) : option (list str) :=
  match index_of c (columns df) with
  | Some i => Some (map (fun r => nth i r []) (rows df))
  | None => None
  end.

(** The row with cell [i] overwritten; a short row is padded up to it. *)
Fixpoint set_nth (i : nat) (v : str) (row : list str) : list str :=
  match i, row with
  | O, _ :: r => v :: r
  | O, [] => [v]
  | S k, x :: r => x :: set_nth k v r
  | S k, [] => [] :: set_nth k v []
  end.

(** The row after the assignment has written [v] under the label [c] *)
Definition set_cell (cols : list str) (c : str) (row : list str) (v : str)
    : list str :=
  match index_of c cols with
  | Some i => set_nth i v row
  | None => row ++ [v]
  end.

(** [df[c] = values], one value per row: replaces the column when the
    label exists, appends it otherwise. *)
Definition set_column (df : DataFrame) (c : str) (values : list str)
    : DataFrame :=
  mkDF (if str_in c (columns df) then columns df else columns df ++ [c])
       (map (fun rv => set_cell (columns df) c (fst rv) (snd rv))
            (combine (rows df) values)).

(** [df.drop_duplicates(subset=c)]: of the rows that agree on column [c]
    the first is kept. *)
Fixpoint drop_dup_rows (key : list str -> str) (seen : list str)
    (rs : list (list str)) : list (list str) :=
  match rs with
  | [] => []
  | r :: rest =>
    if str_in (key r) seen then drop_dup_rows key seen rest
    else r :: drop_dup_rows key (key r :: seen) rest
  end.

Definition drop_duplicates (df : DataFrame) (c : str) : DataFrame :=
  mkDF (columns df)
       (drop_dup_rows (fun r => row_get (columns df) r c []) [] (rows df)).

(** [df.rename(columns=ren)] *)
Definition rename_columns (df : DataFrame) (ren : gmap str str) : DataFrame :=
  mkDF (map (fun c => default c (ren !! c)) (columns df)) (rows df).

(** Truthiness of a list *)
Definition truthy_list {A} (l : list A) : bool :=
  match l with [] => false | _ :: _ => true end.

(** [len(df)] *)
Definition len (df : DataFrame) : nat := length (rows df).

(** [series.explode()] of one cell holding a list: an empty list leaves a
    single missing value. *)
Definition explode_cell (l : list pyval) : list pyval :=
  match l with
  | [] => [PyNaN]
  | _ :: _ => l
  end.

End Pandas.

(** ** app.py *)

Module App.
Import Py Re Pandas.

Definition COL_EP := txt "Episódio".
Definition COL_NAME := txt "Nome do perosnagem".
Definition COL_FILE_ID := txt "ID do Arquivo".
Definition COL_RIG_LINK := txt "Link para baixar o modelo Rigado".
Definition COL_SYNCSKETCH := txt "Link do SyncSketch".
Definition COL_CONCEPT_LINK := txt "Link para baixar o modelo Ceoncept vetorizado".
Definition COL_URG_CONCEPT := txt "URGÊNCIA".
Definition COL_STATUS_CONCEPT := txt "Status do Concept".
Definition COL_RESP_CONCEPT := txt "Responsável".
Definition COL_URG_RIG := txt "URGÊNCIA.1".
Definition COL_STATUS_RIG := txt "Status do Rig".
Definition COL_RESP_RIG := txt "Respondável".
Definition COL_COMMENTS := txt "COMENTÁRIOS".
Definition COL_DATE_CONCEPT := txt "Entrega Concept".
Definition COL_DATE_RIG := txt "Entrega Rig".

Definition _normalize_text (s : str) : str :=
  if truthy s
  then List.filter (fun ch => negb (combining ch)) (nfd (lower (strip s)))
  else [].

(** The class [[^a-z0-9]] and its complement *)
Definition not_az09 (c : char) : bool :=
  negb (is_ascii_lower c || isdecimal c).

Definition az09 (c : char) : bool := negb (not_az09 c).

Definition norm_key (s : str) : str :=
  sub_runs not_az09 [] (_normalize_text s).

Definition is_concluido (s : str) : bool :=
  str_eqb (_normalize_text s) (txt "concluido").

Definition parse_episode_field (ep_field : str) : list pyval :=
  if negb (truthy ep_field) then []
  else
    let ep_field := strip ep_field in
    if negb (truthy ep_field) then []
    else if str_eqb (lower ep_field) (txt "todos") then [PyStr (txt "Todos")]
    else map (fun n => PyInt (int_of_digits n)) (findall_runs isdecimal ep_field).

(** [None] is the exception raised by [.tolist()] on the default [[]]
    when the episode column is missing. *)
Definition detect_all_numeric_episodes (df : DataFrame) : option (list Z) :=
  raws ← column df COL_EP;
  let eps : gset Z :=
    fold_left
      (fun eps raw =>
         fold_left
           (fun eps p => match p with PyInt z => eps ∪ {[ z ]} | _ => eps end)
           (parse_episode_field raw) eps)
      raws ∅ in
  Some (merge_sort Z.le (elements eps)).

Definition special_cases : dict (list str) :=
  [ (txt "tia_rebimboca_de_mochila",
       [txt "tia_rebimboca"; txt "rebimboca"; txt "rebi_mochila"]);
    (txt "tia_rebimboca", [txt "rebimboca"; txt "rebi"]);
    (txt "pepe_pescador", [txt "pepe_pescador"; txt "pepe"]);
    (txt "seu_tonho", [txt "seutonho"]);
    (txt "xico_apicultor", [txt "xico_apicultor"; txt "xico"]);
    (txt "xico_rio", [txt "xico_rio"; txt "xico"]) ].

Definition connectors : list str :=
  [txt "de"; txt "da"; txt "do"; txt "e"; txt "com"; txt "para"; txt "em";
   txt "na"; txt "no"].

(** [idx_key.replace('svb_rig_', '').replace('svb_per_', '').replace('svb_', '')] *)
Definition file_name_parts (idx_key : str) : str :=
  replace (txt "svb_") []
    (replace (txt "svb_per_") [] (replace (txt "svb_rig_") [] idx_key)).

Definition underscore_or_space (c : char) : bool := N.eqb c 0x5F || isspace c.

Definition name_words (name_norm : str) : list str :=
  List.filter (fun w => Nat.leb 3 (length w))
              (split_runs underscore_or_space name_norm).

Definition name_variants (name : str) : list str :=
  let name_norm := norm_key name in
  let name_clean := sub_words connectors (lower name) in
  let name_clean_norm := norm_key name_clean in
  let words := name_words name_norm in
  [name_norm]
  ++ (if str_eqb name_clean_norm name_norm then [] else [name_clean_norm])
  ++ (if dict_mem special_cases name_clean_norm
      then dict_get special_cases name_clean_norm [] else [])
  ++ (match words with
      | w0 :: w1 :: _ => [w0 ++ txt "_" ++ w1]
      | _ => []
      end)
  ++ (match words with
      | w0 :: _ => [w0]
      | [] => []
      end).

Section Resolver.
Variable img_idx : dict str.

Definition try_match (candidate_id : str) : str :=
  dict_get img_idx (norm_key candidate_id) [].

(** [result = try_match(c); if result: return result], for each candidate
    in turn *)
Definition try_each (candidates : list str) : option str :=
  find_map (fun c => let result := try_match c in
                     if truthy result then Some result else None) candidates.

(** Strategies 1 and 2: the identifier and its RIG/PER variations *)
Definition match_by_id (fid : str) : option str :=
  if truthy fid && startswith (txt "SVB_") (upper fid) then
    match try_each [fid] with
    | Some result => Some result
    | None =>
      let up := upper fid in
      if startswith (txt "SVB_RIG_") up then
        try_each [txt "SVB_PER_" ++ slice_from 8 fid;
                  txt "SVB_" ++ slice_from 8 fid]
      else if startswith (txt "SVB_PER_") up then
        try_each [txt "SVB_RIG_" ++ slice_from 8 fid;
                  txt "SVB_" ++ slice_from 8 fid]
      else if startswith (txt "SVB_") up then
        try_each [txt "SVB_RIG_" ++ slice_from 4 fid;
                  txt "SVB_PER_" ++ slice_from 4 fid]
      else None
    end
  else None.

(** Strategy 3: a variant equal to the useful part of an indexed key *)
Definition match_exact (variants : list str) : option str :=
  find_map (fun variant =>
    find_map (fun kv : str * str =>
      if str_eqb variant (file_name_parts (fst kv)) then Some (snd kv)
      else None) img_idx) variants.

(** Strategy 4: containment either way, the contained side of length >= 4 *)
Definition match_partial (variants : list str) : option str :=
  find_map (fun variant =>
    find_map (fun kv : str * str =>
      let parts := file_name_parts (fst kv) in
      if (contains variant parts && Nat.leb 4 (length variant))
         || (contains parts variant && Nat.leb 4 (length parts))
      then Some (snd kv) else None) img_idx) variants.

(** Strategy 5: a word of the name, of length >= 4, inside an indexed key *)
Definition match_words (words : list str) : option str :=
  find_map (fun part =>
    if Nat.leb 4 (length part) then
      find_map (fun kv : str * str =>
        if contains part (fst kv) then Some (snd kv) else None) img_idx
    else None) words.

Definition match_by_name (name : str) : option str :=
  if truthy name then
    let variants := name_variants name in
    match match_exact variants with
    | Some path => Some path
    | None =>
      match match_partial variants with
      | Some path => Some path
      | None => match_words (name_words (norm_key name))
      end
    end
  else None.

Definition find_image_for (file_id name : str) : str :=
  let fid := strip file_id in
  let name := strip name in
  match match_by_id fid with
  | Some result => result
  | None =>
    match match_by_name name with
    | Some path => path
    | None => []
    end
  end.

End Resolver.

(** The image index of a directory listing: [files] gives, for each entry
    in iteration order, its stem, its suffix and its path as text. *)
Definition image_suffixes : list str :=
  [txt ".png"; txt ".jpg"; txt ".jpeg"; txt ".webp"; txt ".gif"].

(** The body of the loop over the directory, for one entry *)
Definition index_file (idx : dict str) (f : str * str * str) : dict str :=
  let '(stem, suffix, path) := f in
  if negb (str_in (lower suffix) image_suffixes) then idx
  else if negb (startswith (txt "SVB_") (upper stem)) then idx
  else
    let key := norm_key stem in
    if truthy key && negb (dict_mem idx key)
    then idx ++ [(key, path)] else idx.

Definition index_images (files : list (str * str * str)) : dict str :=
  fold_left index_file files [].

(** The entry [ren[raw]] that the header loop writes for one column, if
    any. *)
Definition rename_entry (raw : str) : option str :=
  let has_suffix := endswith (txt ".1") raw in
  let base := if has_suffix then slice_drop_last 2 raw else raw in
  let nk := norm_key base in
  if str_in nk [txt "episodio"; txt "episodios"; txt "eps"] then Some COL_EP
  else if str_in nk [txt "nome"; txt "nomedoperosnagem"; txt "nomepersonagem";
                     txt "nomedopersonagem"] then Some COL_NAME
  else if str_in nk [txt "id"; txt "iddoarquivo"; txt "iddoarquivo"]
       then Some COL_FILE_ID
  else if str_in nk [txt "linkrig"; txt "linkdorig";
                     txt "linkparabaixaromodelorigado"] then Some COL_RIG_LINK
  else if str_in nk [txt "syncsketch"; txt "syncsketch"] then Some COL_SYNCSKETCH
  else if str_in nk [txt "linksconcept"; txt "linkconcept";
                     txt "linkdoconcept";
                     txt "linkparabaixaromodeloceonceptvetorizado"]
       then Some COL_CONCEPT_LINK
  else if str_in nk [txt "statusrig"] then Some COL_STATUS_RIG
  else if str_in nk [txt "statusconcept"; txt "vetorizacao"]
       then Some COL_STATUS_CONCEPT
  else if str_in nk [txt "modelsheet"; txt "modelsheet"] then Some raw
  else if str_in nk [txt "responsavel"; txt "respondavel"]
       then Some (if has_suffix then COL_RESP_CONCEPT else COL_RESP_RIG)
  else if str_in nk [txt "entrega"]
       then Some (if has_suffix then COL_DATE_CONCEPT else COL_DATE_RIG)
  else if str_in nk [txt "comentarios"; txt "comentario"] then Some COL_COMMENTS
  else None.

(** The internal column names, in the order the module declares them. *)
Definition canonical_headers : list str :=
  [COL_EP; COL_NAME; COL_FILE_ID; COL_RIG_LINK; COL_SYNCSKETCH;
   COL_CONCEPT_LINK; COL_URG_CONCEPT; COL_STATUS_CONCEPT; COL_RESP_CONCEPT;
   COL_URG_RIG; COL_STATUS_RIG; COL_RESP_RIG; COL_COMMENTS; COL_DATE_CONCEPT;
   COL_DATE_RIG].

(** The dict [ren] after the header loop has run over [cols], starting
    from [acc]. *)
Definition ren_of (cols : list str) (acc : gmap str str) : gmap str str :=
  fold_left
    (fun ren raw =>
       match rename_entry raw with
       | Some target => <[ raw := target ]> ren
       | None => ren
       end)
    cols acc.

Definition _rename_headers_for_schema (df_in : DataFrame) : DataFrame :=
  let ren := ren_of (columns df_in) ∅ in
  if bool_decide (ren = ∅) then df_in else rename_columns df_in ren.

(** One row of the exploded table: the cells of the source row, the
    value left in [__EP_LIST__] and the derived columns. *)
Record ExpRow := mkExpRow {
  cells : list str;
  EP_LIST : pyval;
  name_norm : str;
  id_norm : str;
  ok_c : bool;
  ok_r : bool;
  ok_both : bool
}.

Definition _expand (all_eps : list Z) (lst : list pyval) : list pyval :=
  if existsb (fun x => match x with
                       | PyStr s => str_eqb (lower s) (txt "todos")
                       | _ => false
                       end) lst
  then map PyInt all_eps
  else lst.

Definition search_norm (s : str) : str :=
  List.filter isalnum (unidecode (lower s)).

(** The values one source row leaves in [__EP_LIST__]: the parsed list,
    expanded when there are known episodes, exploded, integers kept. *)
Definition kept_episodes (all_eps : list Z) (ep_field : str) : list pyval :=
  let ep_list := parse_episode_field ep_field in
  let ep_list := if truthy_list all_eps then _expand all_eps ep_list
                 else ep_list in
  List.filter is_int (explode_cell ep_list).

(** The rows one source row leaves in the exploded table. *)
Definition explode_row (cols : list str) (all_eps : list Z) (row : list str)
    : list ExpRow :=
  let okc := is_concluido (row_get cols row COL_STATUS_CONCEPT []) in
  let okr := is_concluido (row_get cols row COL_STATUS_RIG []) in
  map (fun ep =>
         mkExpRow row ep
                  (search_norm (row_get cols row COL_NAME []))
                  (search_norm (row_get cols row COL_FILE_ID []))
                  okc okr (okc && okr))
      (kept_episodes all_eps (row_get cols row COL_EP [])).

(** [None] is the [KeyError] of a frame without the episode, name or
    identifier column. *)
Definition build_base_exp (df : DataFrame) (all_eps_tuple : list Z)
    : option (list ExpRow) :=
  if has_column df COL_EP && has_column df COL_NAME
     && has_column df COL_FILE_ID
  then Some (flat_map (explode_row (columns df) all_eps_tuple) (rows df))
  else None.

(** The values are [None], strings or other cell values. *)
Fixpoint coalesce (vals : list (option pyval)) : pyval :=
  match vals with
  | [] => PyStr []
  | None :: rest => coalesce rest
  | Some (PyStr v) :: rest =>
    let v2 := strip v in
    if truthy v2 then PyStr v2 else coalesce rest
  | Some v :: _ => v
  end.

(** On a string; [coalesce] of a string is a string, the last branch is
    never taken. *)
Definition normalize_responsavel (s : str) : str :=
  match coalesce [Some (PyStr s)] with
  | PyStr raw => dict_get [(txt "oto", txt "OTONIEL")] (_normalize_text raw) raw
  | _ => s
  end.

(** The row combiner of the duplicate-column collapse: the first cell that
    is a string with content or a value that is not missing. *)
Fixpoint _first_nonempty (row : list pyval) : pyval :=
  match row with
  | [] => PyStr []
  | PyStr v :: rest => if truthy (strip v) then PyStr v else _first_nonempty rest
  | PyNaN :: rest => _first_nonempty rest
  | v :: _ => v
  end.

End App.

(** ** stats.py *)

Module Stats.
Import Py Re Pandas.

Definition _norm_key (s : str) : str :=
  let s := nfd (lower (strip s)) in
  let s := List.filter (fun ch => negb (combining ch)) s in
  sub_runs App.not_az09 [] s.

(** [col and col in df.columns] for an optional column name *)
Definition names_column (df : DataFrame) (col : option str) : bool :=
  match col with
  | Some c => truthy c && has_column df c
  | None => false
  end.

(** [_norm_key(row.get(col, '')) if col else ''] *)
Definition key_part (cols : list str) (col : option str) (row : list str)
    : str :=
  match col with
  | Some c => if truthy c then _norm_key (row_get cols row c []) else []
  | None => []
  end.

(** [kid or knm] *)
Definition uniq_key (cols : list str) (id_col name_col : option str)
    (row : list str) : str :=
  let kid := key_part cols id_col row in
  let knm := key_part cols name_col row in
  if truthy kid then kid else knm.

Definition UNIQ := txt "__UNIQ__".

Definition _dedup_df (df : DataFrame) (id_col name_col : option str)
    : DataFrame :=
  if names_column df id_col || names_column df name_col then
    let keys := map (uniq_key (columns df) id_col name_col) (rows df) in
    let dfx := set_column df UNIQ keys in
    drop_duplicates dfx UNIQ
  else df.

(** [int(df[col].map(pred).sum()) if col in df.columns else 0] *)
Definition count_done (df : DataFrame) (col : str) (pred : str -> bool)
    : nat :=
  match column df col with
  | Some vs => length (List.filter pred vs)
  | None => 0
  end.

Definition count_both (df : DataFrame) (c1 c2 : str) (pred : str -> bool)
    : nat :=
  match column df c1, column df c2 with
  | Some v1, Some v2 =>
    length (List.filter (fun p => pred (fst p) && pred (snd p)) (combine v1 v2))
  | _, _ => 0
  end.

(** The counts of the summary; its three percentages are the float
    quotients [_pct(count, total)] of these fields. *)
Record Summary := mkSummary {
  total : nat;
  concept_done : nat;
  rig_done : nat;
  both_done : nat
}.

Definition overall_stats (df : DataFrame) (col_status_conc col_status_rig : str)
    (is_concluido : str -> bool) (id_col name_col : option str) : Summary :=
  let dfx := _dedup_df df id_col name_col in
  mkSummary (len dfx)
            (count_done dfx col_status_conc is_concluido)
            (count_done dfx col_status_rig is_concluido)
            (count_both dfx col_status_conc col_status_rig is_concluido).

End Stats.

(** ** list_tab.py *)

Module ListTab.
Import Py Re Pandas.

Definition _norm (s : str) : str :=
  sub_runs App.not_az09 [] (unidecode (lower (strip s))).

(** [any(k in ns for k in keys)] *)
Definition any_in (keys : list str) (ns : str) : bool :=
  existsb (fun k => contains k ns) keys.

Definition _status_kind (s : str) : str :=
  let ns := _norm s in
  if contains (txt "concluido") ns then txt "done"
  else if any_in [txt "revisao"; txt "analise"; txt "pendentederevisao";
                  txt "pendentedeanalise"] ns then txt "review"
  else if any_in [txt "emproducao"; txt "emandamento"; txt "producao";
                  txt "progresso"] ns then txt "wip"
  else if any_in [txt "naoiniciado"; txt "naoiniciada"; txt "nao_iniciado"] ns
       then txt "todo"
  else txt "other".

(** [f"SVB_{m.group(1).upper()}"] *)
Definition svb_of_group (g : str) : str := txt "SVB_" ++ upper g.

Fixpoint _extract_svb_id (texts : list str) : str :=
  match texts with
  | [] => []
  | t :: rest =>
    if negb (truthy t) then _extract_svb_id rest
    else match svb_id_search t with
         | Some g => svb_of_group g
         | None => _extract_svb_id rest
         end
  end.

Definition _std_svb_id (s : str) : str :=
  match svb_id_search s with
  | Some g => svb_of_group g
  | None => s
  end.

(** [if str(s).strip()] *)
Definition nonblank (s : str) : bool := truthy (strip s).

(** [next((c for c in col if str(c).strip()), '')] *)
Definition first_nonblank (col : list str) : str :=
  match find nonblank col with
  | Some c => c
  | None => []
  end.

Definition not_ident_char (c : char) : bool :=
  negb (is_ascii_alnum c || N.eqb c 0x5F).

(** The identifier candidates of one group, in the order they are
    appended. *)
Definition candidate_ids (pid nome : str) (links syncs : list str)
    (comments : str) : list str :=
  (if nonblank pid then [pid] else [])
  ++ flat_map (fun text => let extracted := _extract_svb_id [text] in
                           if truthy extracted then [extracted] else [])
              (links ++ syncs ++ [comments])
  ++ (if truthy nome then
        let nome_clean := sub_each not_ident_char (txt "_") (strip (upper nome)) in
        let nome_clean :=
          strip_by (N.eqb 0x5F) (sub_runs (N.eqb 0x5F) (txt "_") nome_clean) in
        if truthy nome_clean
        then [txt "SVB_RIG_" ++ nome_clean; txt "SVB_PER_" ++ nome_clean;
              txt "SVB_" ++ nome_clean]
        else []
      else []).

Definition normalize_candidates (cands : list str) : list str :=
  fold_left
    (fun normalized_candidates cid =>
       let norm_id := _std_svb_id cid in
       if truthy norm_id && negb (str_in norm_id normalized_candidates)
       then normalized_candidates ++ [norm_id]
       else normalized_candidates)
    cands [].

(** The identifier that the aggregation loop of [render_list_tab] stores
    for the group [(pid, nome)], from the group's link, sync and comment
    columns. *)
Definition best_id (pid nome : str) (link_col sync_col comentarios_col : list str)
    : str :=
  let comments := first_nonblank comentarios_col in
  let links := List.filter nonblank link_col in
  let syncs := List.filter nonblank sync_col in
  match normalize_candidates (candidate_ids pid nome links syncs comments) with
  | first :: _ => first
  | [] => pid
  end.

Definition _parse_eps (val : str) : gset pyval :=
  let s := strip val in
  if negb (truthy s) then empty
  else if str_eqb (lower s) (txt "todos") then singleton (PyStr (txt "ALL"))
  else list_to_set
         (map (fun x => PyInt (int_of_digits x)) (findall_runs isdecimal s)).

(** [{e for e in eps if isinstance(e, int)}] *)
Definition int_of_pyval (v : pyval) : option Z :=
  match v with PyInt z => Some z | _ => None end.

Definition ints_of (eps : gset pyval) : gset Z :=
  list_to_set (omap int_of_pyval (elements eps)).

(** The episode options of the list tab; [None] is the exception raised
    by [.tolist()] on the default [[]] when the column is missing. *)
Definition all_eps (df : DataFrame) : option (list Z) :=
  raws ← column df App.COL_EP;
  let eps : gset Z :=
    fold_left (fun eps v => eps ∪ ints_of (_parse_eps v)) raws empty in
  Some (merge_sort Z.le (elements eps)).

(** The test of the episode filter on the episode cell of a task row:
    [('ALL' in _parse_eps(v)) or (len(_parse_eps(v) & sel_eps_set) > 0)]. *)
Definition episode_selected (sel_eps_set : gset pyval) (v : str) : bool :=
  bool_decide (PyStr (txt "ALL") ∈ _parse_eps v)
  || bool_decide (0 < size (_parse_eps v ∩ sel_eps_set))%nat.

(** The loop shared by [_split_names] and [_dedupe_preserve]: keep an item
    when its key is not empty and was not seen. *)
Fixpoint unique_by_norm (seen : list str) (seq : list str) : list str :=
  match seq with
  | [] => []
  | item :: rest =>
    let key := _norm item in
    if truthy key && negb (str_in key seen)
    then item :: unique_by_norm (key :: seen) rest
    else unique_by_norm seen rest
  end.

(** The second definition of the module, the one in force. *)
Definition _split_names (resp_str : str) : list str :=
  let parts :=
    map strip (List.filter (fun p => truthy (strip p)) (split_sep resp_str)) in
  unique_by_norm [] parts.

Definition _dedupe_preserve (seq : list str) : list str :=
  unique_by_norm [] seq.

Record Task := mkTask {
  episodio : str;
  ep_first : Z;
  etapa : str;
  nome : str;
  fid : str;
  responsavel : str;
  status : str;
  kind : str;
  status_c : str;
  status_r : str;
  resp_c : str;
  resp_r : str;
  link : str;
  sync : str;
  comentarios : str
}.

Definition pick (df : DataFrame) (cands : list str) : option str :=
  find (has_column df) cands.

(** [r.get(col, '') if col else ''] *)
Definition cell (cols : list str) (r : list str) (col : option str) : str :=
  match col with
  | Some c => row_get cols r c []
  | None => []
  end.

(** [min({e for e in _parse_eps(ep_raw) if isinstance(e, int)}) if
    _parse_eps(ep_raw) else 9999]; [None] is the [ValueError] of [min]. *)
Definition first_episode (ep_raw : str) : option Z :=
  if decide (_parse_eps ep_raw = empty) then Some 9999%Z
  else py_min (elements (ints_of (_parse_eps ep_raw))).

Definition open_kind (k : str) : bool :=
  str_in k [txt "wip"; txt "review"; txt "todo"].

Section OpenTasks.
Variable df : DataFrame.

Definition ep_col := pick df [App.COL_EP; txt "EPS"; txt "Episódio"; txt "Episodio"].
Definition name_col_primary :=
  pick df [App.COL_NAME; txt "NOME"; txt "Nome"; txt "personagem";
           txt "PERSONAGEM"; txt "Nome do personagem"].
Definition name_col_alt := pick df [txt "PERSONAGEM"; txt "Personagem"].
Definition id_col := pick df [App.COL_FILE_ID; txt "ID"; txt "Id"; txt "ID do Arquivo"].
Definition rig_link_col := pick df [App.COL_RIG_LINK; txt "LINK RIG"; txt "Link Rig"].
Definition sync_col :=
  pick df [App.COL_SYNCSKETCH; txt "SYNC SKETCH"; txt "SyncSketch"; txt "Sync Sketch"].
Definition concept_link_col :=
  pick df [App.COL_CONCEPT_LINK; txt "LINKS CONCEPT"; txt "Link Concept";
           txt "LINK CONCEPT"].
Definition status_concept_col :=
  pick df [App.COL_STATUS_CONCEPT; txt "STATUS CONCEPT"; txt "Status Concept"].
Definition status_rig_col :=
  pick df [App.COL_STATUS_RIG; txt "STATUS RIG"; txt "Status Rig"].
Definition resp_rig_col :=
  pick df [App.COL_RESP_RIG; txt "RESPONSÁVEL"; txt "Responsável";
           txt "Responsável RIG"; txt "RESPONSAVEL"].
Definition resp_concept_draw_col :=
  pick df [App.COL_RESP_CONCEPT; txt "RESPONSÁVEL CONCEPT";
           txt "Responsável Concept"; txt "Responsável (Desenho)"].
Definition resp_concept_vect_col :=
  pick df [txt "RESPONSÁVEL VETORIZAÇÃO"; txt "Responsável Vetorização";
           txt "Responsável (Vetorização)"].
Definition comments_col :=
  pick df [App.COL_COMMENTS; txt "COMENTÁRIOS"; txt "Comentários"; txt "Comentarios"].

(** [nm_raw_primary or nm_raw_alt or ''] *)
Definition row_name (r : list str) : str :=
  let get := cell (columns df) r in
  if truthy (get name_col_primary) then get name_col_primary
  else get name_col_alt.

Definition concept_task (r : list str) : option (list Task) :=
  let get := cell (columns df) r in
  let status_concept_raw := get status_concept_col in
  let sk_c := _status_kind status_concept_raw in
  if open_kind sk_c then
    let resp_c_parts :=
      match resp_concept_draw_col with
      | Some _ => [get resp_concept_draw_col]
      | None => []
      end
      ++ match resp_concept_vect_col with
         | Some _ => [get resp_concept_vect_col]
         | None => []
         end in
    let resp_c_merged :=
      join (txt " / ") (List.filter (fun p => truthy (strip p)) resp_c_parts) in
    e ← first_episode (get ep_col);
    Some [ {| episodio := get ep_col;
              ep_first := e;
              etapa := txt "Concept";
              nome := row_name r;
              fid := get id_col;
              responsavel := resp_c_merged;
              status := status_concept_raw;
              kind := sk_c;
              status_c := status_concept_raw;
              status_r := get status_rig_col;
              resp_c := resp_c_merged;
              resp_r := get resp_rig_col;
              link := get concept_link_col;
              sync := get sync_col;
              comentarios := get comments_col |} ]
  else Some [].

Definition rig_task (r : list str) : option (list Task) :=
  let get := cell (columns df) r in
  let sk_r := _status_kind (get status_rig_col) in
  if open_kind sk_r then
    e ← first_episode (get ep_col);
    Some [ {| episodio := get ep_col;
              ep_first := e;
              etapa := txt "Rig";
              nome := row_name r;
              fid := get id_col;
              responsavel := get resp_rig_col;
              status := get status_rig_col;
              kind := sk_r;
              status_c := get status_concept_col;
              status_r := get status_rig_col;
              resp_c := get resp_concept_draw_col
                        ++ match resp_concept_vect_col with
                           | Some _ => txt " / " ++ get resp_concept_vect_col
                           | None => []
                           end;
              resp_r := get resp_rig_col;
              link := get rig_link_col;
              sync := get sync_col;
              comentarios := get comments_col |} ]
  else Some [].

Definition row_tasks (r : list str) : option (list Task) :=
  c ← concept_task r;
  g ← rig_task r;
  Some (c ++ g).

Fixpoint all_tasks (rs : list (list str)) : option (list Task) :=
  match rs with
  | [] => Some []
  | r :: rest =>
    ts ← row_tasks r;
    more ← all_tasks rest;
    Some (ts ++ more)
  end.

End OpenTasks.

(** The order of [sort_values(['ep_first', 'etapa', 'nome'])]. *)
Definition task_leb (a b : Task) : bool :=
  if Z.ltb (ep_first a) (ep_first b) then true
  else if Z.ltb (ep_first b) (ep_first a) then false
  else if negb (str_leb (etapa b) (etapa a)) then true
  else if negb (str_leb (etapa a) (etapa b)) then false
  else str_leb (nome a) (nome b).

Definition task_le (a b : Task) : Prop := Is_true (task_leb a b).

(** [None] is the [ValueError] raised while the records are built. *)
Definition build_open_tasks (df : DataFrame) : option (list Task) :=
  recs ← all_tasks df (rows df);
  Some (merge_sort task_le recs).

(** The episode filter of [render_list_tab]: [if sel_eps: fil = fil[...]],
    where [sel_eps] is the list of the selected episodes and
    [sel_eps_set = set(sel_eps)]; with no episode selected the rows are
    left as they are. *)
Definition filter_episodes (sel_eps : list Z) (fil : list Task) : list Task :=
  if truthy_list sel_eps
  then List.filter
         (fun t => episode_selected (list_to_set (map PyInt sel_eps))
                                    (episodio t)) fil
  else fil.

End ListTab.

(** ** Specifications stated in the words of the design notes *)

Module Spec.
Import Py.

(** The maximal runs of decimal digits of a text, in order of appearance:
    a run is non-empty, made of digits only, starts at the beginning of
    the text or after a non-digit, and ends at the end of the text or
    before a non-digit. *)
Inductive digit_runs : str -> list str -> Prop :=
  | runs_end : digit_runs [] []
  | runs_skip c s rs :
      isdecimal c = false -> digit_runs s rs -> digit_runs (c :: s) rs
  | runs_run r s rs :
      r <> [] -> forallb isdecimal r = true ->
      head (map isdecimal s) <> Some true ->
      digit_runs s rs -> digit_runs (r ++ s) (r :: rs).

(** The safe key of one character: lower-cased, decomposed, marks
    removed, kept when in [a-z0-9]. *)
Definition key_char (c : char) : str :=
  List.filter App.az09
    (List.filter (fun ch => negb (combining ch)) (nfd_char (lower_char c))).

(** The directory entries that the index takes: an image suffix, the
    project prefix and a key that is not empty. *)
Definition indexable (f : str * str * str) : bool :=
  let '(stem, suffix, _) := f in
  str_in (lower suffix) App.image_suffixes
  && startswith (txt "SVB_") (upper stem)
  && truthy (App.norm_key stem).

Definition file_key (f : str * str * str) : str :=
  let '(stem, _, _) := f in App.norm_key stem.

Definition file_path (f : str * str * str) : str :=
  let '(_, _, path) := f in path.

(** The characters of a normalised identifier: the digits and capitals of
    ASCII, and the two capitals beyond ASCII that the identifier pattern
    takes, U+0130 and U+212A. *)
Definition up_alnum (c : char) : bool :=
  isdecimal c || is_ascii_upper c || N.eqb c 0x130 || N.eqb c 0x212A.

(** The records holding the wildcard among their parsed episodes *)
Definition has_wildcard (l : list pyval) : bool :=
  existsb (fun x => match x with
                    | PyStr s => str_eqb (lower s) (txt "todos")
                    | _ => false
                    end) l.

(** A cell without content: a blank string or a missing value. *)
Definition blank_cell (v : pyval) : bool :=
  match v with
  | PyStr s => negb (truthy (strip s))
  | PyNaN => true
  | PyInt _ => false
  end.

(** The wildcard of the list tab for the wildcard of the application. *)
Definition as_list_tab (v : pyval) : pyval :=
  match v with
  | PyStr _ => PyStr (txt "ALL")
  | v => v
  end.

(** The one-character separators of an owner cell. *)
Definition separator (c : char) : bool := existsb (N.eqb c) (txt ",;/|&+").

(** The stage kinds and the episode cell of a row of the list tab. *)
Definition kind_c (df : Pandas.DataFrame) (r : list str) : str :=
  ListTab._status_kind
    (ListTab.cell (Pandas.columns df) r (ListTab.status_concept_col df)).

Definition kind_r (df : Pandas.DataFrame) (r : list str) : str :=
  ListTab._status_kind
    (ListTab.cell (Pandas.columns df) r (ListTab.status_rig_col df)).

Definition ep_raw (df : Pandas.DataFrame) (r : list str) : str :=
  ListTab.cell (Pandas.columns df) r (ListTab.ep_col df).


(** The code points up to U+00FF, the range of the transliteration table. *)
Definition latin1 (c : char) : bool := N.leb c 0xFF.

(** The name of a group as the synthesized identifiers take it. *)
Definition cleaned_name (nome : str) : str :=
  strip_by (N.eqb 0x5F)
    (Re.sub_runs (N.eqb 0x5F) (txt "_")
       (Re.sub_each ListTab.not_ident_char (txt "_") (strip (upper nome)))).

(** The texts that identifier tokens are extracted from, in their order:
    the non-blank links, the non-blank sync fields, the first non-blank
    comment. *)
Definition token_texts (link_col sync_col comentarios_col : list str)
    : list str :=
  List.filter ListTab.nonblank link_col
  ++ List.filter ListTab.nonblank sync_col
  ++ [ListTab.first_nonblank comentarios_col].

(** The normalised token of a text, when it holds one. *)
Definition token_of (t : str) : option str :=
  let extracted := ListTab._extract_svb_id [t] in
  if truthy extracted then Some extracted else None.

(** The tests of the name steps of the resolver, on a variant or a word
    of the name and an entry of the index. *)
Definition exact_hit (variant : str) (kv : str * str) : bool :=
  str_eqb variant (App.file_name_parts (fst kv)).

Definition partial_hit (variant : str) (kv : str * str) : bool :=
  (contains variant (App.file_name_parts (fst kv))
   && Nat.leb 4 (length variant))
  || (contains (App.file_name_parts (fst kv)) variant
      && Nat.leb 4 (length (App.file_name_parts (fst kv)))).

Definition word_hit (part : str) (kv : str * str) : bool :=
  Nat.leb 4 (length part) && contains part (fst kv).

(** A step of the name cascade: the path of the first entry of the index
    that passes the test with the first item that has one. *)
Definition scan (test : str -> str * str -> bool) (items : list str)
    (img_idx : dict str) : option str :=
  find_map (fun x =>
    find_map (fun kv : str * str =>
      if test x kv then Some (snd kv) else None) img_idx) items.

(** Some item and some entry of the index pass the test. *)
Definition hits (test : str -> str * str -> bool) (items : list str)
    (img_idx : dict str) : Prop :=
  exists x kv, In x items /\ In kv img_idx /\ test x kv = true.

(** A task row that carries only an episode cell and a name. *)
Definition sample_task (ep nome : str) : ListTab.Task :=
  ListTab.mkTask ep 0 (txt "Rig") nome [] [] (txt "Em produção") (txt "wip")
                 [] (txt "Em produção") [] [] [] [] [].

End Spec.

(** * Properties *)

Import Py Re Pandas.

(** ** Strings *)

Lemma str_eqb_eq (a b : str) : str_eqb a b = true <-> a = b.
Proof.
  revert b; induction a as [|x a IH]; intros [|y b]; simpl; split;
    try congruence; try discriminate.
  - intros H. apply andb_true_iff in H as [Hx Hab].
    apply N.eqb_eq in Hx. apply IH in Hab. congruence.
  - intros H. injection H as -> ->.
    rewrite N.eqb_refl. simpl. now apply IH.
Qed.

Lemma str_eqb_refl (a : str) : str_eqb a a = true.
Proof. now apply str_eqb_eq. Qed.

Lemma str_eqb_neq (a b : str) : str_eqb a b = false <-> a <> b.
Proof.
  split.
  - intros H E. apply str_eqb_eq in E. congruence.
  - intros H. destruct (str_eqb a b) eqn:E; [|reflexivity].
    apply str_eqb_eq in E. contradiction.
Qed.

Lemma truthy_nonempty (s : str) : truthy s = true <-> s <> [].
Proof. destruct s; simpl; split; congruence. Qed.

Lemma truthy_false (s : str) : truthy s = false <-> s = [].
Proof. destruct s; simpl; split; congruence. Qed.

Lemma strip_nil : strip [] = [].
Proof. reflexivity. Qed.

(** ** Completion flag (C3) *)

Lemma is_concluido_iff (s : str) :
  App.is_concluido s = true <-> App._normalize_text s = txt "concluido".
Proof. unfold App.is_concluido. apply str_eqb_eq. Qed.

(** C3, as the code has it: [is_concluido s] holds exactly when the
    normalised text of [s] (stripped, lower-cased, accents removed, but
    punctuation and inner spacing kept) is literally "concluido"; every
    such status has the safe key of "Concluído". *)
Theorem c3_is_concluido_normalized_text (s : str) :
  (App.is_concluido s = true <-> App._normalize_text s = txt "concluido")
  /\ (App.is_concluido s = true ->
      App.norm_key s = App.norm_key (txt "Concluído")).
Proof.
  split; [apply is_concluido_iff|].
  intros H. apply is_concluido_iff in H.
  unfold App.norm_key at 1. rewrite H. reflexivity.
Qed.

Lemma c3_is_concluido_witness :
  App.is_concluido (txt " CONCLUÍDO ") = true
  /\ App.norm_key (txt " CONCLUÍDO ") = App.norm_key (txt "Concluído").
Proof.
  split; [reflexivity|].
  apply (proj2 (c3_is_concluido_normalized_text (txt " CONCLUÍDO "))).
  reflexivity.
Defined.

(** C3 fails as stated: "Concluído." and "Con cluído" have the safe key
    of "Concluído" and are not counted as done. *)
Lemma c3_safe_key_equal_not_done :
  App.norm_key (txt "Concluído.") = App.norm_key (txt "Concluído")
  /\ App.is_concluido (txt "Concluído.") = false
  /\ App.norm_key (txt "Con cluído") = App.norm_key (txt "Concluído")
  /\ App.is_concluido (txt "Con cluído") = false.
Proof. repeat split; reflexivity. Qed.

(** ** Episode field (C6) *)

Lemma findall_runs_from_spec (s cur : str) :
  forallb isdecimal cur = true ->
  Spec.digit_runs (cur ++ s) (findall_runs_from isdecimal cur s).
Proof.
  revert cur; induction s as [|c r IH]; intros cur Hcur; simpl.
  - rewrite app_nil_r. destruct cur as [|d cur']; simpl.
    + constructor.
    + assert (H : Spec.digit_runs ((d :: cur') ++ []) [d :: cur']).
      { apply Spec.runs_run;
          [discriminate | exact Hcur | discriminate | constructor]. }
      rewrite app_nil_r in H. exact H.
  - destruct (isdecimal c) eqn:Hc.
    + replace (cur ++ c :: r) with ((cur ++ [c]) ++ r)
        by (rewrite <- app_assoc; reflexivity).
      apply IH. rewrite forallb_app, Hcur. simpl. now rewrite Hc.
    + assert (Hr : Spec.digit_runs (c :: r) (findall_runs_from isdecimal [] r)).
      { apply Spec.runs_skip; [exact Hc|]. apply (IH []). reflexivity. }
      destruct cur as [|d cur']; simpl; [exact Hr|].
      apply (Spec.runs_run (d :: cur')); [discriminate | exact Hcur | | exact Hr].
      simpl. rewrite Hc. discriminate.
Qed.

Lemma findall_runs_spec (s : str) :
  Spec.digit_runs s (findall_runs isdecimal s).
Proof. apply (findall_runs_from_spec s []). reflexivity. Qed.

(** The runs of a text are determined by the text. *)
Lemma digit_runs_nil_inv (rs : list str) : Spec.digit_runs [] rs -> rs = [].
Proof.
  intros H. remember [] as t eqn:Et.
  destruct H as [|c s rs Hc H|r s rs Hne Hall Hmax H]; [reflexivity|discriminate|].
  destruct r; [contradiction|discriminate].
Qed.

Lemma digit_runs_cons_inv (c : char) (t : str) (rs : list str) :
  Spec.digit_runs (c :: t) rs ->
  (isdecimal c = false /\ Spec.digit_runs t rs)
  \/ (isdecimal c = true /\ exists r s rs',
        c :: t = (c :: r) ++ s /\ rs = (c :: r) :: rs'
        /\ forallb isdecimal r = true
        /\ head (map isdecimal s) <> Some true /\ Spec.digit_runs s rs').
Proof.
  intros H. remember (c :: t) as u eqn:Eu.
  destruct H as [|c0 s rs Hc H|r s rs Hne Hall Hmax H]; [discriminate| |].
  - injection Eu as -> ->. left. split; assumption.
  - destruct r as [|d r]; [contradiction|].
    simpl in Eu. injection Eu as -> Eu.
    simpl in Hall. apply andb_true_iff in Hall as [Hd Hall].
    right. split; [exact Hd|]. exists r, s, rs. subst t. auto.
Qed.

Lemma run_split_unique (r1 s1 r2 s2 : str) :
  r1 ++ s1 = r2 ++ s2 ->
  forallb isdecimal r1 = true -> forallb isdecimal r2 = true ->
  head (map isdecimal s1) <> Some true -> head (map isdecimal s2) <> Some true ->
  r1 = r2 /\ s1 = s2.
Proof.
  revert r2; induction r1 as [|x r1 IH]; intros [|y r2] Heq H1 H2 M1 M2;
    simpl in *.
  - auto.
  - subst s1. simpl in M1. apply andb_true_iff in H2 as [Hy _].
    rewrite Hy in M1. contradiction.
  - subst s2. simpl in M2. apply andb_true_iff in H1 as [Hx _].
    rewrite Hx in M2. contradiction.
  - injection Heq as -> Heq.
    apply andb_true_iff in H1 as [_ H1]. apply andb_true_iff in H2 as [_ H2].
    destruct (IH r2 Heq H1 H2 M1 M2) as [-> ->]. auto.
Qed.

Lemma digit_runs_functional (s : str) (rs1 rs2 : list str) :
  Spec.digit_runs s rs1 -> Spec.digit_runs s rs2 -> rs1 = rs2.
Proof.
  intros H1; revert rs2;
    induction H1 as [|c s rs Hc H1 IH|r s rs Hne Hall Hmax H1 IH]; intros rs2 H2.
  - symmetry. now apply digit_runs_nil_inv.
  - apply digit_runs_cons_inv in H2 as [[_ H2]|[Hd _]]; [now apply IH|congruence].
  - destruct r as [|d r]; [contradiction|].
    simpl in H2. apply digit_runs_cons_inv in H2 as [[Hd _]|[_ H2]].
    + simpl in Hall. apply andb_true_iff in Hall as [Hd' _]. congruence.
    + destruct H2 as (r' & s' & rs' & Heq & -> & Hall' & Hmax' & H2).
      simpl in Heq. injection Heq as Heq.
      simpl in Hall. apply andb_true_iff in Hall as [_ Hall].
      destruct (run_split_unique r s r' s' Heq Hall Hall' Hmax Hmax') as [-> ->].
      f_equal. now apply IH.
Qed.

(** C6: [parse_episode_field] gives the empty list on empty or blank text,
    the wildcard alone when the stripped text is "todos" in any casing, and
    otherwise the integers of the maximal digit runs of the stripped text,
    in order and with repetitions; "101, 102 e 113" gives 101, 102, 113. *)
Theorem c6_parse_episode_field (s : str) :
  (strip s = [] -> App.parse_episode_field s = [])
  /\ (lower (strip s) = txt "todos" ->
      App.parse_episode_field s = [PyStr (txt "Todos")])
  /\ (strip s <> [] -> lower (strip s) <> txt "todos" ->
      exists runs, Spec.digit_runs (strip s) runs
        /\ (forall runs', Spec.digit_runs (strip s) runs' -> runs' = runs)
        /\ App.parse_episode_field s
           = map (fun n => PyInt (int_of_digits n)) runs)
  /\ App.parse_episode_field (txt "101, 102 e 113")
     = [PyInt 101; PyInt 102; PyInt 113]
  /\ App.parse_episode_field (txt "7, 7") = [PyInt 7; PyInt 7].
Proof.
  unfold App.parse_episode_field.
  repeat split.
  - intros H. destruct s as [|c s]; [reflexivity|]. simpl truthy. simpl negb.
    rewrite H. reflexivity.
  - intros H. destruct s as [|c s]; [discriminate|]. simpl truthy. simpl negb.
    destruct (strip (c :: s)) eqn:E; [discriminate|]. simpl truthy. simpl negb.
    rewrite H. reflexivity.
  - intros Hne Hall. exists (findall_runs isdecimal (strip s)).
    split; [apply findall_runs_spec|]. split.
    + intros runs' H'. eapply digit_runs_functional; [exact H'|apply findall_runs_spec].
    + destruct s as [|c s]; [contradiction|]. simpl truthy. simpl negb.
      destruct (strip (c :: s)) eqn:E; [contradiction|]. simpl truthy. simpl negb.
      apply str_eqb_neq in Hall. rewrite Hall. reflexivity.
Qed.

Lemma c6_parse_episode_field_witness :
  App.parse_episode_field (txt "  ") = []
  /\ App.parse_episode_field (txt " TODOS ") = [PyStr (txt "Todos")]
  /\ exists runs, Spec.digit_runs (strip (txt "ep 12 e 3")) runs
       /\ App.parse_episode_field (txt "ep 12 e 3")
          = map (fun n => PyInt (int_of_digits n)) runs.
Proof.
  pose proof (c6_parse_episode_field (txt "  ")) as (H1 & _).
  pose proof (c6_parse_episode_field (txt " TODOS ")) as (_ & H2 & _).
  pose proof (c6_parse_episode_field (txt "ep 12 e 3")) as (_ & _ & H3 & _).
  split; [apply H1; reflexivity|].
  split; [apply H2; reflexivity|].
  destruct H3 as (runs & Hr & _ & Hp); [discriminate | discriminate |].
  exists runs. split; assumption.
Defined.

(** ** Status classifier (C8) *)

(** C8: [_status_kind] always answers with one of the five kinds and
    tests the keyword sets in the order done, review, wip, todo, the first
    hit deciding; without any hit the kind is other.  "Concluído" is done,
    "Em Andamento" is wip (in progress), "Pausado" is other. *)
Theorem c8_status_kind_taxonomy (s : str) :
  let ns := ListTab._norm s in
  let review_keys := [txt "revisao"; txt "analise"; txt "pendentederevisao";
                      txt "pendentedeanalise"] in
  let wip_keys := [txt "emproducao"; txt "emandamento"; txt "producao";
                   txt "progresso"] in
  let todo_keys := [txt "naoiniciado"; txt "naoiniciada"; txt "nao_iniciado"] in
  In (ListTab._status_kind s)
     [txt "done"; txt "review"; txt "wip"; txt "todo"; txt "other"]
  /\ (contains (txt "concluido") ns = true ->
      ListTab._status_kind s = txt "done")
  /\ (contains (txt "concluido") ns = false ->
      ListTab.any_in review_keys ns = true ->
      ListTab._status_kind s = txt "review")
  /\ (contains (txt "concluido") ns = false ->
      ListTab.any_in review_keys ns = false ->
      ListTab.any_in wip_keys ns = true ->
      ListTab._status_kind s = txt "wip")
  /\ (contains (txt "concluido") ns = false ->
      ListTab.any_in review_keys ns = false ->
      ListTab.any_in wip_keys ns = false ->
      ListTab.any_in todo_keys ns = true ->
      ListTab._status_kind s = txt "todo")
  /\ (contains (txt "concluido") ns = false ->
      ListTab.any_in review_keys ns = false ->
      ListTab.any_in wip_keys ns = false ->
      ListTab.any_in todo_keys ns = false ->
      ListTab._status_kind s = txt "other")
  /\ ListTab._status_kind (txt "Concluído") = txt "done"
  /\ ListTab._status_kind (txt "Em Andamento") = txt "wip"
  /\ ListTab._status_kind (txt "Pausado") = txt "other".
Proof.
  intros ns review_keys wip_keys todo_keys.
  unfold ListTab._status_kind. fold ns. fold review_keys wip_keys todo_keys.
  split.
  { destruct (contains (txt "concluido") ns); [left; reflexivity|].
    destruct (ListTab.any_in review_keys ns); [right; left; reflexivity|].
    destruct (ListTab.any_in wip_keys ns); [do 2 right; left; reflexivity|].
    destruct (ListTab.any_in todo_keys ns); [do 3 right; left; reflexivity|].
    do 4 right; left; reflexivity. }
  split; [intros ->; reflexivity|].
  split; [intros -> ->; reflexivity|].
  split; [intros -> -> ->; reflexivity|].
  split; [intros -> -> -> ->; reflexivity|].
  split; [intros -> -> -> ->; reflexivity|].
  repeat split; reflexivity.
Qed.

Lemma c8_status_kind_witness :
  ListTab._status_kind (txt "  concluída? não: CONCLUÍDO ") = txt "done"
  /\ ListTab._status_kind (txt "Pendente de Revisão") = txt "review"
  /\ ListTab._status_kind (txt "Em produção") = txt "wip"
  /\ ListTab._status_kind (txt "Não iniciado") = txt "todo"
  /\ ListTab._status_kind (txt "Aguardando") = txt "other".
Proof.
  split.
  { apply (proj1 (proj2 (c8_status_kind_taxonomy
                           (txt "  concluída? não: CONCLUÍDO ")))).
    reflexivity. }
  split.
  { apply (proj1 (proj2 (proj2 (c8_status_kind_taxonomy
                                  (txt "Pendente de Revisão")))));
      reflexivity. }
  split.
  { apply (proj1 (proj2 (proj2 (proj2 (c8_status_kind_taxonomy
                                         (txt "Em produção"))))));
      reflexivity. }
  split.
  { apply (proj1 (proj2 (proj2 (proj2 (proj2 (c8_status_kind_taxonomy
                                                (txt "Não iniciado")))))));
      reflexivity. }
  apply (proj1 (proj2 (proj2 (proj2 (proj2 (proj2 (c8_status_kind_taxonomy
                                                     (txt "Aguardando"))))))));
    reflexivity.
Defined.

(** ** Header reconciliation (C1) *)

Lemma ren_of_lookup (cols : list str) (acc : gmap str str) (c : str) :
  App.ren_of cols acc !! c
  = if decide (c ∈ cols)
    then match App.rename_entry c with
         | Some t => Some t
         | None => acc !! c
         end
    else acc !! c.
Proof.
  revert acc; induction cols as [|x xs IH]; intros acc.
  - destruct (decide (c ∈ [])) as [H|H]; [|reflexivity].
    now apply elem_of_nil in H.
  - change (App.ren_of (x :: xs) acc)
      with (App.ren_of xs (match App.rename_entry x with
                           | Some target => <[x:=target]> acc
                           | None => acc
                           end)).
    rewrite IH.
    destruct (decide (c = x)) as [->|Hne].
    + destruct (decide (x ∈ x :: xs)) as [_|H];
        [|exfalso; apply H, list_elem_of_here].
      destruct (App.rename_entry x) as [t|] eqn:Ex.
      * destruct (decide (x ∈ xs)); [reflexivity|]. apply lookup_insert_eq.
      * destruct (decide (x ∈ xs)); reflexivity.
    + assert (Hacc : (match App.rename_entry x with
                      | Some target => <[x:=target]> acc
                      | None => acc
                      end) !! c = acc !! c).
      { destruct (App.rename_entry x); [|reflexivity].
        apply lookup_insert_ne. congruence. }
      rewrite Hacc.
      destruct (decide (c ∈ xs)) as [Hin|Hnin];
        destruct (decide (c ∈ x :: xs)) as [Hin'|Hnin']; try reflexivity.
      * exfalso. apply Hnin'. now apply list_elem_of_further.
      * exfalso. apply elem_of_cons in Hin' as [?|?]; contradiction.
Qed.

(** The renamed frame carries, column by column, the target written for
    the column or the column's own label. *)
Lemma rename_headers_columns (df : DataFrame) :
  columns (App._rename_headers_for_schema df)
  = map (fun c => default c (App.rename_entry c)) (columns df).
Proof.
  unfold App._rename_headers_for_schema.
  assert (Hl : forall c, In c (columns df) ->
             App.ren_of (columns df) ∅ !! c = App.rename_entry c).
  { intros c Hc. rewrite ren_of_lookup.
    destruct (decide (c ∈ columns df)) as [_|H];
      [|exfalso; apply H, list_elem_of_In; exact Hc].
    rewrite lookup_empty. destruct (App.rename_entry c); reflexivity. }
  case_bool_decide as He.
  - rewrite <- (map_id (columns df)) at 1. apply map_ext_in.
    intros c Hc. rewrite <- (Hl c Hc), He, lookup_empty. reflexivity.
  - simpl. apply map_ext_in. intros c Hc. now rewrite Hl.
Qed.

(** C1, evaluated on the canonical header row: the reconciled frame does
    not keep its labels.  "Responsável" (the Concept owner) is rewritten
    to "Respondável" (the Rig owner), which the frame then carries twice;
    every other canonical label is kept. *)
Theorem c1_canonical_responsavel_renamed (rs : list (list str)) :
  columns (App._rename_headers_for_schema (mkDF App.canonical_headers rs))
  = [txt "Episódio"; txt "Nome do perosnagem"; txt "ID do Arquivo";
     txt "Link para baixar o modelo Rigado"; txt "Link do SyncSketch";
     txt "Link para baixar o modelo Ceoncept vetorizado"; txt "URGÊNCIA";
     txt "Status do Concept"; txt "Respondável"; txt "URGÊNCIA.1";
     txt "Status do Rig"; txt "Respondável"; txt "COMENTÁRIOS";
     txt "Entrega Concept"; txt "Entrega Rig"]
  /\ nth 8 App.canonical_headers [] = txt "Responsável"
  /\ App.rename_entry (txt "Responsável") = Some (txt "Respondável")
  /\ columns (App._rename_headers_for_schema (mkDF [txt "Responsável"] rs))
     = [txt "Respondável"]
  /\ Forall (fun c => c = txt "Responsável"
                      \/ default c (App.rename_entry c) = c)
            App.canonical_headers.
Proof.
  rewrite !rename_headers_columns. simpl columns.
  split; [vm_compute; reflexivity|].
  split; [reflexivity|].
  split; [vm_compute; reflexivity|].
  split; [vm_compute; reflexivity|].
  unfold App.canonical_headers.
  repeat (apply Forall_cons; split;
          [first [right; vm_compute; reflexivity | left; reflexivity]|]).
  apply Forall_nil. trivial.
Qed.

(** ** Image resolver: the prefix stripping (C4) *)

Lemma sub_runs_from_az09 (b : bool) (s : str) :
  forallb App.az09 (sub_runs_from App.not_az09 [] b s) = true.
Proof.
  revert b; induction s as [|c r IH]; intros b; simpl; [reflexivity|].
  destruct (App.not_az09 c) eqn:E.
  - destruct b; simpl; apply IH.
  - simpl. unfold App.az09 at 1. rewrite E. simpl. apply IH.
Qed.

Lemma norm_key_az09 (s : str) : forallb App.az09 (App.norm_key s) = true.
Proof. apply sub_runs_from_az09. Qed.

Lemma startswith_In (old t : str) (x : char) :
  In x old -> startswith old t = true -> In x t.
Proof.
  revert t; induction old as [|a old IH]; intros t Hx Hs; [contradiction|].
  destruct t as [|b t]; [discriminate|]. simpl in Hs.
  apply andb_true_iff in Hs as [Hab Hs]. apply N.eqb_eq in Hab. subst b.
  destruct Hx as [->|Hx]; [left; reflexivity|right; now apply IH].
Qed.

Lemma replace_absent (old new s : str) (x : char) :
  In x old -> ~ In x s -> replace old new s = s.
Proof.
  intros Hx. unfold replace. induction s as [|c r IH]; intros Hs; [reflexivity|].
  simpl. destruct (startswith old (c :: r)) eqn:E.
  - exfalso. apply Hs. eapply startswith_In; eassumption.
  - f_equal. apply IH. intros H. apply Hs. now right.
Qed.

Lemma az09_no_underscore (s : str) :
  forallb App.az09 s = true -> ~ In 0x5F%N s.
Proof.
  induction s as [|c r IH]; simpl; intros H; [tauto|].
  apply andb_true_iff in H as [Hc Hr]. intros [->|Hin]; [discriminate|].
  now apply IH.
Qed.

(** On a normalised key the three [replace] calls remove nothing: the key
    has no underscore, and each pattern has one. *)
Lemma file_name_parts_norm_key (s : str) :
  App.file_name_parts (App.norm_key s) = App.norm_key s.
Proof.
  pose proof (az09_no_underscore _ (norm_key_az09 s)) as H.
  unfold App.file_name_parts.
  rewrite (replace_absent (txt "svb_rig_") [] _ 0x5F%N); [|vm_compute; tauto|exact H].
  rewrite (replace_absent (txt "svb_per_") [] _ 0x5F%N); [|vm_compute; tauto|exact H].
  apply (replace_absent (txt "svb_") [] _ 0x5F%N); [vm_compute; tauto|exact H].
Qed.

(** Every key of an index built by [index_images] is a normalised key. *)
Lemma index_file_keys (idx : dict str) (f : str * str * str) :
  (forall k p, In (k, p) idx -> exists stem, k = App.norm_key stem) ->
  forall k p, In (k, p) (App.index_file idx f) ->
              exists stem, k = App.norm_key stem.
Proof.
  intros Hidx k p. destruct f as [[stem suffix] path]. unfold App.index_file.
  destruct (negb (str_in (lower suffix) App.image_suffixes)); [apply Hidx|].
  destruct (negb (startswith (txt "SVB_") (upper stem))); [apply Hidx|].
  cbv zeta.
  destruct (truthy (App.norm_key stem)
            && negb (dict_mem idx (App.norm_key stem))); [|apply Hidx].
  intros Hin. apply in_app_or in Hin as [Hin|Hin]; [eapply Hidx; exact Hin|].
  destruct Hin as [Hin|[]]. injection Hin as <- _. eauto.
Qed.

Lemma index_images_keys (files : list (str * str * str)) (k p : str) :
  In (k, p) (App.index_images files) -> exists stem, k = App.norm_key stem.
Proof.
  unfold App.index_images.
  assert (H : forall idx : dict str,
             (forall k p, In (k, p) idx -> exists stem, k = App.norm_key stem) ->
             forall k p, In (k, p) (fold_left App.index_file files idx) ->
                         exists stem, k = App.norm_key stem).
  { induction files as [|f files IH]; intros idx Hidx k0 p0;
      [apply Hidx|].
    apply (IH (App.index_file idx f)). now apply index_file_keys. }
  apply H. intros k0 p0 [].
Qed.

(** C4, evaluated: with an empty identifier and the index entry for the
    file SVB_RIG_ANA, the name "Ana" resolves to no image; the exact-match
    step compares the name with the whole key, since stripping leaves every
    normalised key, hence every key of an index, as it is, and misses
    "Muriel" against SVB_RIG_MURIEL too. *)
Theorem c4_prefixed_key_not_found :
  (forall s, App.file_name_parts (App.norm_key s) = App.norm_key s)
  /\ (forall files k p,
        In (k, p) (App.index_images files) -> App.file_name_parts k = k)
  /\ App.index_images
       [(txt "SVB_RIG_ANA", txt ".png", txt "personagens/SVB_RIG_ANA.png")]
     = [(txt "svbrigana", txt "personagens/SVB_RIG_ANA.png")]
  /\ App.norm_key (txt "SVB_RIG_" ++ txt "Ana") = txt "svbrigana"
  /\ App.find_image_for
       [(txt "svbrigana", txt "personagens/SVB_RIG_ANA.png")] [] (txt "Ana")
     = []
  /\ App.match_exact
       [(txt "svbrigana", txt "personagens/SVB_RIG_ANA.png")]
       (App.name_variants (txt "Ana")) = None
  /\ App.match_exact
       [(App.norm_key (txt "SVB_RIG_" ++ txt "Muriel"),
         txt "personagens/SVB_RIG_MURIEL.png")]
       (App.name_variants (txt "Muriel")) = None
  /\ App.find_image_for
       [(txt "svbmurielvelha", txt "personagens/SVB_MURIEL_VELHA.png");
        (App.norm_key (txt "SVB_RIG_" ++ txt "Muriel"),
         txt "personagens/SVB_RIG_MURIEL.png")] [] (txt "Muriel")
     = txt "personagens/SVB_MURIEL_VELHA.png".
Proof.
  split; [exact file_name_parts_norm_key|].
  split.
  { intros files k p H. apply index_images_keys in H as [stem ->].
    apply file_name_parts_norm_key. }
  repeat split; vm_compute; reflexivity.
Qed.

(** ** The candidate list of the best identifier *)

Lemma normalize_candidates_head (cands acc : list str) :
  head (fold_left
          (fun normalized_candidates cid =>
             let norm_id := ListTab._std_svb_id cid in
             if truthy norm_id && negb (str_in norm_id normalized_candidates)
             then normalized_candidates ++ [norm_id]
             else normalized_candidates)
          cands acc)
  = match acc with
    | x :: _ => Some x
    | [] => head (List.filter truthy (map ListTab._std_svb_id cands))
    end.
Proof.
  revert acc; induction cands as [|c cands IH]; intros acc; simpl.
  - destruct acc; reflexivity.
  - rewrite IH. destruct acc as [|x acc]; simpl.
    + rewrite andb_true_r.
      destruct (truthy (ListTab._std_svb_id c)); reflexivity.
    + destruct (truthy (ListTab._std_svb_id c)
                && negb (str_eqb (ListTab._std_svb_id c) x
                         || str_in (ListTab._std_svb_id c) acc));
        reflexivity.
Qed.

Lemma best_id_first_truthy (pid nome : str) (lc sc cc : list str) :
  ListTab.best_id pid nome lc sc cc
  = default pid
      (head (List.filter truthy
               (map ListTab._std_svb_id
                    (ListTab.candidate_ids pid nome
                       (List.filter ListTab.nonblank lc)
                       (List.filter ListTab.nonblank sc)
                       (ListTab.first_nonblank cc))))).
Proof.
  unfold ListTab.best_id, ListTab.normalize_candidates.
  pose proof (normalize_candidates_head
                (ListTab.candidate_ids pid nome
                   (List.filter ListTab.nonblank lc)
                   (List.filter ListTab.nonblank sc)
                   (ListTab.first_nonblank cc)) []) as H.
  simpl in H. rewrite <- H.
  match goal with |- match ?l with _ => _ end = _ => destruct l end;
    reflexivity.
Qed.

Lemma nonblank_truthy (s : str) : ListTab.nonblank s = true -> truthy s = true.
Proof. destruct s; [discriminate|reflexivity]. Qed.

Lemma std_svb_id_truthy (s : str) :
  truthy s = true -> truthy (ListTab._std_svb_id s) = true.
Proof.
  intros H. unfold ListTab._std_svb_id.
  destruct (svb_id_search s); [reflexivity|exact H].
Qed.

(** ** Image resolver: totality and the verbatim lookup (C5) *)

Lemma find_map_Some {A B} (f : A -> option B) (l : list A) (y : B) :
  find_map f l = Some y -> exists x, In x l /\ f x = Some y.
Proof.
  induction l as [|x l IH]; simpl; [discriminate|].
  destruct (f x) as [y'|] eqn:E.
  - intros H. injection H as <-. exists x. auto.
  - intros H. destruct (IH H) as (x' & Hin & Hx'). exists x'. auto.
Qed.

Lemma find_map_None {A B} (f : A -> option B) (l : list A) :
  (forall x, In x l -> f x = None) -> find_map f l = None.
Proof.
  induction l as [|x l IH]; simpl; intros H; [reflexivity|].
  rewrite (H x) by now left. apply IH. intros x' Hx'. apply H. now right.
Qed.

Lemma dict_get_stored (d : dict str) (k : str) :
  dict_get d k [] = [] \/ In (dict_get d k []) (map snd d).
Proof.
  induction d as [|[k' v] d IH]; simpl; [now left|].
  destruct (str_eqb k k'); [right; now left|].
  destruct IH as [IH|IH]; [now left|right; now right].
Qed.

Section ResolverFacts.
Variable img_idx : dict str.

Lemma try_each_stored (cands : list str) (r : str) :
  App.try_each img_idx cands = Some r -> In r (map snd img_idx).
Proof.
  intros H. apply find_map_Some in H as (c & _ & Hc).
  unfold App.try_match in Hc.
  destruct (truthy (dict_get img_idx (App.norm_key c) [])) eqn:E; [|discriminate].
  injection Hc as <-.
  destruct (dict_get_stored img_idx (App.norm_key c)) as [H|H]; [|exact H].
  rewrite H in E. discriminate.
Qed.

Lemma match_by_id_stored (fid r : str) :
  App.match_by_id img_idx fid = Some r -> In r (map snd img_idx).
Proof.
  unfold App.match_by_id.
  destruct (truthy fid && startswith (txt "SVB_") (upper fid)); [|discriminate].
  destruct (App.try_each img_idx [fid]) as [r0|] eqn:E0.
  - intros H. injection H as <-. eapply try_each_stored; exact E0.
  - repeat match goal with
           | |- (if ?b then _ else _) = Some _ -> _ => destruct b
           end; try discriminate; apply try_each_stored.
Qed.

Lemma scan_index_stored (test : str * str -> bool) (r : str) :
  find_map (fun kv : str * str => if test kv then Some (snd kv) else None)
           img_idx = Some r ->
  In r (map snd img_idx).
Proof.
  intros H. apply find_map_Some in H as (kv & Hin & Hkv).
  destruct (test kv); [|discriminate]. injection Hkv as <-.
  now apply in_map.
Qed.

Lemma match_by_name_stored (name r : str) :
  App.match_by_name img_idx name = Some r -> In r (map snd img_idx).
Proof.
  unfold App.match_by_name. destruct (truthy name); [|discriminate].
  destruct (App.match_exact img_idx (App.name_variants name)) as [p|] eqn:E1.
  { intros H. injection H as <-. unfold App.match_exact in E1.
    apply find_map_Some in E1 as (v & _ & Hv).
    eapply (scan_index_stored
              (fun kv => str_eqb v (App.file_name_parts (fst kv)))).
    exact Hv. }
  destruct (App.match_partial img_idx (App.name_variants name)) as [p|] eqn:E2.
  { intros H. injection H as <-. unfold App.match_partial in E2.
    apply find_map_Some in E2 as (v & _ & Hv).
    eapply (scan_index_stored
              (fun kv =>
                 (contains v (App.file_name_parts (fst kv))
                  && Nat.leb 4 (length v))
                 || (contains (App.file_name_parts (fst kv)) v
                     && Nat.leb 4 (length (App.file_name_parts (fst kv)))))).
    exact Hv. }
  intros H. unfold App.match_words in H.
  apply find_map_Some in H as (w & _ & Hw).
  destruct (Nat.leb 4 (length w)); [|discriminate].
  eapply (scan_index_stored (fun kv => contains w (fst kv))). exact Hw.
Qed.

Lemma find_image_for_stored (fid name : str) :
  App.find_image_for img_idx fid name = []
  \/ In (App.find_image_for img_idx fid name) (map snd img_idx).
Proof.
  unfold App.find_image_for.
  destruct (App.match_by_id img_idx (strip fid)) as [r|] eqn:E1.
  { right. eapply match_by_id_stored; exact E1. }
  destruct (App.match_by_name img_idx (strip name)) as [r|] eqn:E2.
  { right. eapply match_by_name_stored; exact E2. }
  now left.
Qed.

Lemma find_image_for_muriel :
  truthy (dict_get img_idx (txt "svbrigmuriel") []) = true ->
  App.find_image_for img_idx (txt "SVB_RIG_MURIEL") (txt "Muriel")
  = dict_get img_idx (txt "svbrigmuriel") [].
Proof.
  intros H.
  assert (Hs : strip (txt "SVB_RIG_MURIEL") = txt "SVB_RIG_MURIEL")
    by (vm_compute; reflexivity).
  assert (Hp : truthy (txt "SVB_RIG_MURIEL")
               && startswith (txt "SVB_") (upper (txt "SVB_RIG_MURIEL")) = true)
    by (vm_compute; reflexivity).
  assert (Hk : App.norm_key (txt "SVB_RIG_MURIEL") = txt "svbrigmuriel")
    by (vm_compute; reflexivity).
  assert (Hid : App.match_by_id img_idx (txt "SVB_RIG_MURIEL")
                = Some (dict_get img_idx (txt "svbrigmuriel") [])).
  { unfold App.match_by_id. rewrite Hp.
    unfold App.try_each at 1. unfold find_map. unfold App.try_match at 1 2.
    rewrite Hk, H. reflexivity. }
  unfold App.find_image_for. rewrite Hs, Hid. reflexivity.
Qed.

End ResolverFacts.

Lemma find_image_for_empty_index (fid name : str) :
  App.find_image_for [] fid name = [].
Proof.
  destruct (find_image_for_stored [] fid name) as [H|H]; [exact H|].
  contradiction.
Qed.

Lemma find_map_None_inv {A B} (f : A -> option B) (l : list A) :
  find_map f l = None -> forall x, In x l -> f x = None.
Proof.
  induction l as [|y l IH]; simpl; [tauto|].
  destruct (f y) eqn:E; [discriminate|].
  intros H x [<-|Hx]; auto.
Qed.

Lemma scan_Some (test : str -> str * str -> bool) (items : list str)
    (img_idx : dict str) (p : str) :
  Spec.scan test items img_idx = Some p ->
  exists x kv, In x items /\ In kv img_idx /\ test x kv = true /\ p = snd kv.
Proof.
  unfold Spec.scan. intros H.
  apply find_map_Some in H as (x & Hx & H).
  apply find_map_Some in H as (kv & Hkv & H).
  destruct (test x kv) eqn:E; [|discriminate]. injection H as <-.
  exists x, kv. auto.
Qed.

Lemma scan_None (test : str -> str * str -> bool) (items : list str)
    (img_idx : dict str) :
  Spec.scan test items img_idx = None <-> ~ Spec.hits test items img_idx.
Proof.
  unfold Spec.scan, Spec.hits. split.
  - intros H (x & kv & Hx & Hkv & Ht).
    pose proof (find_map_None_inv _ _ H x Hx) as H1.
    pose proof (find_map_None_inv _ _ H1 kv Hkv) as H2.
    simpl in H2. rewrite Ht in H2. discriminate.
  - intros H. apply find_map_None. intros x Hx.
    apply find_map_None. intros kv Hkv.
    destruct (test x kv) eqn:E; [|reflexivity].
    exfalso. apply H. exists x, kv. auto.
Qed.

Lemma find_map_ext {A B} (f g : A -> option B) (l : list A) :
  (forall x, f x = g x) -> find_map f l = find_map g l.
Proof.
  intros H. induction l as [|x l IH]; simpl; [reflexivity|].
  now rewrite H, IH.
Qed.

Lemma match_words_scan (img_idx : dict str) (words : list str) :
  App.match_words img_idx words = Spec.scan Spec.word_hit words img_idx.
Proof.
  unfold App.match_words, Spec.scan. apply find_map_ext. intros w.
  unfold Spec.word_hit. destruct (Nat.leb 4 (length w)); [reflexivity|].
  symmetry. apply find_map_None. reflexivity.
Qed.

Lemma match_by_name_steps (img_idx : dict str) (name : str) :
  truthy name = true ->
  App.match_by_name img_idx name
  = match Spec.scan Spec.exact_hit (App.name_variants name) img_idx with
    | Some path => Some path
    | None =>
      match Spec.scan Spec.partial_hit (App.name_variants name) img_idx with
      | Some path => Some path
      | None => Spec.scan Spec.word_hit
                  (App.name_words (App.norm_key name)) img_idx
      end
    end.
Proof.
  intros H. unfold App.match_by_name. rewrite H.
  rewrite match_words_scan. reflexivity.
Qed.

(** C5: [find_image_for] always returns, either the empty string or a path
    stored in the index.  A match of the identifier steps is returned, the
    verbatim lookup first; failing these, with a name that is not blank,
    the result is the path of an entry that passes the first of the name
    steps that some entry passes: equality with a variant of the name,
    containment either way, a word of the name inside the key; it is the
    empty string when no step matches, as on the empty index.  With a path
    stored under "svbrigmuriel", the identifier SVB_RIG_MURIEL resolves
    to that path by the verbatim lookup. *)
Theorem c5_find_image_for_total (img_idx : dict str) (file_id name : str) :
  let result := App.find_image_for img_idx file_id name in
  let variants := App.name_variants (strip name) in
  let words := App.name_words (App.norm_key (strip name)) in
  (result = [] \/ In result (map snd img_idx))
  /\ (App.match_by_id img_idx (strip file_id) = None ->
      App.match_by_name img_idx (strip name) = None ->
      result = [])
  /\ (truthy (dict_get img_idx (txt "svbrigmuriel") []) = true ->
      App.find_image_for img_idx (txt "SVB_RIG_MURIEL") (txt "Muriel")
      = dict_get img_idx (txt "svbrigmuriel") [])
  /\ App.find_image_for [] file_id name = []
  /\ App.find_image_for
       [(txt "svbcuruca", txt "personagens/SVB_CURUCA.png")]
       (txt "SVB_RIG_MURIEL") (txt "Muriel") = []
  /\ (truthy (strip file_id) = true ->
      startswith (txt "SVB_") (upper (strip file_id)) = true ->
      truthy (dict_get img_idx (App.norm_key (strip file_id)) []) = true ->
      result = dict_get img_idx (App.norm_key (strip file_id)) [])
  /\ (forall p, App.match_by_id img_idx (strip file_id) = Some p ->
        result = p /\ truthy p = true /\ In p (map snd img_idx))
  /\ (App.match_by_id img_idx (strip file_id) = None ->
      truthy (strip name) = true ->
      (Spec.hits Spec.exact_hit variants img_idx ->
       exists v kv, In v variants /\ In kv img_idx
                    /\ Spec.exact_hit v kv = true /\ result = snd kv)
      /\ (~ Spec.hits Spec.exact_hit variants img_idx ->
          Spec.hits Spec.partial_hit variants img_idx ->
          exists v kv, In v variants /\ In kv img_idx
                       /\ Spec.partial_hit v kv = true /\ result = snd kv)
      /\ (~ Spec.hits Spec.exact_hit variants img_idx ->
          ~ Spec.hits Spec.partial_hit variants img_idx ->
          Spec.hits Spec.word_hit words img_idx ->
          exists w kv, In w words /\ In kv img_idx
                       /\ Spec.word_hit w kv = true /\ result = snd kv)
      /\ (~ Spec.hits Spec.exact_hit variants img_idx ->
          ~ Spec.hits Spec.partial_hit variants img_idx ->
          ~ Spec.hits Spec.word_hit words img_idx ->
          result = []))
  /\ (App.match_by_id img_idx (strip file_id) = None ->
      strip name = [] -> result = [])
  /\ App.find_image_for
       [(txt "svbmuriel", txt "personagens/SVB_MURIEL.png")] [] (txt "Muriel")
     = txt "personagens/SVB_MURIEL.png"
  /\ App.find_image_for
       [(txt "svbxicoapicultor", txt "p/SVB_XICO_APICULTOR.png");
        (txt "xico", txt "p/xico.png")] (txt "0042") (txt " Xico ")
     = txt "p/xico.png"
  /\ App.find_image_for
       [(txt "casafarinha", txt "p/casa.png")] [] (txt "Casa de Farinha")
     = txt "p/casa.png"
  /\ App.find_image_for
       [(txt "svbrigana", txt "p/SVB_RIG_ANA.png");
        (txt "svbperana", txt "p/SVB_PER_ANA.png")]
       (txt "svb_per_ana") (txt "Zeca")
     = txt "p/SVB_PER_ANA.png"
  /\ App.find_image_for
       [(txt "svbrigana", txt "p/SVB_RIG_ANA.png")] (txt "SVB_ANA") (txt "Zeca")
     = txt "p/SVB_RIG_ANA.png".
Proof.
  intros result variants words.
  split; [apply find_image_for_stored|].
  split.
  { intros H1 H2. unfold result, App.find_image_for. now rewrite H1, H2. }
  split; [apply find_image_for_muriel|].
  split; [apply find_image_for_empty_index|].
  split; [vm_compute; reflexivity|].
  split.
  { intros Hf Hs Hl. unfold result, App.find_image_for, App.match_by_id.
    rewrite Hf, Hs. cbn [andb].
    unfold App.try_each at 1. cbn [find_map]. unfold App.try_match at 1 2.
    now rewrite Hl. }
  split.
  { intros p Hp. unfold result, App.find_image_for. rewrite Hp.
    split; [reflexivity|]. split; [|eapply match_by_id_stored; exact Hp].
    unfold App.match_by_id in Hp.
    destruct (truthy (strip file_id)
              && startswith (txt "SVB_") (upper (strip file_id)));
      [|discriminate].
    assert (Ht : forall cands, App.try_each img_idx cands = Some p ->
                               truthy p = true).
    { intros cands H. apply find_map_Some in H as (c & _ & Hc).
      cbv zeta in Hc.
      destruct (truthy (App.try_match img_idx c)) eqn:E; [|discriminate].
      injection Hc as <-. exact E. }
    destruct (App.try_each img_idx [strip file_id]) as [r0|] eqn:E0.
    - injection Hp as <-. eapply Ht; exact E0.
    - repeat match type of Hp with
             | (if ?b then _ else _) = Some _ => destruct b
             end; try discriminate; eapply Ht; exact Hp. }
  split.
  { intros Hid Hn.
    assert (Hr : result
                 = match App.match_by_name img_idx (strip name) with
                   | Some path => path
                   | None => []
                   end).
    { unfold result, App.find_image_for. now rewrite Hid. }
    rewrite (match_by_name_steps img_idx (strip name) Hn) in Hr.
    fold variants in Hr. fold words in Hr.
    destruct (Spec.scan Spec.exact_hit variants img_idx) as [p1|] eqn:E1.
    { apply scan_Some in E1 as (v & kv & Hv & Hkv & Ht & ->).
      assert (Hh : Spec.hits Spec.exact_hit variants img_idx)
        by (exists v, kv; auto).
      split; [intros _; exists v, kv; auto|].
      split; [intros Hno; now destruct Hno|].
      split; intros Hno; now destruct Hno. }
    apply scan_None in E1.
    split; [intros Hh; now destruct E1|].
    destruct (Spec.scan Spec.partial_hit variants img_idx) as [p2|] eqn:E2.
    { apply scan_Some in E2 as (v & kv & Hv & Hkv & Ht & ->).
      assert (Hh : Spec.hits Spec.partial_hit variants img_idx)
        by (exists v, kv; auto).
      split; [intros _ _; exists v, kv; auto|].
      split; intros _ Hno; now destruct Hno. }
    apply scan_None in E2.
    split; [intros _ Hh; now destruct E2|].
    destruct (Spec.scan Spec.word_hit words img_idx) as [p3|] eqn:E3.
    { apply scan_Some in E3 as (w & kv & Hw & Hkv & Ht & ->).
      assert (Hh : Spec.hits Spec.word_hit words img_idx)
        by (exists w, kv; auto).
      split; [intros _ _ _; exists w, kv; auto|].
      intros _ _ Hno; now destruct Hno. }
    apply scan_None in E3.
    split; [intros _ _ Hh; now destruct E3|]. intros _ _ _. exact Hr. }
  split.
  { intros Hid Hn. unfold result, App.find_image_for.
    rewrite Hid, Hn. reflexivity. }
  repeat split; vm_compute; reflexivity.
Qed.

Lemma c5_find_image_for_witness :
  App.find_image_for
    [(txt "svbmuriel", txt "personagens/SVB_MURIEL.png");
     (txt "svbrigmuriel", txt "personagens/SVB_RIG_MURIEL.png")]
    (txt "SVB_RIG_MURIEL") (txt "Muriel")
  = txt "personagens/SVB_RIG_MURIEL.png"
  /\ App.find_image_for
       [(txt "svbcuruca", txt "personagens/SVB_CURUCA.png")]
       (txt "CURUCA_01") (txt "Zé") = []
  /\ App.find_image_for
       [(txt "svbcuruca", txt "personagens/SVB_CURUCA.png");
        (txt "svbrigmurielvelha", txt "personagens/SVB_RIG_MURIEL_VELHA.png")]
       (txt " svb_rig_muriel_velha ") (txt "Muriel")
     = txt "personagens/SVB_RIG_MURIEL_VELHA.png"
  /\ App.find_image_for
       [(txt "svbcuruca", txt "personagens/SVB_CURUCA.png");
        (txt "svbmuriel", txt "personagens/SVB_MURIEL.png")]
       (txt "0042") (txt "Muriel")
     = txt "personagens/SVB_MURIEL.png".
Proof.
  pose proof (c5_find_image_for_total
                [(txt "svbmuriel", txt "personagens/SVB_MURIEL.png");
                 (txt "svbrigmuriel", txt "personagens/SVB_RIG_MURIEL.png")]
                [] []) as (_ & _ & H1 & _).
  pose proof (c5_find_image_for_total
                [(txt "svbcuruca", txt "personagens/SVB_CURUCA.png")]
                (txt "CURUCA_01") (txt "Zé")) as (_ & H2 & _).
  pose proof (c5_find_image_for_total
                [(txt "svbcuruca", txt "personagens/SVB_CURUCA.png");
                 (txt "svbrigmurielvelha",
                  txt "personagens/SVB_RIG_MURIEL_VELHA.png")]
                (txt " svb_rig_muriel_velha ") (txt "Muriel"))
    as (_ & _ & _ & _ & _ & H3 & _).
  pose proof (c5_find_image_for_total
                [(txt "svbcuruca", txt "personagens/SVB_CURUCA.png");
                 (txt "svbmuriel", txt "personagens/SVB_MURIEL.png")]
                (txt "0042") (txt "Muriel"))
    as (_ & _ & _ & _ & _ & _ & _ & H4 & _).
  split; [rewrite H1; vm_compute; reflexivity|].
  split; [apply H2; vm_compute; reflexivity|].
  split.
  - cbv zeta in H3. rewrite H3; vm_compute; reflexivity.
  - cbv zeta in H4.
    destruct (H4 ltac:(vm_compute; reflexivity) ltac:(vm_compute; reflexivity))
      as (_ & Hp & _).
    destruct Hp as (v & kv & Hv & Hkv & Ht & Hr).
    + intros (x & kv & Hx & Hkv & Ht). vm_compute in Hx, Hkv.
      destruct Hkv as [<-|[<-|[]]];
        repeat (destruct Hx as [<-|Hx]; [vm_compute in Ht; discriminate|]);
        destruct Hx.
    + exists (txt "muriel"),
        (txt "svbmuriel", txt "personagens/SVB_MURIEL.png").
      repeat split; vm_compute; auto.
    + rewrite Hr. vm_compute in Hkv.
      destruct Hkv as [<-|[<-|[]]]; [|reflexivity].
      exfalso. vm_compute in Hv.
      repeat (destruct Hv as [<-|Hv]; [vm_compute in Ht; discriminate|]).
      destruct Hv.
Defined.

(** ** Exploded table (C7, C10) *)

Lemma parse_episode_field_cases (s : str) :
  App.parse_episode_field s = []
  \/ App.parse_episode_field s = [PyStr (txt "Todos")]
  \/ exists runs,
       App.parse_episode_field s = map (fun n => PyInt (int_of_digits n)) runs.
Proof.
  unfold App.parse_episode_field.
  destruct (negb (truthy s)); [now left|].
  destruct (negb (truthy (strip s))); [now left|].
  destruct (str_eqb (lower (strip s)) (txt "todos")); [right; now left|].
  right; right. eexists. reflexivity.
Qed.

Lemma has_wildcard_ints (runs : list str) :
  Spec.has_wildcard (map (fun n => PyInt (int_of_digits n)) runs) = false.
Proof. induction runs; simpl; auto. Qed.

Lemma filter_is_int_ints (zs : list Z) :
  List.filter is_int (map PyInt zs) = map PyInt zs.
Proof. induction zs; simpl; congruence. Qed.

Lemma parse_wildcard (s : str) :
  Spec.has_wildcard (App.parse_episode_field s) = true ->
  App.parse_episode_field s = [PyStr (txt "Todos")].
Proof.
  destruct (parse_episode_field_cases s) as [H|[H|[runs H]]]; rewrite H.
  - discriminate.
  - reflexivity.
  - rewrite has_wildcard_ints. discriminate.
Qed.

Lemma explode_row_episodes (cols : list str) (U : list Z) (r : list str) :
  map (fun e => (App.cells e, App.EP_LIST e)) (App.explode_row cols U r)
  = map (fun v => (r, v)) (App.kept_episodes U (row_get cols r App.COL_EP [])).
Proof. unfold App.explode_row. rewrite map_map. reflexivity. Qed.

Lemma kept_episodes_wildcard (U : list Z) (ep : str) :
  Spec.has_wildcard (App.parse_episode_field ep) = true ->
  App.kept_episodes U ep = map PyInt U.
Proof.
  intros H. unfold App.kept_episodes. destruct U as [|z U]; simpl truthy_list.
  - rewrite (parse_wildcard ep H). reflexivity.
  - unfold App._expand. fold (Spec.has_wildcard (App.parse_episode_field ep)).
    rewrite H. cbn [map explode_cell]. apply (filter_is_int_ints (z :: U)).
Qed.

Lemma kept_episodes_none (U : list Z) (ep : str) :
  List.filter is_int (App.parse_episode_field ep) = [] ->
  (Spec.has_wildcard (App.parse_episode_field ep) = true -> U = []) ->
  App.kept_episodes U ep = [].
Proof.
  intros Hno Hw. unfold App.kept_episodes.
  destruct (Spec.has_wildcard (App.parse_episode_field ep)) eqn:E.
  - rewrite (Hw eq_refl). simpl truthy_list.
    rewrite (parse_wildcard ep E). reflexivity.
  - assert (Hx : (if truthy_list U
                  then App._expand U (App.parse_episode_field ep)
                  else App.parse_episode_field ep)
                 = App.parse_episode_field ep).
    { destruct (truthy_list U); [|reflexivity]. unfold App._expand.
      fold (Spec.has_wildcard (App.parse_episode_field ep)).
      now rewrite E. }
    rewrite Hx.
    destruct (App.parse_episode_field ep) as [|v l] eqn:Ep; [reflexivity|].
    exact Hno.
Qed.

Lemma explode_row_nil (cols : list str) (U : list Z) (r : list str) :
  App.kept_episodes U (row_get cols r App.COL_EP []) = [] ->
  App.explode_row cols U r = [].
Proof.
  intros H. pose proof (explode_row_episodes cols U r) as E.
  rewrite H in E. destruct (App.explode_row cols U r); [reflexivity|discriminate].
Qed.

Lemma explode_row_int (cols : list str) (U : list Z) (r : list str) :
  Forall (fun e => exists z, App.EP_LIST e = PyInt z) (App.explode_row cols U r).
Proof.
  unfold App.explode_row, App.kept_episodes. apply Forall_forall. intros e He.
  apply list_elem_of_In in He. apply in_map_iff in He as (v & <- & Hv).
  apply filter_In in Hv as [_ Hv].
  destruct v; try discriminate. simpl. eauto.
Qed.

Lemma build_base_exp_Some (df : DataFrame) (U : list Z) (out : list App.ExpRow) :
  App.build_base_exp df U = Some out ->
  out = flat_map (App.explode_row (columns df) U) (rows df)
  /\ forall rs, App.build_base_exp (mkDF (columns df) rs) U
                = Some (flat_map (App.explode_row (columns df) U) rs).
Proof.
  unfold App.build_base_exp, has_column. simpl columns.
  destruct (str_in App.COL_EP (columns df) && str_in App.COL_NAME (columns df)
            && str_in App.COL_FILE_ID (columns df)); [|discriminate].
  intros H. injection H as <-. auto.
Qed.

(** The known episodes *)

Lemma add_ints_elem (ps : list pyval) (acc : gset Z) (z : Z) :
  z ∈ fold_left (fun eps p => match p with
                              | PyInt z => eps ∪ {[ z ]}
                              | _ => eps
                              end) ps acc
  <-> z ∈ acc \/ In (PyInt z) ps.
Proof.
  revert acc; induction ps as [|p ps IH]; intros acc; simpl.
  - tauto.
  - rewrite IH. destruct p as [z'|t|].
    + rewrite elem_of_union, elem_of_singleton. split.
      * intros [[?| ->]|?]; auto.
      * intros [?|[H|?]]; auto. injection H as ->. auto.
    + split; [intros [?|?]; auto|intros [?|[?|?]]; auto; discriminate].
    + split; [intros [?|?]; auto|intros [?|[?|?]]; auto; discriminate].
Qed.

Lemma all_ints_elem (raws : list str) (acc : gset Z) (z : Z) :
  z ∈ fold_left
        (fun eps raw =>
           fold_left (fun eps p => match p with
                                   | PyInt z => eps ∪ {[ z ]}
                                   | _ => eps
                                   end)
                     (App.parse_episode_field raw) eps)
        raws acc
  <-> z ∈ acc \/ exists raw, In raw raws /\ In (PyInt z) (App.parse_episode_field raw).
Proof.
  revert acc; induction raws as [|r raws IH]; intros acc; simpl.
  - split; [auto|]. intros [?|(? & [] & _)]. assumption.
  - rewrite IH, add_ints_elem. split.
    + intros [[?|?]|(raw & ? & ?)]; eauto 6.
    + intros [?|(raw & [->|?] & ?)]; eauto 6.
Qed.

Lemma detect_all_numeric_episodes_spec (df : DataFrame) (U : list Z) :
  App.detect_all_numeric_episodes df = Some U ->
  exists raws, column df App.COL_EP = Some raws
    /\ Sorted Z.le U /\ NoDup U
    /\ forall z, In z U <->
         exists raw, In raw raws /\ In (PyInt z) (App.parse_episode_field raw).
Proof.
  unfold App.detect_all_numeric_episodes.
  destruct (column df App.COL_EP) as [raws|]; [|discriminate].
  simpl. intros H. injection H as <-. exists raws. split; [reflexivity|].
  split; [apply Sorted_merge_sort; apply _|].
  split.
  - rewrite merge_sort_Permutation. apply NoDup_elements.
  - intros z. rewrite <- list_elem_of_In, merge_sort_Permutation.
    rewrite elem_of_elements, all_ints_elem. split.
    + intros [H|H]; [now apply elem_of_empty in H|exact H].
    + intros H. right. exact H.
Qed.

Lemma expand_wildcard (U : list Z) (lst : list pyval) :
  Spec.has_wildcard lst = true -> App._expand U lst = map PyInt U.
Proof.
  intros H. unfold App._expand. fold (Spec.has_wildcard lst). now rewrite H.
Qed.

(** C7: in the exploded table a record whose parsed episodes hold the
    wildcard leaves exactly one row per known episode, in order, whatever
    else its list holds; the known episodes are the sorted, duplicate-free
    integers parsed from all records.  Records "1, 3", "2" and "Todos":
    the known episodes are 1, 2, 3 and the wildcard record leaves the rows
    1, 2, 3. *)
Theorem c7_wildcard_expands_to_universe
    (df : DataFrame) (U : list Z) (out : list App.ExpRow) :
  App.build_base_exp df U = Some out ->
  (forall rs1 r rs2,
     rows df = rs1 ++ r :: rs2 ->
     Spec.has_wildcard
       (App.parse_episode_field (row_get (columns df) r App.COL_EP [])) = true ->
     exists o1 o2 mid,
       out = o1 ++ mid ++ o2
       /\ App.build_base_exp (mkDF (columns df) rs1) U = Some o1
       /\ App.build_base_exp (mkDF (columns df) rs2) U = Some o2
       /\ map (fun e => (App.cells e, App.EP_LIST e)) mid
          = map (fun z => (r, PyInt z)) U)
  /\ (forall lst, Spec.has_wildcard lst = true ->
        App._expand U lst = map PyInt U)
  /\ (App.detect_all_numeric_episodes df = Some U ->
      Sorted Z.le U /\ NoDup U
      /\ exists raws, column df App.COL_EP = Some raws
         /\ forall z, In z U <->
              exists raw, In raw raws
                /\ In (PyInt z) (App.parse_episode_field raw))
  /\ (let ex := mkDF [App.COL_EP; App.COL_NAME; App.COL_FILE_ID]
                  [[txt "1, 3"; txt "Ana"; txt "SVB_ANA"];
                   [txt "2"; txt "Bia"; txt "SVB_BIA"];
                   [txt "Todos"; txt "Caribé"; txt "SVB_CARIBE"]] in
      App.detect_all_numeric_episodes ex = Some [1; 2; 3]%Z
      /\ option_map (map (fun e => (nth 1 (App.cells e) [], App.EP_LIST e)))
           (App.build_base_exp ex [1; 2; 3]%Z)
         = Some [(txt "Ana", PyInt 1); (txt "Ana", PyInt 3);
                 (txt "Bia", PyInt 2); (txt "Caribé", PyInt 1);
                 (txt "Caribé", PyInt 2); (txt "Caribé", PyInt 3)]).
Proof.
  intros Hb. destruct (build_base_exp_Some df U out Hb) as [-> Hrs].
  split.
  { intros rs1 r rs2 Hrows Hw. rewrite Hrows.
    exists (flat_map (App.explode_row (columns df) U) rs1),
           (flat_map (App.explode_row (columns df) U) rs2),
           (App.explode_row (columns df) U r).
    split; [rewrite flat_map_app; reflexivity|].
    split; [apply Hrs|]. split; [apply Hrs|].
    rewrite explode_row_episodes, (kept_episodes_wildcard U _ Hw), map_map.
    reflexivity. }
  split; [intros lst; apply expand_wildcard|].
  split.
  { intros Hd. destruct (detect_all_numeric_episodes_spec df U Hd)
      as (raws & Hc & Hs & Hn & Hz). eauto 6. }
  split; vm_compute; reflexivity.
Qed.

Lemma c7_wildcard_witness :
  exists out,
    App.build_base_exp
      (mkDF [App.COL_EP; App.COL_NAME; App.COL_FILE_ID]
         [[txt "4"; txt "Ana"; txt "SVB_ANA"];
          [txt "todos"; txt "Bia"; txt "SVB_BIA"]]) [4; 9]%Z = Some out
    /\ exists o1 o2 mid,
         out = o1 ++ mid ++ o2
         /\ map (fun e => (App.cells e, App.EP_LIST e)) mid
            = [([txt "todos"; txt "Bia"; txt "SVB_BIA"], PyInt 4);
               ([txt "todos"; txt "Bia"; txt "SVB_BIA"], PyInt 9)].
Proof.
  eexists. split; [vm_compute; reflexivity|].
  destruct (c7_wildcard_expands_to_universe
              (mkDF [App.COL_EP; App.COL_NAME; App.COL_FILE_ID]
                 [[txt "4"; txt "Ana"; txt "SVB_ANA"];
                  [txt "todos"; txt "Bia"; txt "SVB_BIA"]]) [4; 9]%Z _
              ltac:(vm_compute; reflexivity)) as (H & _).
  destruct (H [[txt "4"; txt "Ana"; txt "SVB_ANA"]]
              [txt "todos"; txt "Bia"; txt "SVB_BIA"] []
              ltac:(reflexivity) ltac:(vm_compute; reflexivity))
    as (o1 & o2 & mid & Ho & _ & _ & Hm).
  exists o1, o2, mid. split; [exact Ho|exact Hm].
Defined.

(** Texts without integers *)

Lemma lstrip_by_incl (p : char -> bool) (s : str) (c : char) :
  In c (lstrip_by p s) -> In c s.
Proof.
  induction s as [|x s IH]; simpl; [tauto|].
  destruct (p x); [intros H; right; now apply IH|tauto].
Qed.

Lemma strip_incl (s : str) (c : char) : In c (strip s) -> In c s.
Proof.
  unfold strip, strip_by, rstrip_by. intros H.
  apply in_rev in H. apply lstrip_by_incl in H. apply in_rev in H.
  now apply lstrip_by_incl in H.
Qed.

Lemma findall_runs_no_match (cls : char -> bool) (s : str) :
  (forall c, In c s -> cls c = false) -> findall_runs cls s = [].
Proof.
  unfold findall_runs. induction s as [|c r IH]; intros H; simpl; [reflexivity|].
  rewrite (H c) by now left. simpl. apply IH. intros c' Hc'. apply H. now right.
Qed.

Lemma parse_no_digits (s : str) :
  (forall c, In c s -> isdecimal c = false) ->
  List.filter is_int (App.parse_episode_field s) = [].
Proof.
  intros H. unfold App.parse_episode_field.
  destruct (negb (truthy s)); [reflexivity|].
  destruct (negb (truthy (strip s))); [reflexivity|].
  destruct (str_eqb (lower (strip s)) (txt "todos")); [reflexivity|].
  rewrite findall_runs_no_match; [reflexivity|].
  intros c Hc. apply H. now apply strip_incl.
Qed.

Lemma parse_blank (s : str) :
  strip s = [] -> App.parse_episode_field s = [].
Proof.
  intros H. unfold App.parse_episode_field.
  destruct s as [|c s]; [reflexivity|]. simpl truthy. simpl negb.
  rewrite H. reflexivity.
Qed.

Lemma parse_todos (s : str) :
  lower (strip s) = txt "todos" ->
  App.parse_episode_field s = [PyStr (txt "Todos")].
Proof.
  intros H. unfold App.parse_episode_field.
  destruct s as [|c s]; [discriminate|]. simpl truthy. simpl negb.
  destruct (strip (c :: s)) eqn:E; [discriminate|]. simpl truthy. simpl negb.
  rewrite H. reflexivity.
Qed.

(** C10: every row of the exploded table carries an integer in
    [__EP_LIST__], and a record whose episode field yields no integer
    leaves no row: the table is the one built without the record.  Such
    are the records with an empty or blank field, with a field without
    digits, and the wildcard records when no episode is known. *)
Theorem c10_exploded_rows_integer
    (df : DataFrame) (U : list Z) (out : list App.ExpRow) :
  App.build_base_exp df U = Some out ->
  Forall (fun e => exists z, App.EP_LIST e = PyInt z) out
  /\ (forall rs1 r rs2,
        rows df = rs1 ++ r :: rs2 ->
        let ep := row_get (columns df) r App.COL_EP [] in
        List.filter is_int (App.parse_episode_field ep) = [] ->
        (Spec.has_wildcard (App.parse_episode_field ep) = true -> U = []) ->
        App.explode_row (columns df) U r = []
        /\ App.build_base_exp (mkDF (columns df) (rs1 ++ rs2)) U = Some out)
  /\ (forall ep,
        (strip ep = [] ->
         List.filter is_int (App.parse_episode_field ep) = []
         /\ Spec.has_wildcard (App.parse_episode_field ep) = false)
        /\ ((forall c, In c ep -> isdecimal c = false) ->
            List.filter is_int (App.parse_episode_field ep) = [])
        /\ (lower (strip ep) = txt "todos" ->
            List.filter is_int (App.parse_episode_field ep) = []
            /\ Spec.has_wildcard (App.parse_episode_field ep) = true)).
Proof.
  intros Hb. destruct (build_base_exp_Some df U out Hb) as [-> Hrs].
  split.
  { apply Forall_flat_map. apply Forall_forall. intros r _.
    apply explode_row_int. }
  split.
  { intros rs1 r rs2 Hrows ep Hno Hw.
    assert (Hnil : App.explode_row (columns df) U r = []).
    { apply explode_row_nil. now apply kept_episodes_none. }
    split; [exact Hnil|].
    rewrite Hrs, Hrows, !flat_map_app. simpl. rewrite Hnil. reflexivity. }
  intros ep. split.
  { intros H. rewrite (parse_blank ep H). split; reflexivity. }
  split; [apply parse_no_digits|].
  intros H. rewrite (parse_todos ep H). split; reflexivity.
Qed.

Lemma c10_exploded_rows_witness :
  exists out,
    App.build_base_exp
      (mkDF [App.COL_EP; App.COL_NAME; App.COL_FILE_ID]
         [[txt "5"; txt "Ana"; txt "SVB_ANA"];
          [txt "a definir"; txt "Bia"; txt "SVB_BIA"]]) [5]%Z = Some out
    /\ Forall (fun e => exists z, App.EP_LIST e = PyInt z) out
    /\ App.build_base_exp
         (mkDF [App.COL_EP; App.COL_NAME; App.COL_FILE_ID]
            [[txt "5"; txt "Ana"; txt "SVB_ANA"]]) [5]%Z = Some out.
Proof.
  eexists. split; [vm_compute; reflexivity|].
  destruct (c10_exploded_rows_integer
              (mkDF [App.COL_EP; App.COL_NAME; App.COL_FILE_ID]
                 [[txt "5"; txt "Ana"; txt "SVB_ANA"];
                  [txt "a definir"; txt "Bia"; txt "SVB_BIA"]]) [5]%Z _
              ltac:(vm_compute; reflexivity)) as (H1 & H2 & _).
  split; [exact H1|].
  apply (H2 [[txt "5"; txt "Ana"; txt "SVB_ANA"]]
            [txt "a definir"; txt "Bia"; txt "SVB_BIA"] [] eq_refl).
  - vm_compute. reflexivity.
  - vm_compute. discriminate.
Defined.

(** ** Deduplication in the summary (C9) *)

Lemma str_in_elem_of (k : str) (l : list str) : str_in k l = true <-> k ∈ l.
Proof.
  unfold str_in. rewrite existsb_exists. split.
  - intros (x & Hin & Hx). apply str_eqb_eq in Hx as ->.
    now apply list_elem_of_In.
  - intros H. exists k. split; [now apply list_elem_of_In|apply str_eqb_refl].
Qed.

Lemma str_in_In (k : str) (l : list str) : str_in k l = true <-> In k l.
Proof. rewrite str_in_elem_of. apply list_elem_of_In. Qed.

Lemma nth_set_nth (i : nat) (v d : str) (r : list str) :
  nth i (set_nth i v r) d = v.
Proof.
  revert r; induction i as [|i IH]; intros [|x r]; simpl; auto.
Qed.

Lemma index_of_app_new (c : str) (cols : list str) :
  index_of c cols = None -> index_of c (cols ++ [c]) = Some (length cols).
Proof.
  induction cols as [|x cols IH]; simpl.
  - rewrite str_eqb_refl. reflexivity.
  - destruct (str_eqb c x); [discriminate|].
    destruct (index_of c cols); [discriminate|].
    intros _. rewrite IH by reflexivity. reflexivity.
Qed.

Lemma index_of_str_in (c : str) (cols : list str) :
  str_in c cols = match index_of c cols with Some _ => true | None => false end.
Proof.
  induction cols as [|x cols IH]; simpl; [reflexivity|].
  destruct (str_eqb c x); [reflexivity|]. simpl. rewrite IH.
  destruct (index_of c cols); reflexivity.
Qed.

Lemma row_get_set_cell (df : DataFrame) (c v : str) (vs : list str)
    (r : list str) :
  length r = length (columns df) ->
  row_get (columns (set_column df c vs)) (set_cell (columns df) c r v) c [] = v.
Proof.
  intros Hlen. unfold set_column, set_cell, row_get. simpl columns.
  rewrite index_of_str_in.
  destruct (index_of c (columns df)) as [i|] eqn:E.
  - rewrite E. apply nth_set_nth.
  - rewrite (index_of_app_new c _ E), <- Hlen.
    rewrite app_nth2 by lia. now rewrite Nat.sub_diag.
Qed.

Lemma drop_dup_rows_map (k k' : list str -> str) (f : list str -> list str)
    (seen : list str) (rs : list (list str)) :
  (forall r, In r rs -> k' (f r) = k r) ->
  drop_dup_rows k' seen (map f rs) = map f (drop_dup_rows k seen rs).
Proof.
  revert seen; induction rs as [|r rs IH]; intros seen H; simpl; [reflexivity|].
  rewrite (H r) by now left.
  assert (H' : forall r', In r' rs -> k' (f r') = k r')
    by (intros r' Hr'; apply H; now right).
  destruct (str_in (k r) seen); [now apply IH|].
  simpl. f_equal. now apply IH.
Qed.

Lemma drop_dup_rows_length (key : list str -> str) (seen : list str)
    (rs : list (list str)) :
  length (drop_dup_rows key seen rs)
  = size ((list_to_set (map key rs) : gset str) ∖ list_to_set seen).
Proof.
  revert seen; induction rs as [|r rs IH]; intros seen; simpl.
  - symmetry. apply size_empty_iff, elem_of_equiv_empty. intros x Hx.
    apply elem_of_difference in Hx as [Hx _]. now apply elem_of_empty in Hx.
  - destruct (str_in (key r) seen) eqn:E.
    + rewrite IH. f_equal. apply str_in_elem_of in E.
      apply set_eq. intros x.
      rewrite !elem_of_difference, elem_of_union, elem_of_singleton,
        !elem_of_list_to_set.
      split; [tauto|]. intros [[->|?] ?]; tauto.
    + simpl. rewrite IH.
      assert (Hn : key r ∉ seen).
      { intros H. apply str_in_elem_of in H. congruence. }
      assert (Heq : (({[key r]} ∪ list_to_set (map key rs)) : gset str)
                      ∖ list_to_set seen
                    = {[key r]}
                      ∪ ((list_to_set (map key rs) : gset str)
                           ∖ list_to_set (key r :: seen))).
      { apply set_eq. intros x.
        rewrite !elem_of_union, !elem_of_difference, elem_of_union,
          elem_of_singleton, !elem_of_list_to_set, elem_of_cons.
        split.
        - intros [[->|?] ?]; [now left|].
          destruct (decide (x = key r)); [now left|right; tauto].
        - intros [->|[? ?]]; [tauto|]. tauto. }
      assert (Hd : ({[key r]} : gset str)
                   ## (list_to_set (map key rs) : gset str)
                        ∖ list_to_set (key r :: seen)).
      { apply disjoint_singleton_l. rewrite elem_of_difference,
          !elem_of_list_to_set, elem_of_cons. tauto. }
      rewrite Heq, (size_union _ _ Hd), size_singleton. reflexivity.
Qed.

Lemma drop_dup_rows_first (key : list str -> str) (seen : list str)
    (rs : list (list str)) (r : list str) :
  In r (drop_dup_rows key seen rs) ->
  ~ In (key r) seen
  /\ find (fun x => str_eqb (key x) (key r)) rs = Some r.
Proof.
  revert seen; induction rs as [|x rs IH]; intros seen; simpl; [tauto|].
  destruct (str_in (key x) seen) eqn:E.
  - intros H. destruct (IH seen H) as [Hn Hf]. split; [exact Hn|].
    destruct (str_eqb (key x) (key r)) eqn:Ex; [|exact Hf].
    apply str_eqb_eq in Ex. apply str_in_In in E. congruence.
  - intros [->|H].
    + rewrite str_eqb_refl. split; [|reflexivity].
      intros Hin. apply str_in_In in Hin. congruence.
    + destruct (IH (key x :: seen) H) as [Hn Hf]. split.
      * intros Hin. apply Hn. now right.
      * destruct (str_eqb (key x) (key r)) eqn:Ex; [|exact Hf].
        apply str_eqb_eq in Ex. exfalso. apply Hn. now left.
Qed.

Lemma drop_dup_rows_NoDup (key : list str -> str) (seen : list str)
    (rs : list (list str)) :
  List.NoDup (map key (drop_dup_rows key seen rs)).
Proof.
  revert seen; induction rs as [|x rs IH]; intros seen; simpl; [constructor|].
  destruct (str_in (key x) seen); [apply IH|].
  simpl. constructor; [|apply IH].
  intros Hin. apply in_map_iff in Hin as (r & Hk & Hr).
  apply drop_dup_rows_first in Hr as [Hn _]. apply Hn. left. congruence.
Qed.

Lemma drop_dup_rows_cover (key : list str -> str) (seen : list str)
    (rs : list (list str)) (r : list str) :
  In r rs ->
  In (key r) seen \/ In (key r) (map key (drop_dup_rows key seen rs)).
Proof.
  revert seen; induction rs as [|x rs IH]; intros seen; simpl; [tauto|].
  intros [->|Hr].
  - destruct (str_in (key r) seen) eqn:E.
    + left. now apply str_in_In.
    + right. now left.
  - destruct (str_in (key x) seen) eqn:E; [now apply IH|].
    destruct (IH (key x :: seen) Hr) as [[H|H]|H].
    + right. left. exact H.
    + now left.
    + right. right. exact H.
Qed.

(** Casing does not change the key of a text. *)

Ltac not_space :=
  unfold isspace, in_range; repeat apply orb_false_intro;
  first [ apply N.eqb_neq; lia
        | apply andb_false_iff;
          first [ left; apply N.leb_gt; lia | right; apply N.leb_gt; lia ] ].

Lemma isspace_lower_char (c : char) : isspace (lower_char c) = isspace c.
Proof.
  unfold lower_char.
  destruct (is_ascii_upper c) eqn:E1.
  { unfold is_ascii_upper, in_range in E1.
    apply andb_true_iff in E1 as [Hlo Hhi].
    apply N.leb_le in Hlo, Hhi.
    transitivity false; [|symmetry]; not_space. }
  destruct (in_range 192 222 c && negb (N.eqb c 215)) eqn:E2; [|reflexivity].
  apply andb_true_iff in E2 as [E2 _]. unfold in_range in E2.
  apply andb_true_iff in E2 as [Hlo Hhi]. apply N.leb_le in Hlo, Hhi.
  transitivity false; [|symmetry]; not_space.
Qed.

Lemma lstrip_lower (s : str) :
  lstrip_by isspace (lower s) = lower (lstrip_by isspace s).
Proof.
  induction s as [|c s IH]; simpl; [reflexivity|].
  rewrite isspace_lower_char. destruct (isspace c); [exact IH|reflexivity].
Qed.

Lemma strip_lower (s : str) : strip (lower s) = lower (strip s).
Proof.
  unfold strip, strip_by, rstrip_by. rewrite lstrip_lower.
  unfold lower. rewrite <- map_rev. fold (lower (rev (lstrip_by isspace s))).
  rewrite lstrip_lower. unfold lower. now rewrite map_rev.
Qed.

Lemma norm_key_casing (a b : str) :
  lower a = lower b -> Stats._norm_key a = Stats._norm_key b.
Proof.
  intros H. unfold Stats._norm_key. now rewrite <- !strip_lower, H.
Qed.

Lemma uniq_key_same_id (cols : list str) (id_col name_col : option str)
    (r1 r2 : list str) :
  Stats.key_part cols id_col r1 = Stats.key_part cols id_col r2 ->
  truthy (Stats.key_part cols id_col r1) = true
  \/ Stats.key_part cols name_col r1 = Stats.key_part cols name_col r2 ->
  Stats.uniq_key cols id_col name_col r1 = Stats.uniq_key cols id_col name_col r2.
Proof.
  intros Hid H. unfold Stats.uniq_key. rewrite <- Hid.
  destruct (truthy (Stats.key_part cols id_col r1)); [reflexivity|].
  destruct H as [H|H]; [discriminate|exact H].
Qed.

Lemma dedup_rows (df : DataFrame) (id_col name_col : option str) :
  forallb (fun r => Nat.eqb (length r) (length (columns df))) (rows df) = true ->
  Stats.names_column df id_col || Stats.names_column df name_col = true ->
  rows (Stats._dedup_df df id_col name_col)
  = map (fun r => set_cell (columns df) Stats.UNIQ r
                    (Stats.uniq_key (columns df) id_col name_col r))
        (drop_dup_rows (Stats.uniq_key (columns df) id_col name_col) []
                       (rows df)).
Proof.
  intros Hwf Hcol. unfold Stats._dedup_df. rewrite Hcol.
  set (key := Stats.uniq_key (columns df) id_col name_col).
  set (dfx := set_column df Stats.UNIQ (map key (rows df))).
  assert (Hrows : rows dfx
                  = map (fun r => set_cell (columns df) Stats.UNIQ r (key r))
                        (rows df)).
  { unfold dfx, set_column. simpl rows.
    generalize (rows df). intros l. induction l as [|r l IH]; simpl;
      [reflexivity|now rewrite IH]. }
  change (rows (drop_duplicates dfx Stats.UNIQ))
    with (drop_dup_rows (fun r => row_get (columns dfx) r Stats.UNIQ []) []
                        (rows dfx)).
  rewrite Hrows. apply drop_dup_rows_map.
  intros r Hr. apply row_get_set_cell.
  rewrite forallb_forall in Hwf. apply Nat.eqb_eq. now apply Hwf.
Qed.

(** C9, as the code has it: the identity key of a row is the normalised
    file id when that normalised form is not empty, else the normalised
    name.  When the table has the identifier or the name column it is
    given, [overall_stats] counts one character per identity key: the
    total is the number of distinct keys, the counted rows are, key by
    key, the first row of the table with that key, and every key of the
    table is counted; when it has neither, no row is dropped.  Two rows
    with the same file id have the same key when the id's normalised form
    is not empty, whatever their names, and also when their names differ
    only in casing.  The rows of the table have a cell for every column. *)
Theorem c9_overall_stats_dedup
    (df : DataFrame) (col_status_conc col_status_rig : str)
    (is_concluido : str -> bool) (id_col name_col : option str) :
  forallb (fun r => Nat.eqb (length r) (length (columns df))) (rows df) = true ->
  let cols := columns df in
  let key := Stats.uniq_key cols id_col name_col in
  let stats := Stats.overall_stats df col_status_conc col_status_rig
                 is_concluido id_col name_col in
  (forall c n r,
     id_col = Some c -> name_col = Some n ->
     truthy c = true -> truthy n = true ->
     key r = if truthy (Stats._norm_key (row_get cols r c []))
             then Stats._norm_key (row_get cols r c [])
             else Stats._norm_key (row_get cols r n []))
  /\ (Stats.names_column df id_col || Stats.names_column df name_col = true ->
      exists kept,
        rows (Stats._dedup_df df id_col name_col)
        = map (fun r => set_cell cols Stats.UNIQ r (key r)) kept
        /\ Stats.total stats = length kept
        /\ length kept = size (list_to_set (map key (rows df)) : gset str)
        /\ List.NoDup (map key kept)
        /\ (forall r, In r kept ->
              find (fun x => str_eqb (key x) (key r)) (rows df) = Some r)
        /\ (forall r, In r (rows df) -> In (key r) (map key kept)))
  /\ (Stats.names_column df id_col || Stats.names_column df name_col = false ->
      Stats._dedup_df df id_col name_col = df
      /\ Stats.total stats = length (rows df))
  /\ (forall c r1 r2,
        id_col = Some c -> truthy c = true ->
        row_get cols r1 c [] = row_get cols r2 c [] ->
        Stats._norm_key (row_get cols r1 c []) <> []
        \/ (forall n, name_col = Some n ->
              lower (row_get cols r1 n []) = lower (row_get cols r2 n [])) ->
        key r1 = key r2)
  /\ (forall c n r1 r2,
        id_col = Some c -> name_col = Some n ->
        truthy c = true -> truthy n = true ->
        Stats._norm_key (row_get cols r1 c []) = [] ->
        Stats._norm_key (row_get cols r2 c []) = [] ->
        (key r1 = key r2
         <-> Stats._norm_key (row_get cols r1 n [])
             = Stats._norm_key (row_get cols r2 n []))).
Proof.
  intros Hwf cols key stats.
  assert (Hkey : forall c n r,
     id_col = Some c -> name_col = Some n ->
     truthy c = true -> truthy n = true ->
     key r = if truthy (Stats._norm_key (row_get cols r c []))
             then Stats._norm_key (row_get cols r c [])
             else Stats._norm_key (row_get cols r n [])).
  { intros c n r -> -> Hc Hn. unfold key, Stats.uniq_key, Stats.key_part.
    rewrite Hc, Hn. reflexivity. }
  split; [exact Hkey|].
  split.
  { intros Hcol. exists (drop_dup_rows key [] (rows df)).
    pose proof (dedup_rows df id_col name_col Hwf Hcol) as Hrows.
    fold cols in Hrows. fold key in Hrows.
    split; [exact Hrows|].
    split.
    { unfold stats, Stats.overall_stats, len. simpl. rewrite Hrows.
      apply length_map. }
    split.
    { rewrite drop_dup_rows_length. f_equal. simpl.
      apply set_eq. intros x. rewrite elem_of_difference. split; [tauto|].
      intros H. split; [exact H|]. apply not_elem_of_empty. }
    split; [apply drop_dup_rows_NoDup|].
    split; [intros r Hr; now apply drop_dup_rows_first in Hr|].
    intros r Hr. destruct (drop_dup_rows_cover key [] (rows df) r Hr) as [[]|H].
    exact H. }
  split.
  { intros Hcol.
    assert (Hd : Stats._dedup_df df id_col name_col = df).
    { unfold Stats._dedup_df. now rewrite Hcol. }
    split; [exact Hd|].
    unfold stats, Stats.overall_stats, len. simpl. now rewrite Hd. }
  split.
  { intros c r1 r2 -> Hc Hid H. apply uniq_key_same_id.
    - simpl. rewrite Hc. now rewrite Hid.
    - simpl. rewrite Hc. destruct H as [H|H].
      + left. now apply truthy_nonempty.
      + right. destruct name_col as [n|]; simpl; [|reflexivity].
        destruct (truthy n); [|reflexivity].
        apply norm_key_casing. now apply H. }
  intros c n r1 r2 Hi Hn Hc Htn H1 H2.
  rewrite (Hkey c n r1 Hi Hn Hc Htn), (Hkey c n r2 Hi Hn Hc Htn), H1, H2.
  reflexivity.
Qed.

Lemma c9_overall_stats_witness :
  let ex := mkDF [App.COL_FILE_ID; App.COL_NAME; App.COL_STATUS_CONCEPT;
                  App.COL_STATUS_RIG]
              [[txt "SVB_MURIEL"; txt "Muriel"; txt "Concluído"; txt "Concluído"];
               [txt "SVB_MURIEL"; txt "MURIEL"; txt "Em Andamento"; txt ""];
               [txt ""; txt "Caribé"; txt "Concluído"; txt "Não iniciado"];
               [txt "svb-muriel"; txt "Velha"; txt ""; txt ""];
               [txt ""; txt " CARIBÉ"; txt ""; txt "Concluído"];
               [txt ""; txt "Zeca"; txt ""; txt ""]] in
  let stats := Stats.overall_stats ex App.COL_STATUS_CONCEPT App.COL_STATUS_RIG
                 App.is_concluido (Some App.COL_FILE_ID) (Some App.COL_NAME) in
  Stats.total stats
  = size (list_to_set
            (map (Stats.uniq_key (columns ex) (Some App.COL_FILE_ID)
                                 (Some App.COL_NAME)) (rows ex)) : gset str)
  /\ stats = Stats.mkSummary 3 2 1 1
  /\ map (fun r => nth 1 r [])
         (rows (Stats._dedup_df ex (Some App.COL_FILE_ID) (Some App.COL_NAME)))
     = [txt "Muriel"; txt "Caribé"; txt "Zeca"]
  /\ map (Stats.uniq_key (columns ex) (Some App.COL_FILE_ID)
                          (Some App.COL_NAME)) (rows ex)
     = [txt "svbmuriel"; txt "svbmuriel"; txt "caribe"; txt "svbmuriel";
        txt "caribe"; txt "zeca"]
  /\ Stats.total
       (Stats.overall_stats ex App.COL_STATUS_CONCEPT App.COL_STATUS_RIG
          App.is_concluido None None) = 6.
Proof.
  intros ex stats.
  destruct (c9_overall_stats_dedup ex App.COL_STATUS_CONCEPT App.COL_STATUS_RIG
              App.is_concluido (Some App.COL_FILE_ID) (Some App.COL_NAME)
              ltac:(vm_compute; reflexivity))
    as (_ & Hk & _).
  destruct (Hk ltac:(vm_compute; reflexivity)) as (kept & _ & Ht & Hl & _).
  destruct (c9_overall_stats_dedup ex App.COL_STATUS_CONCEPT App.COL_STATUS_RIG
              App.is_concluido None None ltac:(vm_compute; reflexivity))
    as (_ & _ & Hn & _).
  destruct (Hn ltac:(vm_compute; reflexivity)) as (_ & Hn6).
  split; [unfold stats; rewrite Ht; exact Hl|].
  split; [vm_compute; reflexivity|].
  split; [vm_compute; reflexivity|].
  split; [vm_compute; reflexivity|].
  rewrite Hn6. reflexivity.
Defined.

(** C9 fails as stated: two rows with the same non-empty file id "#" and
    the names "Ana" and "Bia" are counted as two characters, since the
    normalised form of the id is empty and the names decide. *)
Lemma c9_symbol_id_rows_not_merged :
  let ex := mkDF [App.COL_FILE_ID; App.COL_NAME; App.COL_STATUS_CONCEPT;
                  App.COL_STATUS_RIG]
              [[txt "#"; txt "Ana"; txt "Concluído"; txt ""];
               [txt "#"; txt "Bia"; txt ""; txt ""]] in
  map (fun r => nth 0 r []) (rows ex) = [txt "#"; txt "#"]
  /\ truthy (txt "#") = true
  /\ Stats._norm_key (txt "#") = []
  /\ Stats.total
       (Stats.overall_stats ex App.COL_STATUS_CONCEPT App.COL_STATUS_RIG
          App.is_concluido (Some App.COL_FILE_ID) (Some App.COL_NAME)) = 2.
Proof. repeat split; vm_compute; reflexivity. Qed.

(** * Further properties *)

(** ** The safe key, character by character *)

Lemma sub_runs_from_filter (cls : char -> bool) (b : bool) (s : str) :
  sub_runs_from cls [] b s = List.filter (fun c => negb (cls c)) s.
Proof.
  revert b; induction s as [|c r IH]; intros b; simpl; [reflexivity|].
  destruct (cls c); simpl.
  - destruct b; apply IH.
  - f_equal. apply IH.
Qed.

Lemma lstrip_by_split (p : char -> bool) (s : str) :
  exists w, s = w ++ lstrip_by p s /\ forallb p w = true.
Proof.
  induction s as [|c r (w & Hw & Hp)]; [exists []; auto|].
  simpl. destruct (p c) eqn:E.
  - exists (c :: w). simpl. rewrite E, Hp. split; [congruence|reflexivity].
  - exists []. auto.
Qed.

Lemma rstrip_by_split (p : char -> bool) (s : str) :
  exists w, s = rstrip_by p s ++ w /\ forallb p w = true.
Proof.
  unfold rstrip_by. destruct (lstrip_by_split p (rev s)) as (w & Hw & Hp).
  exists (rev w). split.
  - rewrite <- rev_app_distr, <- Hw. now rewrite rev_involutive.
  - rewrite forallb_forall in *. intros x Hx. apply Hp. now apply in_rev.
Qed.

Lemma strip_split (s : str) :
  exists w1 w2, s = w1 ++ strip s ++ w2
                /\ forallb isspace w1 = true /\ forallb isspace w2 = true.
Proof.
  unfold strip, strip_by.
  destruct (lstrip_by_split isspace s) as (w1 & H1 & P1).
  destruct (rstrip_by_split isspace (lstrip_by isspace s)) as (w2 & H2 & P2).
  exists w1, w2. rewrite <- H2. auto.
Qed.

Ltac table_miss :=
  repeat match goal with
         | |- context [N.eqb ?c ?k] =>
           replace (N.eqb c k) with false by (symmetry; apply N.eqb_neq; lia)
         end.

Lemma nfd_char_outside (c : char) :
  (c < 0xC0 \/ 0xFF < c)%N -> nfd_char c = [c].
Proof.
  intros H. unfold nfd_char, nfd_table, assoc_N. table_miss. reflexivity.
Qed.

Lemma lower_char_outside (c : char) :
  (c < 0x41 \/ (0x5A < c /\ c < 0xC0) \/ 0xDE < c)%N -> lower_char c = c.
Proof.
  intros H. unfold lower_char, is_ascii_upper, in_range.
  destruct (N.leb_spec 0x41 c), (N.leb_spec c 0x5A); simpl; try lia;
    destruct (N.leb_spec 0xC0 c), (N.leb_spec c 0xDE); simpl; try lia;
    reflexivity.
Qed.

Lemma az09_range (c : char) :
  App.az09 c = true <-> ((0x30 <= c <= 0x39) \/ (0x61 <= c <= 0x7A))%N.
Proof.
  unfold App.az09, App.not_az09, is_ascii_lower, isdecimal, in_range.
  rewrite negb_involutive, orb_true_iff, !andb_true_iff, !N.leb_le. tauto.
Qed.

Lemma combining_range (c : char) :
  combining c = true -> (0x300 <= c <= 0x36F)%N.
Proof.
  unfold combining, in_range. intros H.
  apply andb_true_iff in H as [H _]. apply andb_true_iff in H as [H1 H2].
  apply N.leb_le in H1, H2. lia.
Qed.

Lemma key_char_plain (c : char) :
  (c < 0x41 \/ (0x5A < c /\ c < 0xC0) \/ 0xFF < c)%N ->
  Spec.key_char c
  = if App.az09 c then [c] else [].
Proof.
  intros H. unfold Spec.key_char.
  rewrite lower_char_outside by lia. rewrite nfd_char_outside by lia.
  simpl. destruct (combining c) eqn:Ec; simpl.
  - apply combining_range in Ec.
    destruct (App.az09 c) eqn:Ea; [|reflexivity].
    apply az09_range in Ea. lia.
  - reflexivity.
Qed.

Lemma isspace_plain (c : char) :
  isspace c = true ->
  (c < 0x30 \/ (0x7A < c /\ c < 0xC0) \/ 0xFF < c)%N.
Proof.
  intros H.
  destruct (N.lt_ge_cases c 0x30) as [?|H1]; [now left|].
  destruct (N.le_gt_cases c 0x7A) as [H2|?].
  { exfalso. assert (isspace c = false) by not_space. congruence. }
  destruct (N.lt_ge_cases c 0xC0) as [?|H3]; [right; left; lia|].
  destruct (N.le_gt_cases c 0xFF) as [H4|?]; [|right; right; lia].
  exfalso. assert (isspace c = false) by not_space. congruence.
Qed.

Lemma key_char_space (c : char) : isspace c = true -> Spec.key_char c = [].
Proof.
  intros H. pose proof (isspace_plain c H) as Hr.
  rewrite key_char_plain by lia.
  destruct (App.az09 c) eqn:Ea; [|reflexivity].
  apply az09_range in Ea. lia.
Qed.

Lemma key_char_az09 (c : char) : App.az09 c = true -> Spec.key_char c = [c].
Proof.
  intros H. pose proof (proj1 (az09_range c) H) as Hr.
  rewrite key_char_plain by lia. now rewrite H.
Qed.

Lemma filter_flat_map {A B} (p : B -> bool) (f : A -> list B) (l : list A) :
  List.filter p (flat_map f l) = flat_map (fun x => List.filter p (f x)) l.
Proof.
  induction l as [|x l IH]; simpl; [reflexivity|].
  now rewrite List.filter_app, IH.
Qed.

Lemma flat_map_nil_on {A B} (f : A -> list B) (l : list A) :
  (forall x, In x l -> f x = []) -> flat_map f l = [].
Proof.
  induction l as [|x l IH]; simpl; intros H; [reflexivity|].
  rewrite (H x) by now left. apply IH. intros y Hy. apply H. now right.
Qed.

Lemma key_chars_spaces (w : str) :
  forallb isspace w = true -> flat_map Spec.key_char w = [].
Proof.
  intros H. apply flat_map_nil_on. intros c Hc.
  apply key_char_space. rewrite forallb_forall in H. now apply H.
Qed.

Lemma normalized_chars (t : str) :
  List.filter App.az09
    (List.filter (fun ch => negb (combining ch)) (nfd (lower t)))
  = flat_map Spec.key_char t.
Proof.
  unfold nfd, lower. rewrite flat_map_concat_map, map_map.
  rewrite <- flat_map_concat_map. rewrite !filter_flat_map. reflexivity.
Qed.

Lemma norm_key_chars (s : str) : App.norm_key s = flat_map Spec.key_char s.
Proof.
  unfold App.norm_key, sub_runs. rewrite sub_runs_from_filter.
  assert (Hf : forall l, List.filter (fun c => negb (App.not_az09 c)) l
                         = List.filter App.az09 l) by reflexivity.
  rewrite Hf. unfold App._normalize_text.
  destruct s as [|c s]; [reflexivity|]. simpl truthy. cbv iota.
  rewrite normalized_chars.
  destruct (strip_split (c :: s)) as (w1 & w2 & Hs & P1 & P2).
  rewrite Hs at 2. rewrite !flat_map_app.
  rewrite (key_chars_spaces w1 P1), (key_chars_spaces w2 P2).
  now rewrite app_nil_r.
Qed.

Lemma stats_norm_key_chars (s : str) :
  Stats._norm_key s = flat_map Spec.key_char s.
Proof.
  unfold Stats._norm_key, sub_runs. rewrite sub_runs_from_filter.
  change (List.filter (fun c => negb (App.not_az09 c)))
    with (List.filter App.az09).
  rewrite normalized_chars.
  destruct (strip_split s) as (w1 & w2 & Hs & P1 & P2).
  rewrite Hs at 2. rewrite !flat_map_app.
  rewrite (key_chars_spaces w1 P1), (key_chars_spaces w2 P2).
  now rewrite app_nil_r.
Qed.

Lemma key_chars_az09 (s : str) :
  forallb App.az09 s = true -> flat_map Spec.key_char s = s.
Proof.
  induction s as [|c s IH]; simpl; [reflexivity|]. intros H.
  apply andb_true_iff in H as [Hc Hs]. rewrite (key_char_az09 c Hc), IH by exact Hs.
  reflexivity.
Qed.

Lemma lower_char_range (c : char) :
  lower_char c = c
  \/ ((0x5A < lower_char c /\ lower_char c < 0xC0) \/ 0xDE < lower_char c)%N.
Proof.
  unfold lower_char.
  destruct (is_ascii_upper c) eqn:E1.
  { unfold is_ascii_upper, in_range in E1.
    apply andb_true_iff in E1 as [H1 H2]. apply N.leb_le in H1, H2.
    right. left. lia. }
  destruct (in_range 192 222 c && negb (N.eqb c 215)) eqn:E2; [|now left].
  apply andb_true_iff in E2 as [E2 _]. unfold in_range in E2.
  apply andb_true_iff in E2 as [H1 H2]. apply N.leb_le in H1, H2.
  right. right. lia.
Qed.

Lemma lower_char_idem (c : char) : lower_char (lower_char c) = lower_char c.
Proof.
  destruct (lower_char_range c) as [H|H].
  - rewrite H. exact H.
  - apply lower_char_outside. lia.
Qed.

Lemma key_char_lower (c : char) :
  Spec.key_char (lower_char c) = Spec.key_char c.
Proof. unfold Spec.key_char. now rewrite lower_char_idem. Qed.

Lemma key_char_ascii_upper (c : char) :
  is_ascii_upper c = true -> Spec.key_char c = [(c + 32)%N].
Proof.
  intros H. unfold Spec.key_char, lower_char. rewrite H.
  unfold is_ascii_upper, in_range in H. apply andb_true_iff in H as [H1 H2].
  apply N.leb_le in H1, H2. rewrite nfd_char_outside by lia. simpl.
  destruct (combining (c + 32)%N) eqn:Ec; simpl.
  { apply combining_range in Ec. lia. }
  destruct (App.az09 (c + 32)%N) eqn:Ea; [reflexivity|].
  assert (App.az09 (c + 32)%N = true) by (apply az09_range; lia). congruence.
Qed.

(** X1: a safe key holds only the characters a-z and 0-9, taking the key
    of a key changes nothing, and the statistics module computes the same
    key as the application. *)
Theorem x1_norm_key_alphabet_idempotent (s : str) :
  forallb App.az09 (App.norm_key s) = true
  /\ App.norm_key (App.norm_key s) = App.norm_key s
  /\ Stats._norm_key s = App.norm_key s.
Proof.
  split; [apply norm_key_az09|]. split.
  - rewrite (norm_key_chars (App.norm_key s)).
    apply key_chars_az09, norm_key_az09.
  - now rewrite stats_norm_key_chars, norm_key_chars.
Qed.

(** X2: the safe key is computed character by character: the key of a
    concatenation is the concatenation of the keys; white space and ASCII
    punctuation contribute nothing wherever they stand, an ASCII capital
    contributes its small letter, a small letter or digit itself. *)
Theorem x2_norm_key_concatenation (a b : str) (c : char) :
  App.norm_key (a ++ b) = App.norm_key a ++ App.norm_key b
  /\ (isspace c = true -> App.norm_key (a ++ c :: b) = App.norm_key (a ++ b))
  /\ ((c < 0x80)%N -> is_ascii_alnum c = false ->
      App.norm_key (a ++ c :: b) = App.norm_key (a ++ b))
  /\ (is_ascii_upper c = true ->
      App.norm_key (a ++ c :: b)
      = App.norm_key a ++ (c + 32)%N :: App.norm_key b)
  /\ (App.az09 c = true ->
      App.norm_key (a ++ c :: b) = App.norm_key a ++ c :: App.norm_key b).
Proof.
  rewrite !norm_key_chars, !flat_map_app. simpl.
  split; [reflexivity|]. split.
  { intros H. now rewrite (key_char_space c H). }
  split.
  { intros Hc Ha. unfold is_ascii_alnum, isdecimal, is_ascii_upper,
      is_ascii_lower, in_range in Ha.
    apply orb_false_iff in Ha as [Ha Hl]. apply orb_false_iff in Ha as [Hd Hu].
    rewrite key_char_plain.
    - destruct (App.az09 c) eqn:Ea; [|reflexivity].
      apply az09_range in Ea. apply andb_false_iff in Hd, Hl.
      rewrite !N.leb_gt in Hd, Hl. lia.
    - apply andb_false_iff in Hu. rewrite !N.leb_gt in Hu. lia. }
  split.
  { intros H. now rewrite (key_char_ascii_upper c H). }
  intros H. now rewrite (key_char_az09 c H).
Qed.

Lemma x2_norm_key_concatenation_witness :
  App.norm_key (txt "Tia " ++ txt " Rebimboca") = txt "tiarebimboca"
  /\ App.norm_key (txt "SVB" ++ 0x5F%N :: txt "RIG")
     = App.norm_key (txt "SVB" ++ txt "RIG")
  /\ App.norm_key (txt "a" ++ 0x42%N :: txt "c") = txt "abc".
Proof.
  destruct (x2_norm_key_concatenation (txt "Tia ") (txt " Rebimboca") 0%N)
    as (H1 & _).
  destruct (x2_norm_key_concatenation (txt "SVB") (txt "RIG") 0x5F%N)
    as (_ & _ & H2 & _).
  destruct (x2_norm_key_concatenation (txt "a") (txt "c") 0x42%N)
    as (_ & _ & _ & H3 & _).
  split; [etransitivity; [exact H1|vm_compute; reflexivity]|].
  split; [exact (H2 eq_refl eq_refl)|].
  etransitivity; [exact (H3 eq_refl)|vm_compute; reflexivity].
Defined.

(** X3: the safe key ignores casing and surrounding white space: the key
    of the lower-cased text and the key of the stripped text are the key
    of the text. *)
Theorem x3_norm_key_casing_and_strip (s : str) :
  App.norm_key (lower s) = App.norm_key s
  /\ App.norm_key (strip s) = App.norm_key s.
Proof.
  rewrite !norm_key_chars. split.
  - unfold lower. rewrite flat_map_concat_map, map_map,
      <- flat_map_concat_map.
    apply flat_map_ext. intros c. apply key_char_lower.
  - destruct (strip_split s) as (w1 & w2 & Hs & P1 & P2).
    rewrite Hs at 2. rewrite !flat_map_app.
    rewrite (key_chars_spaces w1 P1), (key_chars_spaces w2 P2).
    now rewrite app_nil_r.
Qed.

(** ** Header reconciliation: what it keeps *)

Lemma rename_entry_target (raw t : str) :
  App.rename_entry raw = Some t -> t = raw \/ In t App.canonical_headers.
Proof.
  assert (Hc : forall c, str_in c App.canonical_headers = true ->
                         c = raw \/ In c App.canonical_headers).
  { intros c H. right. now apply str_in_In. }
  unfold App.rename_entry.
  destruct (endswith (txt ".1") raw);
    repeat match goal with
           | |- (if ?b then _ else _) = Some _ -> _ => destruct b
           end;
    intros H; try discriminate; injection H as <-;
    first [ left; exact eq_refl | apply Hc; vm_compute; reflexivity ].
Qed.

(** X4: reconciling the headers never touches a cell and never adds,
    drops or reorders a column; each label is either kept or replaced by
    one of the fifteen internal column names. *)
Theorem x4_rename_headers_keeps_shape (df : DataFrame) :
  rows (App._rename_headers_for_schema df) = rows df
  /\ length (columns (App._rename_headers_for_schema df))
     = length (columns df)
  /\ Forall2 (fun c c' => c' = c \/ In c' App.canonical_headers)
             (columns df) (columns (App._rename_headers_for_schema df)).
Proof.
  split.
  { unfold App._rename_headers_for_schema.
    destruct (bool_decide (App.ren_of (columns df) ∅ = ∅)); reflexivity. }
  rewrite rename_headers_columns. split; [apply length_map|].
  induction (columns df) as [|c cols IH]; simpl; constructor; [|exact IH].
  destruct (App.rename_entry c) as [t|] eqn:E; simpl; [|now left].
  now apply rename_entry_target.
Qed.

Lemma str_in_two (s a b : str) :
  str_in s [a; b] = true <-> s = a \/ s = b.
Proof.
  unfold str_in. simpl. rewrite orb_false_r, orb_true_iff, !str_eqb_eq.
  tauto.
Qed.

(** X5: the owner columns are paired by the ".1" suffix alone: a header is
    taken for the Concept owner exactly when its text without the suffix
    has the safe key "responsavel" or "respondavel" and it carries the
    suffix, and for the Rig owner exactly when that key comes without the
    suffix. *)
Theorem x5_owner_pairing_by_suffix (raw : str) :
  (App.rename_entry raw = Some App.COL_RESP_CONCEPT <->
   endswith (txt ".1") raw = true
   /\ str_in (App.norm_key (slice_drop_last 2 raw))
             [txt "responsavel"; txt "respondavel"] = true)
  /\ (App.rename_entry raw = Some App.COL_RESP_RIG <->
      endswith (txt ".1") raw = false
      /\ str_in (App.norm_key raw)
                [txt "responsavel"; txt "respondavel"] = true).
Proof.
  split; split.
  - unfold App.rename_entry.
    destruct (endswith (txt ".1") raw) eqn:Es;
      repeat match goal with
             | |- (if ?b then _ else _) = Some _ -> _ => destruct b eqn:?
             end;
      intros H; try discriminate;
      first [ split; reflexivity
            | injection H as H;
              first [ vm_compute in H; discriminate
                    | subst raw;
                      match goal with
                      | E : _ = true |- _ => vm_compute in E; discriminate
                      end ] ].
  - intros [Hs Hk]. apply str_in_two in Hk.
    unfold App.rename_entry. rewrite Hs.
    destruct Hk as [Hk|Hk]; rewrite Hk; reflexivity.
  - unfold App.rename_entry.
    destruct (endswith (txt ".1") raw) eqn:Es;
      repeat match goal with
             | |- (if ?b then _ else _) = Some _ -> _ => destruct b eqn:?
             end;
      intros H; try discriminate;
      first [ split; reflexivity
            | injection H as H;
              first [ vm_compute in H; discriminate
                    | subst raw;
                      match goal with
                      | E : _ = true |- _ => vm_compute in E; discriminate
                      end ] ].
  - intros [Hs Hk]. apply str_in_two in Hk.
    unfold App.rename_entry. rewrite Hs.
    destruct Hk as [Hk|Hk]; rewrite Hk; reflexivity.
Qed.

(** ** Episodes: what a field can yield and what the table keeps *)

Lemma int_of_digits_from_nonneg (ds : str) (acc : Z) :
  (0 <= acc)%Z ->
  (0 <= fold_left (fun a c => 10 * a + digit_val c) ds acc)%Z.
Proof.
  revert acc; induction ds as [|d ds IH]; intros acc H; simpl; [exact H|].
  apply IH. unfold digit_val. lia.
Qed.

Lemma int_of_digits_nonneg (ds : str) : (0 <= int_of_digits ds)%Z.
Proof. apply int_of_digits_from_nonneg. lia. Qed.

(** X6: a parsed episode field never mixes the wildcard with numbers and
    never holds a negative number: the result is the wildcard alone or a
    list of non-negative integers (a sign or a dash between digits is a
    separator like any other). *)
Theorem x6_parse_episode_field_shape (s : str) :
  (App.parse_episode_field s = [PyStr (txt "Todos")]
   \/ Forall (fun v => exists z, v = PyInt z /\ (0 <= z)%Z)
             (App.parse_episode_field s))
  /\ App.parse_episode_field (txt "-5") = [PyInt 5]
  /\ App.parse_episode_field (txt "101-103") = [PyInt 101; PyInt 103].
Proof.
  split; [|split; vm_compute; reflexivity].
  destruct (parse_episode_field_cases s) as [H|[H|[runs H]]]; rewrite H.
  - right. constructor.
  - now left.
  - right. apply Forall_forall. intros v Hv. apply list_elem_of_In in Hv.
    apply in_map_iff in Hv as (n & <- & _).
    eexists. split; [reflexivity|apply int_of_digits_nonneg].
Qed.

Lemma kept_episodes_explicit (U : list Z) (ep : str) :
  Spec.has_wildcard (App.parse_episode_field ep) = false ->
  App.kept_episodes U ep = App.parse_episode_field ep.
Proof.
  intros Hw. unfold App.kept_episodes.
  assert (Hx : (if truthy_list U
                then App._expand U (App.parse_episode_field ep)
                else App.parse_episode_field ep)
               = App.parse_episode_field ep).
  { destruct (truthy_list U); [|reflexivity]. unfold App._expand.
    fold (Spec.has_wildcard (App.parse_episode_field ep)). now rewrite Hw. }
  cbv zeta. rewrite Hx.
  destruct (parse_episode_field_cases ep) as [H|[H|[runs H]]]; rewrite H in *.
  - reflexivity.
  - discriminate.
  - destruct runs as [|n runs]; [reflexivity|].
    cbn [map explode_cell].
    change (PyInt (int_of_digits n)
            :: map (fun n0 => PyInt (int_of_digits n0)) runs)
      with (map (fun n0 => PyInt (int_of_digits n0)) (n :: runs)).
    rewrite <- (map_map int_of_digits PyInt). apply filter_is_int_ints.
Qed.

Lemma explode_row_EP_LIST (cols : list str) (U : list Z) (r : list str) :
  map App.EP_LIST (App.explode_row cols U r)
  = App.kept_episodes U (row_get cols r App.COL_EP []).
Proof. unfold App.explode_row. rewrite map_map. simpl. apply map_id. Qed.

(** X7: the episode column of the exploded table, for the whole table:
    record after record, a wildcard record contributes the known episodes
    and any other record the integers of its own field, in order and with
    their repetitions, whatever the known episodes are. *)
Theorem x7_exploded_episode_column
    (df : DataFrame) (U : list Z) (out : list App.ExpRow) :
  App.build_base_exp df U = Some out ->
  map App.EP_LIST out
  = flat_map
      (fun r =>
         let parsed :=
           App.parse_episode_field (row_get (columns df) r App.COL_EP []) in
         if Spec.has_wildcard parsed then map PyInt U else parsed)
      (rows df).
Proof.
  intros Hb. destruct (build_base_exp_Some df U out Hb) as [-> _].
  generalize (rows df). intros l.
  induction l as [|r rs IH]; [reflexivity|].
  cbn [flat_map]. rewrite map_app, IH, explode_row_EP_LIST.
  apply (f_equal (fun x => x ++ _)). cbv zeta.
  destruct (Spec.has_wildcard
              (App.parse_episode_field (row_get (columns df) r App.COL_EP [])))
    eqn:Ew.
  - now apply kept_episodes_wildcard.
  - now apply kept_episodes_explicit.
Qed.

Lemma x7_exploded_episode_column_witness :
  exists out,
    App.build_base_exp
      (mkDF [App.COL_EP; App.COL_NAME; App.COL_FILE_ID]
         [[txt "7, 7 e 2"; txt "Ana"; txt "SVB_ANA"];
          [txt "TODOS"; txt "Bia"; txt "SVB_BIA"];
          [txt "n/d"; txt "Caribé"; txt "SVB_CARIBE"]]) [2; 7]%Z = Some out
    /\ map App.EP_LIST out = [PyInt 7; PyInt 7; PyInt 2; PyInt 2; PyInt 7].
Proof.
  eexists. split; [vm_compute; reflexivity|].
  etransitivity;
    [apply (x7_exploded_episode_column
              (mkDF [App.COL_EP; App.COL_NAME; App.COL_FILE_ID]
                 [[txt "7, 7 e 2"; txt "Ana"; txt "SVB_ANA"];
                  [txt "TODOS"; txt "Bia"; txt "SVB_BIA"];
                  [txt "n/d"; txt "Caribé"; txt "SVB_CARIBE"]]) [2; 7]%Z);
     vm_compute; reflexivity|].
  vm_compute. reflexivity.
Defined.

(** X8: the completion flags of an exploded row are those of its source
    record, which is a row of the table: each flag tells whether the
    status cell normalises to "concluido", the joint flag is their
    conjunction, and a table without a status column raises nothing, its
    flag being false on every row. *)
Theorem x8_exploded_flags
    (df : DataFrame) (U : list Z) (out : list App.ExpRow) :
  App.build_base_exp df U = Some out ->
  Forall (fun e =>
            In (App.cells e) (rows df)
            /\ App.ok_c e = App.is_concluido
                 (row_get (columns df) (App.cells e) App.COL_STATUS_CONCEPT [])
            /\ App.ok_r e = App.is_concluido
                 (row_get (columns df) (App.cells e) App.COL_STATUS_RIG [])
            /\ App.ok_both e = App.ok_c e && App.ok_r e
            /\ (has_column df App.COL_STATUS_CONCEPT = false ->
                App.ok_c e = false /\ App.ok_both e = false)
            /\ (has_column df App.COL_STATUS_RIG = false ->
                App.ok_r e = false /\ App.ok_both e = false)) out.
Proof.
  intros Hb. destruct (build_base_exp_Some df U out Hb) as [-> _].
  apply Forall_forall. intros e He. apply list_elem_of_In in He.
  apply in_flat_map in He as (r & Hr & He).
  unfold App.explode_row in He. apply in_map_iff in He as (v & <- & _).
  simpl. split; [exact Hr|]. split; [reflexivity|]. split; [reflexivity|].
  split; [reflexivity|].
  assert (Hmiss : forall c, has_column df c = false ->
                            row_get (columns df) r c [] = []).
  { intros c Hc. unfold row_get, has_column in *.
    rewrite index_of_str_in in Hc.
    destruct (index_of c (columns df)); [discriminate|reflexivity]. }
  split; intros Hc; rewrite (Hmiss _ Hc); split; try reflexivity.
  apply andb_false_r.
Qed.

Lemma x8_exploded_flags_witness :
  exists out,
    App.build_base_exp
      (mkDF [App.COL_EP; App.COL_NAME; App.COL_FILE_ID; App.COL_STATUS_RIG]
         [[txt "1"; txt "Ana"; txt "SVB_ANA"; txt " CONCLUÍDO "]]) [1]%Z
    = Some out
    /\ map (fun e => (App.ok_c e, App.ok_r e, App.ok_both e)) out
       = [(false, true, false)]
    /\ Forall (fun e => App.ok_both e = App.ok_c e && App.ok_r e) out.
Proof.
  eexists. split; [vm_compute; reflexivity|].
  split; [vm_compute; reflexivity|].
  eapply Forall_impl;
    [apply (x8_exploded_flags
              (mkDF [App.COL_EP; App.COL_NAME; App.COL_FILE_ID;
                     App.COL_STATUS_RIG]
                 [[txt "1"; txt "Ana"; txt "SVB_ANA"; txt " CONCLUÍDO "]])
              [1]%Z); vm_compute; reflexivity|].
  intros e (_ & _ & _ & H & _). exact H.
Defined.

(** ** Image resolver: the identifier steps *)

Lemma try_each_here (idx : dict str) (c : str) (rest : list str) :
  truthy (dict_get idx (App.norm_key c) []) = true ->
  App.try_each idx (c :: rest) = Some (dict_get idx (App.norm_key c) []).
Proof.
  intros H. unfold App.try_each, App.try_match. simpl. now rewrite H.
Qed.

Lemma try_each_skip (idx : dict str) (c : str) (rest : list str) :
  dict_get idx (App.norm_key c) [] = [] ->
  App.try_each idx (c :: rest) = App.try_each idx rest.
Proof.
  intros H. unfold App.try_each, App.try_match. simpl. now rewrite H.
Qed.

Lemma try_each_nil (idx : dict str) : App.try_each idx [] = None.
Proof. reflexivity. Qed.

(** X9: the identifier steps of the resolver, in their order.  For an
    identifier that carries the project prefix, whatever the name: the
    entry under the identifier's own key is returned when there is one;
    otherwise an SVB_RIG_ identifier falls back to the SVB_PER_ key and
    then to the bare SVB_ key, an SVB_PER_ identifier to the SVB_RIG_ key
    and then to the bare key, and a bare identifier to the SVB_RIG_ key
    and then to the SVB_PER_ key. *)
Theorem x9_identifier_cascade (img_idx : dict str) (file_id name : str) :
  let fid := strip file_id in
  let look := fun c => dict_get img_idx (App.norm_key c) [] in
  let result := App.find_image_for img_idx file_id name in
  truthy fid = true ->
  startswith (txt "SVB_") (upper fid) = true ->
  (truthy (look fid) = true -> result = look fid)
  /\ (look fid = [] -> startswith (txt "SVB_RIG_") (upper fid) = true ->
      (truthy (look (txt "SVB_PER_" ++ slice_from 8 fid)) = true ->
       result = look (txt "SVB_PER_" ++ slice_from 8 fid))
      /\ (look (txt "SVB_PER_" ++ slice_from 8 fid) = [] ->
          truthy (look (txt "SVB_" ++ slice_from 8 fid)) = true ->
          result = look (txt "SVB_" ++ slice_from 8 fid)))
  /\ (look fid = [] -> startswith (txt "SVB_RIG_") (upper fid) = false ->
      startswith (txt "SVB_PER_") (upper fid) = true ->
      (truthy (look (txt "SVB_RIG_" ++ slice_from 8 fid)) = true ->
       result = look (txt "SVB_RIG_" ++ slice_from 8 fid))
      /\ (look (txt "SVB_RIG_" ++ slice_from 8 fid) = [] ->
          truthy (look (txt "SVB_" ++ slice_from 8 fid)) = true ->
          result = look (txt "SVB_" ++ slice_from 8 fid)))
  /\ (look fid = [] -> startswith (txt "SVB_RIG_") (upper fid) = false ->
      startswith (txt "SVB_PER_") (upper fid) = false ->
      (truthy (look (txt "SVB_RIG_" ++ slice_from 4 fid)) = true ->
       result = look (txt "SVB_RIG_" ++ slice_from 4 fid))
      /\ (look (txt "SVB_RIG_" ++ slice_from 4 fid) = [] ->
          truthy (look (txt "SVB_PER_" ++ slice_from 4 fid)) = true ->
          result = look (txt "SVB_PER_" ++ slice_from 4 fid))).
Proof.
  intros fid look result Hf Hp.
  unfold result, App.find_image_for. fold fid.
  unfold App.match_by_id. rewrite Hf, Hp. cbn [andb].
  split.
  { intros H. now rewrite (try_each_here _ _ _ H). }
  split.
  { intros H0 Hr. rewrite (try_each_skip _ _ _ H0), try_each_nil. cbv iota.
    rewrite Hr. split.
    - intros H. now rewrite (try_each_here _ _ _ H).
    - intros H1 H. rewrite (try_each_skip _ _ _ H1).
      now rewrite (try_each_here _ _ _ H). }
  split.
  { intros H0 Hr Hq. rewrite (try_each_skip _ _ _ H0), try_each_nil.
    cbv iota. rewrite Hr, Hq. split.
    - intros H. now rewrite (try_each_here _ _ _ H).
    - intros H1 H. rewrite (try_each_skip _ _ _ H1).
      now rewrite (try_each_here _ _ _ H). }
  intros H0 Hr Hq. rewrite (try_each_skip _ _ _ H0), try_each_nil.
  cbv iota. rewrite Hr, Hq. split.
  - intros H. now rewrite (try_each_here _ _ _ H).
  - intros H1 H. rewrite (try_each_skip _ _ _ H1).
    now rewrite (try_each_here _ _ _ H).
Qed.

Lemma x9_identifier_cascade_witness :
  App.find_image_for
    [(txt "svbcuruca", txt "personagens/SVB_CURUCA.png");
     (txt "svbpercaribe", txt "personagens/SVB_PER_CARIBE.png")]
    (txt " svb_rig_caribe ") (txt "outro nome")
  = txt "personagens/SVB_PER_CARIBE.png"
  /\ App.find_image_for
       [(txt "svbcuruca", txt "personagens/SVB_CURUCA.png");
        (txt "svbpercaribe", txt "personagens/SVB_PER_CARIBE.png")]
       (txt "SVB_CURUCA") [] = txt "personagens/SVB_CURUCA.png".
Proof.
  split.
  - destruct (x9_identifier_cascade
                [(txt "svbcuruca", txt "personagens/SVB_CURUCA.png");
                 (txt "svbpercaribe", txt "personagens/SVB_PER_CARIBE.png")]
                (txt " svb_rig_caribe ") (txt "outro nome")
                ltac:(vm_compute; reflexivity) ltac:(vm_compute; reflexivity))
      as (_ & H & _).
    destruct (H ltac:(vm_compute; reflexivity) ltac:(vm_compute; reflexivity))
      as (H1 & _).
    etransitivity; [apply H1; vm_compute; reflexivity|].
    vm_compute. reflexivity.
  - destruct (x9_identifier_cascade
                [(txt "svbcuruca", txt "personagens/SVB_CURUCA.png");
                 (txt "svbpercaribe", txt "personagens/SVB_PER_CARIBE.png")]
                (txt "SVB_CURUCA") []
                ltac:(vm_compute; reflexivity) ltac:(vm_compute; reflexivity))
      as (H & _).
    etransitivity; [apply H; vm_compute; reflexivity|].
    vm_compute. reflexivity.
Defined.

(** X10: an identifier without the project prefix is never looked up: the
    resolver answers as it does for an empty identifier, by the name
    alone, and with a blank name as well it answers the empty string. *)
Theorem x10_unprefixed_identifier_ignored
    (img_idx : dict str) (file_id name : str) :
  startswith (txt "SVB_") (upper (strip file_id)) = false ->
  App.find_image_for img_idx file_id name = App.find_image_for img_idx [] name
  /\ (strip name = [] -> App.find_image_for img_idx file_id name = []).
Proof.
  intros H.
  assert (Hn : App.match_by_id img_idx (strip file_id) = None).
  { unfold App.match_by_id. rewrite H, andb_false_r. reflexivity. }
  unfold App.find_image_for. rewrite Hn. split; [reflexivity|].
  intros ->. reflexivity.
Qed.

Lemma x10_unprefixed_identifier_witness :
  App.find_image_for
    [(txt "svbrigmuriel", txt "personagens/SVB_RIG_MURIEL.png")]
    (txt "RIG_MURIEL") (txt "  ") = []
  /\ App.find_image_for
       [(txt "svbrigmuriel", txt "personagens/SVB_RIG_MURIEL.png")]
       (txt "RIG_MURIEL") (txt "Muriel")
     = App.find_image_for
         [(txt "svbrigmuriel", txt "personagens/SVB_RIG_MURIEL.png")]
         [] (txt "Muriel").
Proof.
  split.
  - apply (proj2 (x10_unprefixed_identifier_ignored
                    [(txt "svbrigmuriel", txt "personagens/SVB_RIG_MURIEL.png")]
                    (txt "RIG_MURIEL") (txt "  ")
                    ltac:(vm_compute; reflexivity))).
    vm_compute. reflexivity.
  - exact (proj1 (x10_unprefixed_identifier_ignored
                    [(txt "svbrigmuriel", txt "personagens/SVB_RIG_MURIEL.png")]
                    (txt "RIG_MURIEL") (txt "Muriel")
                    ltac:(vm_compute; reflexivity))).
Defined.

(** ** The image index *)

Lemma dict_mem_In {V} (d : dict V) (k : str) :
  dict_mem d k = true <-> In k (map fst d).
Proof.
  induction d as [|[k' v] d IH]; simpl; [split; [discriminate|tauto]|].
  rewrite orb_true_iff, IH, str_eqb_eq. split; intros [H|H]; auto.
Qed.

Lemma dict_mem_app {V} (d1 d2 : dict V) (k : str) :
  dict_mem (d1 ++ d2) k = dict_mem d1 k || dict_mem d2 k.
Proof.
  induction d1 as [|[k' v] d1 IH]; simpl; [reflexivity|].
  now rewrite IH, orb_assoc.
Qed.

Lemma dict_get_app {V} (d1 d2 : dict V) (k : str) (dflt : V) :
  dict_get (d1 ++ d2) k dflt
  = if dict_mem d1 k then dict_get d1 k dflt else dict_get d2 k dflt.
Proof.
  induction d1 as [|[k' v] d1 IH]; simpl; [reflexivity|].
  destruct (str_eqb k k'); [reflexivity|exact IH].
Qed.

Lemma index_file_cases (idx : dict str) (f : str * str * str) :
  App.index_file idx f
  = if Spec.indexable f && negb (dict_mem idx (Spec.file_key f))
    then idx ++ [(Spec.file_key f, Spec.file_path f)] else idx.
Proof.
  destruct f as [[stem suffix] path].
  unfold App.index_file, Spec.indexable, Spec.file_key, Spec.file_path.
  destruct (str_in (lower suffix) App.image_suffixes); [|reflexivity].
  destruct (startswith (txt "SVB_") (upper stem)); [|reflexivity].
  reflexivity.
Qed.

Lemma index_fold_get (files : list (str * str * str)) (idx : dict str)
    (k dflt : str) :
  dict_get (fold_left App.index_file files idx) k dflt
  = if dict_mem idx k then dict_get idx k dflt
    else match find (fun f => Spec.indexable f && str_eqb k (Spec.file_key f))
                    files with
         | Some f => Spec.file_path f
         | None => dflt
         end.
Proof.
  revert idx; induction files as [|f files IH]; intros idx; simpl.
  - destruct (dict_mem idx k) eqn:E; [reflexivity|].
    clear -E. induction idx as [|[k' v] idx IHi]; simpl in *; [reflexivity|].
    apply orb_false_iff in E as [E1 E2]. rewrite E1. now apply IHi.
  - rewrite IH, index_file_cases.
    destruct (Spec.indexable f) eqn:Ei; simpl; [|reflexivity].
    destruct (dict_mem idx (Spec.file_key f)) eqn:Em; simpl.
    + destruct (dict_mem idx k) eqn:Ek; [reflexivity|].
      destruct (str_eqb k (Spec.file_key f)) eqn:Ef; [|reflexivity].
      apply str_eqb_eq in Ef. congruence.
    + rewrite dict_mem_app, dict_get_app. simpl. rewrite orb_false_r.
      destruct (dict_mem idx k) eqn:Ek; simpl; [reflexivity|].
      destruct (str_eqb k (Spec.file_key f)); reflexivity.
Qed.

Lemma index_fold_mem (files : list (str * str * str)) (idx : dict str)
    (k : str) :
  dict_mem (fold_left App.index_file files idx) k
  = dict_mem idx k
    || existsb (fun f => Spec.indexable f && str_eqb k (Spec.file_key f)) files.
Proof.
  revert idx; induction files as [|f files IH]; intros idx; simpl.
  - now rewrite orb_false_r.
  - rewrite IH, index_file_cases.
    destruct (Spec.indexable f) eqn:Ei; simpl; [|reflexivity].
    destruct (dict_mem idx (Spec.file_key f)) eqn:Em; simpl.
    + destruct (str_eqb k (Spec.file_key f)) eqn:Ef; [|reflexivity].
      apply str_eqb_eq in Ef. subst k. rewrite Em. reflexivity.
    + rewrite dict_mem_app. simpl. rewrite orb_false_r, orb_assoc. reflexivity.
Qed.

Lemma index_fold_NoDup (files : list (str * str * str)) (idx : dict str) :
  NoDup (map fst idx) -> NoDup (map fst (fold_left App.index_file files idx)).
Proof.
  revert idx; induction files as [|f files IH]; intros idx H; simpl; [exact H|].
  apply IH. rewrite index_file_cases.
  destruct (Spec.indexable f && negb (dict_mem idx (Spec.file_key f))) eqn:E;
    [|exact H].
  apply andb_true_iff in E as [_ E]. apply negb_true_iff in E.
  rewrite map_app. simpl. apply NoDup_app. split; [exact H|]. split.
  - intros x Hx Hx'. apply list_elem_of_In in Hx.
    apply list_elem_of_singleton in Hx'. subst x.
    apply dict_mem_In in Hx. congruence.
  - apply NoDup_singleton.
Qed.

(** X11: the image index holds one entry per key, and looking a key up
    gives the path of the first directory entry, in listing order, that
    has an image suffix, the project prefix and that key; later entries
    with the same key are never seen, and a key of no such entry is
    absent. *)
Theorem x11_index_images_first_wins
    (files : list (str * str * str)) (k dflt : str) :
  NoDup (map fst (App.index_images files))
  /\ dict_get (App.index_images files) k dflt
     = match find (fun f => Spec.indexable f && str_eqb k (Spec.file_key f))
                  files with
       | Some f => Spec.file_path f
       | None => dflt
       end
  /\ dict_mem (App.index_images files) k
     = existsb (fun f => Spec.indexable f && str_eqb k (Spec.file_key f)) files
  /\ App.index_images
       [(txt "SVB_RIG_Ana", txt ".PNG", txt "p/SVB_RIG_Ana.PNG");
        (txt "readme", txt ".txt", txt "p/readme.txt");
        (txt "muriel", txt ".png", txt "p/muriel.png");
        (txt "svb_rig-ana", txt ".jpg", txt "p/svb_rig-ana.jpg");
        (txt "SVB_", txt ".gif", txt "p/SVB_.gif")]
     = [(txt "svbrigana", txt "p/SVB_RIG_Ana.PNG"); (txt "svb", txt "p/SVB_.gif")].
Proof.
  unfold App.index_images. split.
  { apply index_fold_NoDup. constructor. }
  split; [rewrite index_fold_get; reflexivity|].
  split; [rewrite index_fold_mem; reflexivity|].
  vm_compute. reflexivity.
Qed.

(** X12: indexing a directory and resolving the stem of one of its indexed
    files gives back a file of that directory with the same key: the first
    one in listing order, hence the file itself when no earlier file
    shares its key.  The stem is taken without surrounding white space and
    the paths of the listing are not empty. *)
Theorem x12_index_then_resolve
    (files : list (str * str * str)) (stem suffix path name : str) :
  In (stem, suffix, path) files ->
  Spec.indexable (stem, suffix, path) = true ->
  strip stem = stem ->
  (forall f, In f files -> truthy (Spec.file_path f) = true) ->
  exists f,
    find (fun f => Spec.indexable f
                   && str_eqb (App.norm_key stem) (Spec.file_key f)) files
    = Some f
    /\ In f files /\ Spec.file_key f = App.norm_key stem
    /\ App.find_image_for (App.index_images files) stem name
       = Spec.file_path f.
Proof.
  intros Hin Hix Hstrip Hpaths.
  destruct (find (fun f => Spec.indexable f
                           && str_eqb (App.norm_key stem) (Spec.file_key f))
                 files) as [f|] eqn:Ef.
  2:{ exfalso. pose proof (find_none _ _ Ef _ Hin) as H. cbv beta in H.
      change (Spec.file_key (stem, suffix, path)) with (App.norm_key stem) in H.
      rewrite Hix, str_eqb_refl in H. discriminate. }
  exists f. split; [reflexivity|].
  pose proof (find_some _ _ Ef) as [Hf Hk].
  apply andb_true_iff in Hk as [_ Hk]. apply str_eqb_eq in Hk.
  split; [exact Hf|]. split; [now symmetry|].
  assert (Hget : dict_get (App.index_images files) (App.norm_key stem) []
                 = Spec.file_path f).
  { unfold App.index_images. rewrite index_fold_get. simpl. now rewrite Ef. }
  unfold Spec.indexable in Hix.
  apply andb_true_iff in Hix as [Hix Hkey].
  apply andb_true_iff in Hix as [_ Hpre].
  assert (Hne : truthy stem = true).
  { destruct stem; [discriminate Hkey|reflexivity]. }
  unfold App.find_image_for, App.match_by_id.
  rewrite Hstrip, Hne, Hpre. cbn [andb].
  rewrite try_each_here; rewrite Hget; [reflexivity|now apply Hpaths].
Qed.

Lemma x12_index_then_resolve_witness :
  App.find_image_for
    (App.index_images
       [(txt "SVB_RIG_Ana", txt ".png", txt "p/SVB_RIG_Ana.png");
        (txt "svb_rig-ana", txt ".jpg", txt "p/svb_rig-ana.jpg")])
    (txt "svb_rig-ana") (txt "Ana")
  = txt "p/SVB_RIG_Ana.png".
Proof.
  destruct (x12_index_then_resolve
              [(txt "SVB_RIG_Ana", txt ".png", txt "p/SVB_RIG_Ana.png");
               (txt "svb_rig-ana", txt ".jpg", txt "p/svb_rig-ana.jpg")]
              (txt "svb_rig-ana") (txt ".jpg") (txt "p/svb_rig-ana.jpg")
              (txt "Ana"))
    as (f & Hfind & _ & _ & Hres).
  - right. left. reflexivity.
  - vm_compute. reflexivity.
  - vm_compute. reflexivity.
  - intros f [<-|[<-|[]]]; reflexivity.
  - rewrite Hres. vm_compute in Hfind. injection Hfind as <-. reflexivity.
Defined.

(** ** Summary counts *)

Lemma column_length (df : DataFrame) (c : str) (vs : list str) :
  column df c = Some vs -> length vs = len df.
Proof.
  unfold column, len. destruct (index_of c (columns df)); [|discriminate].
  intros H. injection H as <-. apply length_map.
Qed.

Lemma count_done_le (df : DataFrame) (c : str) (pred : str -> bool) :
  Stats.count_done df c pred <= len df.
Proof.
  unfold Stats.count_done. destruct (column df c) as [vs|] eqn:E; [|lia].
  rewrite <- (column_length df c vs E). apply List.filter_length_le.
Qed.

Lemma filter_length_mono {A} (p q : A -> bool) (l : list A) :
  (forall x, p x = true -> q x = true) ->
  length (List.filter p l) <= length (List.filter q l).
Proof.
  intros H. induction l as [|x l IH]; simpl; [lia|].
  destruct (p x) eqn:Ep.
  - rewrite (H x Ep). simpl. lia.
  - destruct (q x); simpl; lia.
Qed.

Lemma filter_fst_combine {A B} (p : A -> bool) (l1 : list A) (l2 : list B) :
  length (List.filter (fun x => p (fst x)) (combine l1 l2))
  <= length (List.filter p l1).
Proof.
  revert l2; induction l1 as [|a l1 IH]; intros [|b l2]; simpl; try lia.
  specialize (IH l2). destruct (p a); simpl; lia.
Qed.

Lemma filter_snd_combine {A B} (p : B -> bool) (l1 : list A) (l2 : list B) :
  length (List.filter (fun x => p (snd x)) (combine l1 l2))
  <= length (List.filter p l2).
Proof.
  revert l2; induction l1 as [|a l1 IH]; intros [|b l2]; simpl; try lia.
  specialize (IH l2). destruct (p b); simpl; lia.
Qed.

(** X13: in the summary no count exceeds its base, whatever the table,
    the status columns and the completion test: the done counts of each
    stage are at most the total, the joint count is at most either stage
    count, the total is at most the number of rows, and a status column
    that the table lacks counts zero. *)
Theorem x13_overall_stats_bounds
    (df : DataFrame) (col_status_conc col_status_rig : str)
    (is_concluido : str -> bool) (id_col name_col : option str) :
  let s := Stats.overall_stats df col_status_conc col_status_rig is_concluido
             id_col name_col in
  Stats.concept_done s <= Stats.total s
  /\ Stats.rig_done s <= Stats.total s
  /\ Stats.both_done s <= Stats.concept_done s
  /\ Stats.both_done s <= Stats.rig_done s
  /\ Stats.total s <= len df
  /\ (has_column (Stats._dedup_df df id_col name_col) col_status_conc = false ->
      Stats.concept_done s = 0 /\ Stats.both_done s = 0).
Proof.
  intros s. unfold s, Stats.overall_stats. simpl.
  set (dfx := Stats._dedup_df df id_col name_col).
  split; [apply count_done_le|]. split; [apply count_done_le|].
  split.
  { unfold Stats.count_both, Stats.count_done.
    destruct (column dfx col_status_conc) as [v1|]; [|lia].
    destruct (column dfx col_status_rig) as [v2|]; [|lia].
    etransitivity; [|apply (filter_fst_combine is_concluido v1 v2)].
    apply filter_length_mono. intros x Hx.
    now apply andb_true_iff in Hx as [Hx _]. }
  split.
  { unfold Stats.count_both, Stats.count_done.
    destruct (column dfx col_status_conc) as [v1|]; [|lia].
    destruct (column dfx col_status_rig) as [v2|]; [|lia].
    etransitivity; [|apply (filter_snd_combine is_concluido v1 v2)].
    apply filter_length_mono. intros x Hx.
    now apply andb_true_iff in Hx as [_ Hx]. }
  split.
  { unfold dfx, Stats._dedup_df.
    destruct (Stats.names_column df id_col || Stats.names_column df name_col);
      [|lia].
    unfold len, drop_duplicates, set_column. simpl rows.
    generalize (fun r : list str =>
                  row_get (if str_in Stats.UNIQ (columns df) then columns df
                           else columns df ++ [Stats.UNIQ]) r Stats.UNIQ []).
    intros key.
    assert (Hd : forall seen rs, length (drop_dup_rows key seen rs) <= length rs).
    { intros seen rs; revert seen; induction rs as [|r rs IH]; intros seen;
        simpl; [lia|].
      destruct (str_in (key r) seen); [specialize (IH seen)|
                                       specialize (IH (key r :: seen))];
        simpl; lia. }
    etransitivity; [apply Hd|].
    rewrite length_map, length_combine, length_map. lia. }
  intros Hc. unfold Stats.count_done, Stats.count_both, column.
  unfold has_column in Hc. rewrite index_of_str_in in Hc.
  destruct (index_of col_status_conc (columns dfx)); [discriminate|].
  split; reflexivity.
Qed.

Lemma x13_overall_stats_bounds_witness :
  Stats.overall_stats
    (mkDF [App.COL_NAME; App.COL_STATUS_RIG]
       [[txt "Ana"; txt "Concluído"]; [txt "ANA"; txt "Concluído"];
        [txt "Bia"; txt ""]])
    App.COL_STATUS_CONCEPT App.COL_STATUS_RIG App.is_concluido
    (Some App.COL_FILE_ID) (Some App.COL_NAME)
  = Stats.mkSummary 2 0 1 0.
Proof.
  pose proof (x13_overall_stats_bounds
                (mkDF [App.COL_NAME; App.COL_STATUS_RIG]
                   [[txt "Ana"; txt "Concluído"]; [txt "ANA"; txt "Concluído"];
                    [txt "Bia"; txt ""]])
                App.COL_STATUS_CONCEPT App.COL_STATUS_RIG App.is_concluido
                (Some App.COL_FILE_ID) (Some App.COL_NAME))
    as (_ & _ & _ & _ & _ & H).
  destruct (H ltac:(vm_compute; reflexivity)) as [H1 H2].
  vm_compute in H1, H2 |- *. reflexivity.
Defined.

(** ** Identifier normalisation *)

Lemma prefixes_In (run g : str) :
  In g (prefixes_longest_first run) ->
  g <> [] /\ exists rest, run = g ++ rest.
Proof.
  revert g; induction run as [|c r IH]; intros g; simpl; [tauto|].
  intros H. apply in_app_or in H as [H|[<-|[]]].
  - apply in_map_iff in H as (g' & <- & Hg'). split; [discriminate|].
    destruct (IH g' Hg') as (_ & rest & ->). exists rest. reflexivity.
  - split; [discriminate|]. exists r. reflexivity.
Qed.

Lemma prefixes_head (c : char) (r : str) :
  exists tl, prefixes_longest_first (c :: r) = (c :: r) :: tl.
Proof.
  revert c; induction r as [|d r IH]; intros c; simpl; [exists []; reflexivity|].
  destruct (IH d) as (tl & Htl). simpl in Htl. rewrite Htl. simpl. eauto.
Qed.

Lemma take_while_all (p : char -> bool) (s : str) :
  forallb p (take_while p s) = true.
Proof.
  induction s as [|c r IH]; simpl; [reflexivity|].
  destruct (p c) eqn:E; simpl; [now rewrite E|reflexivity].
Qed.

Lemma take_while_id (p : char -> bool) (s : str) :
  forallb p s = true -> take_while p s = s.
Proof.
  induction s as [|c r IH]; simpl; [reflexivity|]. intros H.
  apply andb_true_iff in H as [Hc Hr]. rewrite Hc. f_equal. now apply IH.
Qed.

Lemma svb_id_at_group (prev : option char) (s g : str) :
  svb_id_at prev s = Some g ->
  g <> [] /\ forallb id_char g = true.
Proof.
  unfold svb_id_at. destruct (boundary prev (head s)); [|discriminate].
  destruct (existsb _ _); [|discriminate].
  destruct (skipn 3 s) as [|c r]; [discriminate|].
  destruct (N.eqb c 95); [|discriminate].
  intros H. apply find_some in H as [H _].
  apply prefixes_In in H as (Hne & rest & Hrun). split; [exact Hne|].
  pose proof (take_while_all id_char r) as Hall.
  rewrite Hrun, forallb_app in Hall. now apply andb_true_iff in Hall as [Hall _].
Qed.

Lemma svb_id_search_group (prev : option char) (s g : str) :
  svb_id_search_from prev s = Some g ->
  g <> [] /\ forallb id_char g = true.
Proof.
  revert prev; induction s as [|c r IH]; intros prev; simpl.
  - destruct (svb_id_at prev []) eqn:E; [|discriminate].
    intros H. injection H as <-. eapply svb_id_at_group; exact E.
  - destruct (svb_id_at prev (c :: r)) eqn:E.
    + intros H. injection H as <-. eapply svb_id_at_group; exact E.
    + apply IH.
Qed.

Ltac decide_cmp :=
  repeat match goal with
         | |- context [N.leb ?a ?b] =>
           first [ replace (N.leb a b) with true
                     by (symmetry; apply N.leb_le; lia)
                 | replace (N.leb a b) with false
                     by (symmetry; apply N.leb_gt; lia) ]
         | |- context [N.eqb ?a ?b] =>
           replace (N.eqb a b) with false by (symmetry; apply N.eqb_neq; lia)
         end.

Lemma ascii_alnum_range (c : char) :
  is_ascii_alnum c = true ->
  ((0x30 <= c <= 0x39) \/ (0x41 <= c <= 0x5A) \/ (0x61 <= c <= 0x7A))%N.
Proof.
  unfold is_ascii_alnum, isdecimal, is_ascii_upper, is_ascii_lower, in_range.
  rewrite !orb_true_iff, !andb_true_iff, !N.leb_le. tauto.
Qed.

Lemma id_char_cases (c : char) :
  id_char c = true ->
  is_ascii_alnum c = true
  \/ c = 0x130%N \/ c = 0x131%N \/ c = 0x17F%N \/ c = 0x212A%N.
Proof.
  unfold id_char, fold_ascii.
  destruct (is_ascii_upper c) eqn:Eu.
  { intros _. left. unfold is_ascii_alnum. rewrite Eu.
    now rewrite orb_true_r. }
  destruct (N.eqb_spec c 0x130); [auto|].
  destruct (N.eqb_spec c 0x131); [auto|]. simpl.
  destruct (N.eqb_spec c 0x17F); [auto|].
  destruct (N.eqb_spec c 0x212A); [auto 6|]. auto.
Qed.

Lemma upper_char_alnum (c : char) :
  id_char c = true ->
  exists d, upper_char c = [d] /\ Spec.up_alnum d = true /\ upper_char d = [d].
Proof.
  intros H. apply id_char_cases in H as [H|[->|[->|[->| ->]]]].
  - apply ascii_alnum_range in H as [H|[H|H]].
    + exists c. unfold upper_char, Spec.up_alnum, isdecimal, is_ascii_upper,
        is_ascii_lower, in_range. decide_cmp. auto.
    + exists c. unfold upper_char, Spec.up_alnum, isdecimal, is_ascii_upper,
        is_ascii_lower, in_range. decide_cmp. auto.
    + exists (c - 32)%N. unfold upper_char, Spec.up_alnum, isdecimal,
        is_ascii_upper, is_ascii_lower, in_range. decide_cmp. auto.
  - exists 0x130%N. repeat split; vm_compute; reflexivity.
  - exists 0x49%N. repeat split; vm_compute; reflexivity.
  - exists 0x53%N. repeat split; vm_compute; reflexivity.
  - exists 0x212A%N. repeat split; vm_compute; reflexivity.
Qed.

Lemma upper_alnum (g : str) :
  forallb id_char g = true ->
  forallb Spec.up_alnum (upper g) = true /\ upper (upper g) = upper g
  /\ length (upper g) = length g.
Proof.
  induction g as [|c g IH]; simpl; [auto|]. intros H.
  apply andb_true_iff in H as [Hc Hg].
  destruct (upper_char_alnum c Hc) as (d & Hd & Hu & Hdd).
  destruct (IH Hg) as (H1 & H2 & H3).
  rewrite Hd. simpl. rewrite Hu, H1, Hdd, H3. simpl. rewrite H2. auto.
Qed.

Lemma up_alnum_cases (c : char) :
  Spec.up_alnum c = true ->
  isdecimal c = true \/ is_ascii_upper c = true
  \/ c = 0x130%N \/ c = 0x212A%N.
Proof.
  unfold Spec.up_alnum. rewrite !orb_true_iff, !N.eqb_eq. tauto.
Qed.

Lemma up_alnum_word (c : char) : Spec.up_alnum c = true -> isword c = true.
Proof.
  intros H. apply up_alnum_cases in H as [H|[H|[->| ->]]];
    [| |vm_compute; reflexivity|vm_compute; reflexivity];
    unfold isword, isalnum, is_ascii_alnum; rewrite H; simpl;
    rewrite ?orb_true_r; reflexivity.
Qed.

Lemma up_alnum_ascii (c : char) : Spec.up_alnum c = true -> id_char c = true.
Proof.
  intros H. apply up_alnum_cases in H as [H|[H|[->| ->]]];
    [| |vm_compute; reflexivity|vm_compute; reflexivity];
    unfold id_char, fold_ascii.
  - assert (Hu : is_ascii_upper c = false).
    { unfold isdecimal, is_ascii_upper, in_range in *.
      apply andb_true_iff in H as [H1 H2]. apply N.leb_le in H1, H2.
      decide_cmp. reflexivity. }
    rewrite Hu.
    unfold isdecimal, in_range in H.
    apply andb_true_iff in H as [H1 H2]. apply N.leb_le in H1, H2.
    decide_cmp. simpl.
    unfold is_ascii_alnum, isdecimal, in_range. decide_cmp. reflexivity.
  - rewrite H.
    unfold is_ascii_upper, in_range in H.
    apply andb_true_iff in H as [H1 H2]. apply N.leb_le in H1, H2.
    unfold is_ascii_alnum, isdecimal, is_ascii_upper, is_ascii_lower, in_range.
    decide_cmp. reflexivity.
Qed.

Lemma last_forallb (p : char -> bool) (g : str) :
  g <> [] -> forallb p g = true -> exists x, last g = Some x /\ p x = true.
Proof.
  induction g as [|c g IH]; [contradiction|]. intros _ H. simpl in H.
  apply andb_true_iff in H as [Hc Hg].
  destruct g as [|d g]; [exists c; auto|].
  destruct (IH ltac:(discriminate) Hg) as (x & Hx & Hp). exists x. auto.
Qed.

Lemma svb_id_search_normalised (G : str) :
  G <> [] -> forallb Spec.up_alnum G = true ->
  svb_id_search (txt "SVB_" ++ G) = Some G.
Proof.
  intros Hne Hall.
  assert (Hal : forallb id_char G = true).
  { rewrite forallb_forall in *. intros x Hx. now apply up_alnum_ascii, Hall. }
  unfold svb_id_search.
  change (txt "SVB_") with [83%N; 86%N; 66%N; 95%N].
  cbn [app svb_id_search_from].
  match goal with
  | |- match ?x with _ => _ end = _ =>
    replace x with (Some G); [reflexivity|symmetry]
  end.
  unfold svb_id_at. cbn [head skipn firstn].
  change (boundary None (Some 83%N)) with true.
  change (map fold_ascii [83%N; 86%N; 66%N]) with (txt "svb").
  change (existsb (fun p => str_eqb (txt "svb") p)
                  [txt "svb"; txt "rig"; txt "per"]) with true.
  change (N.eqb 95 95) with true. cbv iota.
  rewrite (take_while_id _ _ Hal).
  destruct G as [|c r]; [contradiction|].
  destruct (prefixes_head c r) as (tl & ->). cbn [find].
  destruct (last_forallb Spec.up_alnum (c :: r) Hne Hall) as (x & Hx & Hp).
  rewrite Hx. rewrite (proj2 (nth_error_None (c :: r) (length (c :: r))))
    by lia.
  unfold boundary, word_opt. rewrite (up_alnum_word x Hp). reflexivity.
Qed.

Lemma std_svb_id_of_group (g : str) :
  g <> [] -> forallb id_char g = true ->
  ListTab._std_svb_id (ListTab.svb_of_group g) = ListTab.svb_of_group g.
Proof.
  intros Hne Hall. destruct (upper_alnum g Hall) as (H1 & H2 & H3).
  unfold ListTab._std_svb_id, ListTab.svb_of_group at 1.
  rewrite svb_id_search_normalised; [|destruct g, (upper _); simpl in *;
                                       congruence|exact H1].
  unfold ListTab.svb_of_group. now rewrite H2.
Qed.

Lemma std_svb_id_of_extract (texts : list str) :
  ListTab._std_svb_id (ListTab._extract_svb_id texts)
  = ListTab._extract_svb_id texts.
Proof.
  induction texts as [|t texts IH]; [reflexivity|]. simpl.
  destruct (negb (truthy t)); [exact IH|].
  destruct (svb_id_search t) as [g|] eqn:E; [|exact IH].
  destruct (svb_id_search_group None t g E) as [Hne Hall].
  now apply std_svb_id_of_group.
Qed.

(** X14: normalising an identifier is stable and gives a fixed shape: a
    text that holds an id-shaped token becomes "SVB_" followed by the
    token in capitals, a non-empty run of the capitals and digits of
    ASCII and of the two capitals beyond ASCII that the pattern takes
    when it ignores case, U+0130 and U+212A; any other text is returned
    unchanged; normalising twice is normalising once; and what
    [_extract_svb_id] returns is already normal. *)
Theorem x14_std_svb_id_stable (s : str) (texts : list str) :
  ListTab._std_svb_id (ListTab._std_svb_id s) = ListTab._std_svb_id s
  /\ (svb_id_search s = None -> ListTab._std_svb_id s = s)
  /\ (forall g, svb_id_search s = Some g ->
        ListTab._std_svb_id s = txt "SVB_" ++ upper g
        /\ upper g <> [] /\ forallb Spec.up_alnum (upper g) = true)
  /\ ListTab._std_svb_id (ListTab._extract_svb_id texts)
     = ListTab._extract_svb_id texts.
Proof.
  split.
  { unfold ListTab._std_svb_id at 2 3.
    destruct (svb_id_search s) as [g|] eqn:E.
    - destruct (svb_id_search_group None s g E) as [Hne Hall].
      now apply std_svb_id_of_group.
    - unfold ListTab._std_svb_id. now rewrite E. }
  split.
  { intros E. unfold ListTab._std_svb_id. now rewrite E. }
  split.
  { intros g E. destruct (svb_id_search_group None s g E) as [Hne Hall].
    destruct (upper_alnum g Hall) as (H1 & _ & H3).
    unfold ListTab._std_svb_id. rewrite E. split; [reflexivity|].
    split; [|exact H1]. destruct g, (upper _); simpl in *; congruence. }
  apply std_svb_id_of_extract.
Qed.

Lemma x14_std_svb_id_witness :
  ListTab._std_svb_id (txt "https://drive/x/rig_muriel02.zip")
  = txt "SVB_MURIEL02"
  /\ ListTab._std_svb_id (txt "SVB_RIG_MURIEL") = txt "SVB_RIG_MURIEL"
  /\ ListTab._std_svb_id [0x17F; 0x76; 0x62; 0x5F; 0x78; 0x131; 0x212A]%N
     = txt "SVB_" ++ [0x58; 0x49; 0x212A]%N.
Proof.
  destruct (x14_std_svb_id_stable (txt "https://drive/x/rig_muriel02.zip") [])
    as (_ & _ & H1 & _).
  destruct (x14_std_svb_id_stable (txt "SVB_RIG_MURIEL") []) as (_ & H2 & _).
  destruct (x14_std_svb_id_stable
              [0x17F; 0x76; 0x62; 0x5F; 0x78; 0x131; 0x212A]%N [])
    as (_ & _ & H3 & _).
  split; [|split].
  - destruct (H1 (txt "muriel02") ltac:(vm_compute; reflexivity)) as (H & _).
    rewrite H. vm_compute. reflexivity.
  - apply H2. vm_compute. reflexivity.
  - destruct (H3 [0x78; 0x131; 0x212A]%N ltac:(vm_compute; reflexivity))
      as (H & _).
    rewrite H. vm_compute. reflexivity.
Defined.

(** ** The best identifier of a group (C2) *)

Lemma one_word_no_id (s : str) (p : char) :
  isword p = true -> forallb isword s = true ->
  svb_id_search_from (Some p) s = None.
Proof.
  revert p. induction s as [|c r IH]; intros p Hp Hs.
  - cbn [svb_id_search_from]. unfold svb_id_at.
    destruct (boundary (Some p) (head [])); reflexivity.
  - simpl in Hs. apply andb_true_iff in Hs as [Hc Hr].
    cbn [svb_id_search_from].
    assert (Hat : svb_id_at (Some p) (c :: r) = None).
    { unfold svb_id_at.
      change (boundary (Some p) (head (c :: r)))
        with (xorb (isword p) (isword c)).
      now rewrite Hp, Hc. }
    rewrite Hat. now apply IH.
Qed.

Lemma svb_id_search_from_cons (prev : option char) (c : char) (r : str) :
  svb_id_search_from prev (c :: r)
  = match svb_id_at prev (c :: r) with
    | Some g => Some g
    | None => svb_id_search_from (Some c) r
    end.
Proof. reflexivity. Qed.

Lemma std_svb_id_rig_word (w : str) :
  forallb isword w = true ->
  ListTab._std_svb_id (txt "SVB_RIG_" ++ w) = txt "SVB_RIG_" ++ w.
Proof.
  intros Hw. unfold ListTab._std_svb_id, svb_id_search.
  change (txt "SVB_RIG_")
    with [83%N; 86%N; 66%N; 95%N; 82%N; 73%N; 71%N; 95%N].
  cbn [app].
  rewrite svb_id_search_from_cons.
  match goal with
  | |- context [svb_id_at None ?l] =>
    replace (svb_id_at None l) with (@None str) by (vm_compute; reflexivity)
  end.
  rewrite one_word_no_id; [reflexivity|vm_compute; reflexivity|].
  cbn [forallb].
  change (isword 86%N) with true. change (isword 66%N) with true.
  change (isword 95%N) with true. change (isword 82%N) with true.
  change (isword 73%N) with true. change (isword 71%N) with true.
  exact Hw.
Qed.

Lemma forallb_sub_each (P cls : char -> bool) (repl s : str) :
  forallb P repl = true -> (forall c, cls c = false -> P c = true) ->
  forallb P (sub_each cls repl s) = true.
Proof.
  intros Hr Hc. unfold sub_each. induction s as [|c s IH]; [reflexivity|].
  simpl. rewrite forallb_app, IH, andb_true_r.
  destruct (cls c) eqn:E; [exact Hr|]. simpl. now rewrite (Hc c E).
Qed.

Lemma forallb_sub_runs_from (P cls : char -> bool) (repl s : str) (b : bool) :
  forallb P repl = true -> forallb P s = true ->
  forallb P (sub_runs_from cls repl b s) = true.
Proof.
  intros Hr. revert b. induction s as [|c s IH]; intros b Hs; [reflexivity|].
  simpl in *. apply andb_true_iff in Hs as [Hc Hs].
  destruct (cls c).
  - rewrite forallb_app, (IH true Hs), andb_true_r. now destruct b.
  - simpl. now rewrite Hc, (IH false Hs).
Qed.

Lemma forallb_strip_by (P p : char -> bool) (s : str) :
  forallb P s = true -> forallb P (strip_by p s) = true.
Proof.
  intros H. unfold strip_by.
  destruct (lstrip_by_split p s) as (w1 & Hw1 & _).
  destruct (rstrip_by_split p (lstrip_by p s)) as (w2 & Hw2 & _).
  rewrite Hw1, forallb_app in H. apply andb_true_iff in H as [_ H].
  rewrite Hw2, forallb_app in H. now apply andb_true_iff in H as [H _].
Qed.

Lemma cleaned_name_word (nome : str) :
  forallb isword (Spec.cleaned_name nome) = true.
Proof.
  unfold Spec.cleaned_name. apply forallb_strip_by.
  apply forallb_sub_runs_from; [reflexivity|].
  apply forallb_sub_each; [reflexivity|].
  intros c Hc. unfold ListTab.not_ident_char in Hc.
  apply negb_false_iff, orb_true_iff in Hc as [Hc|Hc].
  - unfold isword, isalnum. now rewrite Hc.
  - unfold isword. rewrite Hc. apply orb_true_r.
Qed.

Lemma head_tokens (texts rest : list str) :
  head (List.filter truthy
          (map ListTab._std_svb_id
             (flat_map (fun text =>
                          let extracted := ListTab._extract_svb_id [text] in
                          if truthy extracted then [extracted] else [])
                       texts ++ rest)))
  = match find_map Spec.token_of texts with
    | Some e => Some e
    | None => head (List.filter truthy (map ListTab._std_svb_id rest))
    end.
Proof.
  induction texts as [|t texts IH]; [reflexivity|].
  cbn [flat_map find_map]. unfold Spec.token_of at 1. cbv zeta.
  destruct (truthy (ListTab._extract_svb_id [t])) eqn:E.
  - cbn [app map List.filter]. rewrite std_svb_id_of_extract, E. reflexivity.
  - exact IH.
Qed.

Lemma token_of_shape (t e : str) :
  Spec.token_of t = Some e ->
  exists g, svb_id_search t = Some g /\ e = txt "SVB_" ++ upper g.
Proof.
  unfold Spec.token_of. cbv zeta. simpl.
  destruct (truthy t); simpl; [|discriminate].
  destruct (svb_id_search t) as [g|]; [|discriminate].
  intros H. exists g. split; [reflexivity|].
  destruct (truthy (ListTab.svb_of_group g)); [|discriminate].
  now injection H as <-.
Qed.

Lemma best_id_blank_pid (pid nome : str) (lc sc cc : list str) :
  ListTab.nonblank pid = false ->
  ListTab.best_id pid nome lc sc cc
  = match find_map Spec.token_of (Spec.token_texts lc sc cc) with
    | Some e => e
    | None => if truthy nome && truthy (Spec.cleaned_name nome)
              then txt "SVB_RIG_" ++ Spec.cleaned_name nome
              else pid
    end.
Proof.
  intros Hb. rewrite best_id_first_truthy.
  unfold ListTab.candidate_ids. rewrite Hb. cbn [app]. cbv zeta.
  change (List.filter ListTab.nonblank lc ++ List.filter ListTab.nonblank sc
          ++ [ListTab.first_nonblank cc]) with (Spec.token_texts lc sc cc).
  change (strip_by (N.eqb 95)
            (sub_runs (N.eqb 95) (txt "_")
               (sub_each ListTab.not_ident_char (txt "_") (strip (upper nome)))))
    with (Spec.cleaned_name nome).
  rewrite head_tokens.
  destruct (find_map Spec.token_of (Spec.token_texts lc sc cc)) as [e|];
    [reflexivity|].
  destruct (truthy nome); [|reflexivity].
  destruct (truthy (Spec.cleaned_name nome)); [|reflexivity].
  cbn [andb map List.filter].
  rewrite (std_svb_id_rig_word _ (cleaned_name_word nome)). reflexivity.
Qed.

(** C2, as the code has it: the best identifier is the first non-empty
    entry of the candidate list after every candidate went through
    [_std_svb_id], which rewrites a candidate holding an id-shaped token
    and returns any other candidate unchanged.  A non-blank original id
    is the first candidate, so it is always the result, verbatim when it
    holds no token.  With a blank original id the result is the token of
    the first text that holds one, among the non-blank links, then the
    non-blank sync fields, then the first non-blank comment, written
    "SVB_" and the token in capitals; when no text holds a token it is
    "SVB_RIG_" followed by the cleaned name, when that is not empty; and
    the original id otherwise, as when the candidate list is empty. *)
Theorem c2_best_id_first_candidate (pid nome : str) (lc sc cc : list str) :
  let cands := ListTab.candidate_ids pid nome
                 (List.filter ListTab.nonblank lc)
                 (List.filter ListTab.nonblank sc)
                 (ListTab.first_nonblank cc) in
  ListTab.best_id pid nome lc sc cc
  = default pid (head (List.filter truthy (map ListTab._std_svb_id cands)))
  /\ (ListTab.nonblank pid = true ->
      ListTab.best_id pid nome lc sc cc = ListTab._std_svb_id pid)
  /\ (ListTab.nonblank pid = true -> svb_id_search pid = None ->
      ListTab.best_id pid nome lc sc cc = pid)
  /\ (cands = [] -> ListTab.best_id pid nome lc sc cc = pid)
  /\ (ListTab.nonblank pid = false ->
      ListTab.best_id pid nome lc sc cc
      = match find_map Spec.token_of (Spec.token_texts lc sc cc) with
        | Some e => e
        | None => if truthy nome && truthy (Spec.cleaned_name nome)
                  then txt "SVB_RIG_" ++ Spec.cleaned_name nome
                  else pid
        end)
  /\ (forall t e, Spec.token_of t = Some e ->
        exists g, svb_id_search t = Some g /\ e = txt "SVB_" ++ upper g).
Proof.
  intros cands. pose proof (best_id_first_truthy pid nome lc sc cc) as H.
  fold cands in H.
  assert (Hpid : ListTab.nonblank pid = true ->
                 ListTab.best_id pid nome lc sc cc = ListTab._std_svb_id pid).
  { intros Hnb. rewrite H. unfold cands, ListTab.candidate_ids.
    rewrite Hnb. simpl.
    rewrite (std_svb_id_truthy pid (nonblank_truthy pid Hnb)). reflexivity. }
  split; [exact H|]. split; [exact Hpid|]. split.
  { intros Hnb Hs. rewrite (Hpid Hnb). unfold ListTab._std_svb_id.
    now rewrite Hs. }
  split.
  { intros Hc. rewrite H, Hc. reflexivity. }
  split; [apply best_id_blank_pid|apply token_of_shape].
Qed.

Lemma c2_best_id_witness :
  ListTab.best_id (txt "rig_muriel") (txt "Muriel") [txt "http://drive/SVB_ABC"]
                  [] []
  = txt "SVB_MURIEL"
  /\ ListTab.best_id (txt "0042") (txt "Muriel") [txt "http://drive/SVB_ABC"]
                     [] []
     = txt "0042"
  /\ ListTab.best_id [] [] [] [] [] = []
  /\ ListTab.best_id (txt " ") (txt "Muriel")
       [txt ""; txt "http://drive/folder"] [txt "sync per_abc9 v2"]
       [txt ""; txt "ver SVB_ZZZ"]
     = txt "SVB_ABC9"
  /\ ListTab.best_id [] (txt "Muriel") [txt "http://drive/folder"] []
       [txt "ver SVB_ZZZ"]
     = txt "SVB_ZZZ"
  /\ ListTab.best_id [] (txt " Tia Rebimboca (de mochila) ")
       [txt "http://drive/folder"] [] []
     = txt "SVB_RIG_TIA_REBIMBOCA_DE_MOCHILA"
  /\ ListTab.best_id (txt " ") (txt "?!") [] [] [] = txt " ".
Proof.
  pose proof (c2_best_id_first_candidate (txt "rig_muriel") (txt "Muriel")
                [txt "http://drive/SVB_ABC"] [] []) as (_ & H1 & _).
  pose proof (c2_best_id_first_candidate (txt "0042") (txt "Muriel")
                [txt "http://drive/SVB_ABC"] [] []) as (_ & _ & H2 & _).
  pose proof (c2_best_id_first_candidate [] [] [] [] []) as (_ & _ & _ & H3 & _).
  pose proof (c2_best_id_first_candidate (txt " ") (txt "Muriel")
                [txt ""; txt "http://drive/folder"] [txt "sync per_abc9 v2"]
                [txt ""; txt "ver SVB_ZZZ"]) as (_ & _ & _ & _ & H4 & _).
  pose proof (c2_best_id_first_candidate [] (txt "Muriel")
                [txt "http://drive/folder"] [] [txt "ver SVB_ZZZ"])
    as (_ & _ & _ & _ & H5 & _).
  pose proof (c2_best_id_first_candidate [] (txt " Tia Rebimboca (de mochila) ")
                [txt "http://drive/folder"] [] [])
    as (_ & _ & _ & _ & H6 & _).
  pose proof (c2_best_id_first_candidate (txt " ") (txt "?!") [] [] [])
    as (_ & _ & _ & _ & H7 & _).
  split; [rewrite H1; reflexivity|].
  split; [apply H2; reflexivity|].
  split; [apply H3; reflexivity|].
  split; [rewrite H4; vm_compute; reflexivity|].
  split; [rewrite H5; vm_compute; reflexivity|].
  split; [rewrite H6; vm_compute; reflexivity|].
  rewrite H7; vm_compute; reflexivity.
Defined.

(** C2 fails as stated: the original id "XYZ" holds no id-shaped token,
    the group's link holds the token SVB_ABC, and the result is "XYZ". *)
Lemma c2_unmatched_original_id_wins :
  svb_id_search (txt "XYZ") = None
  /\ ListTab._extract_svb_id [txt "http://drive/SVB_ABC"] = txt "SVB_ABC"
  /\ ListTab.best_id (txt "XYZ") (txt "Muriel") [txt "http://drive/SVB_ABC"]
                     [] []
     = txt "XYZ".
Proof. repeat split; vm_compute; reflexivity. Qed.

(** ** Owners and duplicate columns *)

Lemma lstrip_by_fix (p : char -> bool) (s : str) :
  match s with [] => True | c :: _ => p c = false end -> lstrip_by p s = s.
Proof. destruct s as [|c r]; simpl; [reflexivity|]. now intros ->. Qed.

Lemma lstrip_by_head (p : char -> bool) (s : str) :
  match lstrip_by p s with [] => True | c :: _ => p c = false end.
Proof.
  induction s as [|c r IH]; simpl; [exact I|].
  destruct (p c) eqn:E; [exact IH|exact E].
Qed.

Lemma strip_by_idem (p : char -> bool) (s : str) :
  strip_by p (strip_by p s) = strip_by p s.
Proof.
  unfold strip_by. set (u := lstrip_by p s).
  assert (Hl : lstrip_by p (rstrip_by p u) = rstrip_by p u).
  { apply lstrip_by_fix.
    destruct (rstrip_by_split p u) as (w & Hw & _).
    pose proof (lstrip_by_head p s) as Hh. fold u in Hh.
    destruct (rstrip_by p u) as [|c t]; [exact I|].
    rewrite Hw in Hh. exact Hh. }
  rewrite Hl. unfold rstrip_by. rewrite rev_involutive.
  f_equal. apply lstrip_by_fix. apply lstrip_by_head.
Qed.

Lemma strip_idem (s : str) : strip (strip s) = strip s.
Proof. apply strip_by_idem. Qed.

Lemma coalesce_str (s : str) : App.coalesce [Some (PyStr s)] = PyStr (strip s).
Proof.
  simpl. destruct (strip s) eqn:E; reflexivity.
Qed.

Lemma normalize_text_strip (s : str) :
  App._normalize_text (strip s) = App._normalize_text s.
Proof.
  unfold App._normalize_text. rewrite strip_idem.
  destruct s as [|c r]; [reflexivity|].
  destruct (strip (c :: r)) eqn:E; reflexivity.
Qed.

Lemma normalize_responsavel_eq (s : str) :
  App.normalize_responsavel s
  = if str_eqb (App._normalize_text s) (txt "oto")
    then txt "OTONIEL" else strip s.
Proof.
  unfold App.normalize_responsavel. rewrite coalesce_str.
  cbn [dict_get]. rewrite normalize_text_strip. reflexivity.
Qed.

(** X15: the owner alias works on the stripped cell: an owner whose
    normalised text is "oto" becomes "OTONIEL", any other owner is its
    stripped text; the result carries no surrounding white space and
    applying the alias a second time changes nothing. *)
Theorem x15_normalize_responsavel (s : str) :
  App.normalize_responsavel s
  = (if str_eqb (App._normalize_text s) (txt "oto")
     then txt "OTONIEL" else strip s)
  /\ strip (App.normalize_responsavel s) = App.normalize_responsavel s
  /\ App.normalize_responsavel (App.normalize_responsavel s)
     = App.normalize_responsavel s.
Proof.
  split; [apply normalize_responsavel_eq|].
  rewrite (normalize_responsavel_eq s).
  destruct (str_eqb (App._normalize_text s) (txt "oto")) eqn:E.
  - split; vm_compute; reflexivity.
  - split; [apply strip_idem|].
    rewrite normalize_responsavel_eq, normalize_text_strip, E.
    apply strip_idem.
Qed.

Lemma first_nonempty_find (row : list pyval) :
  App._first_nonempty row
  = match find (fun v => negb (Spec.blank_cell v)) row with
    | Some v => v
    | None => PyStr []
    end.
Proof.
  induction row as [|v row IH]; [reflexivity|].
  destruct v as [z|s|]; simpl.
  - reflexivity.
  - destruct (truthy (strip s)); [reflexivity|exact IH].
  - exact IH.
Qed.

(** X16: when duplicate columns are collapsed, a row takes its first cell
    that is not blank (a blank string or a missing value) in column order,
    whatever its type, and the empty string when every cell is blank; so a
    number placed before a string wins, the value is never a missing one,
    and collapsing the collapsed value again gives it back. *)
Theorem x16_first_nonempty (row : list pyval) :
  App._first_nonempty row
  = match find (fun v => negb (Spec.blank_cell v)) row with
    | Some v => v
    | None => PyStr []
    end
  /\ App._first_nonempty row <> PyNaN
  /\ App._first_nonempty [App._first_nonempty row] = App._first_nonempty row
  /\ forall n s rest,
       App._first_nonempty (PyNaN :: PyStr [] :: PyInt n :: PyStr s :: rest)
       = PyInt n.
Proof.
  split; [apply first_nonempty_find|].
  rewrite (first_nonempty_find row).
  assert (Hlast : forall n s rest,
    App._first_nonempty (PyNaN :: PyStr [] :: PyInt n :: PyStr s :: rest)
    = PyInt n) by reflexivity.
  destruct (find (fun v => negb (Spec.blank_cell v)) row) as [v|] eqn:E.
  - apply find_some in E as [_ E].
    destruct v as [z|s|]; simpl in E; try discriminate.
    + split; [discriminate|]. split; [reflexivity|exact Hlast].
    + split; [discriminate|]. split; [|exact Hlast].
      simpl. apply negb_true_iff, negb_false_iff in E.
      now rewrite E.
  - split; [discriminate|]. split; [reflexivity|exact Hlast].
Qed.

(** ** The episodes of the list tab *)

Lemma parse_eps_agree (s : str) :
  ListTab._parse_eps s
  = list_to_set (map Spec.as_list_tab (App.parse_episode_field s)).
Proof.
  unfold ListTab._parse_eps, App.parse_episode_field.
  destruct s as [|c r]; [reflexivity|].
  change (negb (truthy (c :: r))) with false. cbv iota.
  destruct (negb (truthy (strip (c :: r)))); [reflexivity|].
  destruct (str_eqb (lower (strip (c :: r))) (txt "todos")).
  - simpl. now rewrite union_empty_r_L.
  - rewrite map_map. reflexivity.
Qed.

Lemma parse_eps_int (s : str) (z : Z) :
  PyInt z ∈ ListTab._parse_eps s <-> In (PyInt z) (App.parse_episode_field s).
Proof.
  rewrite parse_eps_agree, elem_of_list_to_set, list_elem_of_In, in_map_iff.
  split.
  - intros (y & Hy & Hin). destruct y; simpl in Hy; try discriminate.
    now rewrite <- Hy.
  - intros H. exists (PyInt z). auto.
Qed.

Lemma elem_of_ints_of (eps : gset pyval) (z : Z) :
  z ∈ ListTab.ints_of eps <-> PyInt z ∈ eps.
Proof.
  unfold ListTab.ints_of.
  rewrite elem_of_list_to_set, list_elem_of_omap. split.
  - intros (y & Hy & Hz). apply elem_of_elements in Hy.
    destruct y; simpl in Hz; try discriminate.
    injection Hz as ->. exact Hy.
  - intros H. exists (PyInt z). split; [now apply elem_of_elements|reflexivity].
Qed.

Lemma list_eps_elem (raws : list str) (acc : gset Z) (z : Z) :
  z ∈ fold_left (fun eps v => eps ∪ ListTab.ints_of (ListTab._parse_eps v))
        raws acc
  <-> z ∈ acc \/ exists raw, In raw raws /\ PyInt z ∈ ListTab._parse_eps raw.
Proof.
  revert acc; induction raws as [|r raws IH]; intros acc; simpl.
  - split; [auto|]. intros [?|(? & [] & _)]. assumption.
  - rewrite IH, elem_of_union, elem_of_ints_of. split.
    + intros [[?|?]|(raw & ? & ?)]; eauto 6.
    + intros [?|(raw & [->|?] & ?)]; eauto 6.
Qed.

(** X17: the list tab reads an episode cell as the application does: its
    set of episodes holds the same values as the application's list, with
    the wildcard written "ALL" where the application writes "Todos"; and
    the episode options of the list tab are the application's episode
    universe, with the same failure when the episode column is missing. *)
Theorem x17_list_tab_episodes_agree (df : DataFrame) (s : str) :
  ListTab._parse_eps s
  = list_to_set (map Spec.as_list_tab (App.parse_episode_field s))
  /\ ListTab.all_eps df = App.detect_all_numeric_episodes df.
Proof.
  split; [apply parse_eps_agree|].
  unfold ListTab.all_eps, App.detect_all_numeric_episodes.
  destruct (column df App.COL_EP) as [raws|]; [|reflexivity].
  simpl. do 3 f_equal. apply set_eq. intros z.
  rewrite list_eps_elem, all_ints_elem.
  split; (intros [H|(raw & Hin & Hz)]; [left; exact H|right; exists raw]);
    (split; [exact Hin|]); now apply parse_eps_int.
Qed.

Lemma fold_min_spec (x : Z) (r : list Z) :
  In (fold_right Z.min x r) (x :: r)
  /\ forall z, In z (x :: r) -> (fold_right Z.min x r <= z)%Z.
Proof.
  induction r as [|y r [IHin IHle]]; simpl.
  - split; [now left|]. intros z [->|[]]. lia.
  - split.
    + destruct (Z.min_spec y (fold_right Z.min x r)) as [[_ ->]|[_ ->]].
      * right; now left.
      * destruct IHin as [H|H]; [now left|right; now right].
    + intros z [<-|[<-|H]].
      * specialize (IHle x (or_introl eq_refl)). lia.
      * lia.
      * specialize (IHle z (or_intror H)). lia.
Qed.

Lemma py_min_same (l : list Z) (x : Z) (r : list Z) :
  (forall z, In z l <-> In z (x :: r)) ->
  py_min l = Some (fold_right Z.min x r).
Proof.
  intros H. destruct l as [|y l].
  - exfalso. apply (proj2 (H x)). now left.
  - unfold py_min. f_equal.
    destruct (fold_min_spec y l) as [Hin Hle].
    destruct (fold_min_spec x r) as [Hin' Hle'].
    apply H in Hin. apply H in Hin'.
    specialize (Hle' _ Hin). specialize (Hle _ Hin'). lia.
Qed.

Lemma In_omap_ints (l : list pyval) (y : Z) :
  In y (omap ListTab.int_of_pyval l) <-> In (PyInt y) l.
Proof.
  rewrite <- !list_elem_of_In, list_elem_of_omap. split.
  - intros (v & Hv & Hy). destruct v; simpl in Hy; try discriminate.
    now injection Hy as ->.
  - intros H. exists (PyInt y). auto.
Qed.

Lemma first_episode_eq (s : str) :
  ListTab.first_episode s
  = match App.parse_episode_field s with
    | [] => Some 9999%Z
    | PyInt z :: rest => Some (fold_right Z.min z (omap ListTab.int_of_pyval rest))
    | _ :: _ => None
    end.
Proof.
  unfold ListTab.first_episode.
  pose proof (parse_eps_int s) as Hint.
  rewrite (parse_eps_agree s) in *.
  destruct (App.parse_episode_field s) as [|p rest] eqn:E.
  - simpl. destruct (decide _) as [_|H]; [reflexivity|now destruct H].
  - destruct (decide _) as [H|_].
    { exfalso. apply (elem_of_empty (C := gset pyval) (Spec.as_list_tab p)).
      rewrite <- H. apply elem_of_list_to_set. simpl. apply list_elem_of_here. }
    destruct p as [z|t|].
    + apply py_min_same. intros y.
      rewrite <- list_elem_of_In, elem_of_elements, elem_of_ints_of, Hint.
      cbn [In]. rewrite In_omap_ints. split.
      * intros [H|H]; [injection H as ->; now left|now right].
      * intros [->|H]; [now left|now right].
    + destruct (parse_episode_field_cases s) as [H|[H|[runs H]]];
        rewrite E in H; try discriminate.
      * injection H as -> ->.
        assert (Hz : ListTab.ints_of (list_to_set (map Spec.as_list_tab
                       [PyStr (txt "Todos")])) = empty).
        { apply set_eq. intros y. rewrite elem_of_ints_of, Hint. simpl.
          split; [intros [?|[]]; discriminate|intros H; now apply elem_of_empty in H]. }
        rewrite Hz, elements_empty. reflexivity.
      * destruct runs; discriminate.
    + destruct (parse_episode_field_cases s) as [H|[H|[runs H]]];
        rewrite E in H; try discriminate.
      destruct runs; discriminate.
Qed.

(** X18: the first episode of an open task is 9999 when the episode cell
    holds no episode and the least of its numbers when it holds some; on
    the wildcard cell ("Todos" in any casing) the computation raises,
    because the minimum is taken over the numbers of a set that holds
    only the wildcard. *)
Theorem x18_first_episode (s : str) :
  ListTab.first_episode s
  = match App.parse_episode_field s with
    | [] => Some 9999%Z
    | PyInt z :: rest => Some (fold_right Z.min z (omap ListTab.int_of_pyval rest))
    | _ :: _ => None
    end
  /\ (ListTab.first_episode s = None
      <-> Spec.has_wildcard (App.parse_episode_field s) = true)
  /\ ListTab.first_episode (txt "7, 12 e 3") = Some 3%Z.
Proof.
  split; [apply first_episode_eq|]. split; [|vm_compute; reflexivity].
  rewrite first_episode_eq.
  destruct (parse_episode_field_cases s) as [H|[H|[runs H]]]; rewrite H.
  - split; discriminate.
  - split; [intros _; vm_compute|]; reflexivity.
  - rewrite has_wildcard_ints. destruct runs; simpl; split; discriminate.
Qed.

Lemma episode_selected_iff (sel : gset pyval) (v : str) :
  ListTab.episode_selected sel v = true
  <-> Spec.has_wildcard (App.parse_episode_field v) = true
      \/ exists z, In (PyInt z) (App.parse_episode_field v) /\ PyInt z ∈ sel.
Proof.
  unfold ListTab.episode_selected.
  rewrite orb_true_iff, !bool_decide_eq_true.
  pose proof (parse_eps_int v) as Hint.
  rewrite (parse_eps_agree v) in *.
  rewrite elem_of_list_to_set.
  destruct (parse_episode_field_cases v) as [H|[H|[runs H]]]; rewrite H in *.
  - simpl. split.
    + intros [Hin|Hs]; [now apply elem_of_nil in Hin|].
      rewrite intersection_empty_l_L, size_empty in Hs. lia.
    + intros [?|(z & [] & _)]. discriminate.
  - split; [intros _; left; vm_compute; reflexivity|].
    intros _. left. simpl. apply list_elem_of_here.
  - rewrite has_wildcard_ints. split.
    + intros [Hin|Hs].
      * apply list_elem_of_In, in_map_iff in Hin as (y & Hy & Hin).
        apply in_map_iff in Hin as (n & <- & _). discriminate.
      * right. apply size_pos_elem_of in Hs as (x & Hx).
        apply elem_of_intersection in Hx as [Hx Hsel].
        assert (Hx' := Hx).
        apply elem_of_list_to_set, list_elem_of_In, in_map_iff in Hx'
          as (y & Hy & Hin).
        apply in_map_iff in Hin as (n & <- & _). simpl in Hy. subst x.
        exists (int_of_digits n). split; [now apply Hint|exact Hsel].
    + intros [?|(z & Hin & Hsel)]; [discriminate|]. right.
      apply Hint in Hin.
      match goal with |- (0 < size ?X)%nat => destruct (size X) eqn:Hs end;
        [|lia].
      apply size_empty_iff in Hs. exfalso.
      apply (elem_of_empty (C := gset pyval) (PyInt z)), Hs.
      now apply elem_of_intersection.
Qed.

(** X19: the episode filter of the list tab.  With no episode selected it
    keeps every task row; otherwise it keeps, in their order, exactly the
    rows whose episode cell is the wildcard or has one of its numbers
    among the selected episodes. *)
Theorem x19_episode_filter (sel_eps : list Z) (fil : list ListTab.Task) :
  ListTab.filter_episodes [] fil = fil
  /\ (sel_eps <> [] ->
      ListTab.filter_episodes sel_eps fil
      = List.filter
          (fun t =>
             Spec.has_wildcard (App.parse_episode_field (ListTab.episodio t))
             || existsb (fun z => bool_decide
                                    (PyInt z
                                     ∈ App.parse_episode_field
                                         (ListTab.episodio t)))
                        sel_eps) fil)
  /\ (forall t, In t (ListTab.filter_episodes sel_eps fil) <->
        In t fil
        /\ (sel_eps = []
            \/ Spec.has_wildcard
                 (App.parse_episode_field (ListTab.episodio t)) = true
            \/ exists z, In (PyInt z)
                            (App.parse_episode_field (ListTab.episodio t))
                         /\ In z sel_eps)).
Proof.
  assert (Hsel : forall t,
    ListTab.episode_selected (list_to_set (map PyInt sel_eps))
                             (ListTab.episodio t) = true
    <-> Spec.has_wildcard (App.parse_episode_field (ListTab.episodio t)) = true
        \/ exists z, In (PyInt z) (App.parse_episode_field (ListTab.episodio t))
                     /\ In z sel_eps).
  { intros t. rewrite episode_selected_iff. split.
    - intros [H|(z & Hz & Hs)]; [now left|right]. exists z. split; [exact Hz|].
      apply elem_of_list_to_set, list_elem_of_In, in_map_iff in Hs
        as (z' & Hz' & Hin). now injection Hz' as <-.
    - intros [H|(z & Hz & Hs)]; [now left|right]. exists z. split; [exact Hz|].
      apply elem_of_list_to_set, list_elem_of_In, in_map_iff. eauto. }
  split; [reflexivity|]. split.
  - intros Hne. unfold ListTab.filter_episodes.
    destruct sel_eps as [|z0 zs]; [contradiction|]. cbn [truthy_list].
    apply filter_ext. intros t.
    apply eq_true_iff_eq. rewrite Hsel, orb_true_iff, existsb_exists.
    split.
    + intros [H|(z & Hz & Hs)]; [now left|right]. exists z. split; [exact Hs|].
      now apply bool_decide_eq_true, list_elem_of_In.
    + intros [H|(z & Hs & Hz)]; [now left|right]. exists z.
      apply bool_decide_eq_true, list_elem_of_In in Hz. auto.
  - intros t. unfold ListTab.filter_episodes.
    destruct sel_eps as [|z0 zs] eqn:E; cbn [truthy_list].
    + split; [intros H; split; [exact H|now left]|tauto].
    + rewrite <- E in *. rewrite filter_In, Hsel. split.
      * intros [H1 H2]. split; [exact H1|]. right. exact H2.
      * intros [H1 [H2|H2]]; [rewrite E in H2; discriminate|]. auto.
Qed.

Lemma x19_episode_filter_witness :
  map ListTab.nome
      (ListTab.filter_episodes [2; 7]%Z
         [Spec.sample_task (txt "1, 2") (txt "Ana");
          Spec.sample_task (txt "3") (txt "Bia");
          Spec.sample_task (txt "todos") (txt "Caribé");
          Spec.sample_task (txt "") (txt "Zeca")])
  = [txt "Ana"; txt "Caribé"]
  /\ length (ListTab.filter_episodes []
               [Spec.sample_task (txt "3") (txt "Bia");
                Spec.sample_task (txt "") (txt "Zeca")]) = 2%nat.
Proof.
  destruct (x19_episode_filter [2; 7]%Z
              [Spec.sample_task (txt "1, 2") (txt "Ana");
               Spec.sample_task (txt "3") (txt "Bia");
               Spec.sample_task (txt "todos") (txt "Caribé");
               Spec.sample_task (txt "") (txt "Zeca")]) as (_ & H & _).
  destruct (x19_episode_filter []
              [Spec.sample_task (txt "3") (txt "Bia");
               Spec.sample_task (txt "") (txt "Zeca")]) as (H0 & _).
  split.
  - rewrite H by discriminate. vm_compute. reflexivity.
  - rewrite H0. reflexivity.
Defined.

(** ** The owners of the list tab *)

Lemma unique_by_norm_In (n : str) (seq seen : list str) :
  In n (ListTab.unique_by_norm seen seq) ->
  truthy (ListTab._norm n) = true /\ ~ In (ListTab._norm n) seen /\ In n seq.
Proof.
  revert seen. induction seq as [|item rest IH]; intros seen; simpl; [tauto|].
  destruct (truthy (ListTab._norm item)) eqn:Ht;
    destruct (str_in (ListTab._norm item) seen) eqn:Hs; simpl.
  - intros H. apply IH in H. tauto.
  - intros [<-|H].
    + split; [exact Ht|]. split; [|now left].
      intros Hin. apply str_in_In in Hin. congruence.
    + apply IH in H as (H1 & H2 & H3). split; [exact H1|].
      split; [|now right]. intros Hin. apply H2. now right.
  - intros H. apply IH in H. tauto.
  - intros H. apply IH in H. tauto.
Qed.

Lemma unique_by_norm_NoDup (seq seen : list str) :
  NoDup (map ListTab._norm (ListTab.unique_by_norm seen seq)).
Proof.
  revert seen. induction seq as [|item rest IH]; intros seen; simpl;
    [constructor|].
  destruct (truthy (ListTab._norm item) && negb (str_in (ListTab._norm item) seen));
    [|apply IH].
  simpl. apply NoDup_cons_2; [|apply IH].
  rewrite list_elem_of_In, in_map_iff. intros (n & Hn & Hin).
  apply unique_by_norm_In in Hin as (_ & Hno & _).
  apply Hno. left. now symmetry.
Qed.

Lemma unique_by_norm_idem (seq seen : list str) :
  ListTab.unique_by_norm seen (ListTab.unique_by_norm seen seq)
  = ListTab.unique_by_norm seen seq.
Proof.
  revert seen. induction seq as [|item rest IH]; intros seen; simpl;
    [reflexivity|].
  destruct (truthy (ListTab._norm item) && negb (str_in (ListTab._norm item) seen))
    eqn:E; [|apply IH].
  simpl. rewrite E. f_equal. apply IH.
Qed.

Lemma split_names_stripped (s n : str) :
  In n (ListTab._split_names s) -> strip n = n.
Proof.
  unfold ListTab._split_names. intros H.
  apply unique_by_norm_In in H as (_ & _ & H).
  apply in_map_iff in H as (p & <- & _). apply strip_idem.
Qed.

(** X20: the names split out of an owner cell are stripped, have a
    non-empty normalised key, and no two of them share a key; removing
    duplicates from them again changes nothing, and the merged owners of
    a group of cells likewise hold every key once.  A later spelling of
    a name already met is dropped, whatever its casing. *)
Theorem x20_split_names_unique (s : str) (cells : list str) :
  NoDup (map ListTab._norm (ListTab._split_names s))
  /\ Forall (fun n => truthy (ListTab._norm n) = true /\ strip n = n)
            (ListTab._split_names s)
  /\ ListTab._dedupe_preserve (ListTab._split_names s) = ListTab._split_names s
  /\ NoDup (map ListTab._norm
              (ListTab._dedupe_preserve (flat_map ListTab._split_names cells)))
  /\ ListTab._split_names (txt "Ana / Bruno e ana, CARLA and Bruno ")
     = [txt "Ana"; txt "Bruno"; txt "CARLA"].
Proof.
  split; [apply unique_by_norm_NoDup|].
  split.
  { apply List.Forall_forall. intros n Hn. split.
    - now apply unique_by_norm_In in Hn.
    - now apply split_names_stripped in Hn. }
  split; [apply unique_by_norm_idem|].
  split; [apply unique_by_norm_NoDup|].
  vm_compute. reflexivity.
Qed.

Lemma separator_not_space (c : char) :
  Spec.separator c = true -> isspace c = false.
Proof.
  unfold Spec.separator. intros H. apply existsb_exists in H as (d & Hd & Hc).
  apply N.eqb_eq in Hc. subst d.
  vm_compute in Hd.
  repeat (destruct Hd as [<-|Hd]; [vm_compute; reflexivity|]).
  destruct Hd.
Qed.

Lemma sep_at_separator (prev : option char) (c : char) (r : str) :
  Spec.separator c = true -> Re.sep_at prev (c :: r) <> None.
Proof.
  intros H. unfold Re.sep_at.
  assert (Hw : take_while isspace (c :: r) = []).
  { simpl. now rewrite (separator_not_space c H). }
  rewrite Hw. cbn [length skipn last].
  unfold Re.delim_at. fold (Spec.separator c). rewrite H. discriminate.
Qed.

Lemma split_sep_from_clean (s : str) :
  forall prev skip cur,
    forallb (fun c => negb (Spec.separator c)) cur = true ->
    forallb (forallb (fun c => negb (Spec.separator c)))
            (Re.split_sep_from prev skip cur s) = true.
Proof.
  induction s as [|c r IH]; intros prev skip cur Hc; simpl.
  - now rewrite Hc.
  - destruct skip as [|k]; [|now apply IH].
    destruct (Re.sep_at prev (c :: r)) as [n|] eqn:E.
    + simpl. rewrite Hc. now apply IH.
    + apply IH. rewrite forallb_app, Hc. simpl.
      destruct (Spec.separator c) eqn:Hs; [|reflexivity].
      now destruct (sep_at_separator prev c r Hs).
Qed.

Lemma forallb_strip (p : char -> bool) (s : str) :
  forallb p s = true -> forallb p (strip s) = true.
Proof.
  destruct (strip_split s) as (w1 & w2 & Hs & _ & _). intros H.
  rewrite Hs, !forallb_app in H.
  apply andb_true_iff in H as [_ H]. now apply andb_true_iff in H as [H _].
Qed.

(** X21: no name split out of an owner cell holds a comma, a semicolon, a
    slash, a vertical bar, an ampersand or a plus sign: each of them ends
    the name before it, wherever it stands. *)
Theorem x21_split_names_no_separator (s : str) :
  Forall (fun n => forallb (fun c => negb (Spec.separator c)) n = true)
         (ListTab._split_names s).
Proof.
  apply List.Forall_forall. intros n Hn.
  unfold ListTab._split_names in Hn.
  apply unique_by_norm_In in Hn as (_ & _ & Hn).
  apply in_map_iff in Hn as (p & <- & Hp).
  apply filter_In in Hp as [Hp _].
  apply forallb_strip.
  pose proof (split_sep_from_clean s None 0 [] eq_refl) as H.
  rewrite forallb_forall in H. now apply H.
Qed.

(** ** The open tasks *)

Lemma first_episode_None (s : str) :
  ListTab.first_episode s = None
  <-> Spec.has_wildcard (App.parse_episode_field s) = true.
Proof.
  rewrite first_episode_eq.
  destruct (parse_episode_field_cases s) as [H|[H|[runs H]]]; rewrite H.
  - split; discriminate.
  - split; [intros _; vm_compute|]; reflexivity.
  - rewrite has_wildcard_ints. destruct runs; simpl; split; discriminate.
Qed.

Section OpenTaskFacts.
Variable df : DataFrame.

Lemma concept_task_cases (r : list str) :
  (ListTab.open_kind (Spec.kind_c df r) = false /\ ListTab.concept_task df r = Some [])
  \/ (ListTab.open_kind (Spec.kind_c df r) = true
      /\ ListTab.first_episode (Spec.ep_raw df r) = None
      /\ ListTab.concept_task df r = None)
  \/ (ListTab.open_kind (Spec.kind_c df r) = true
      /\ exists t, ListTab.concept_task df r = Some [t]
           /\ ListTab.first_episode (ListTab.episodio t) = Some (ListTab.ep_first t)
           /\ ListTab.episodio t = Spec.ep_raw df r
           /\ ListTab.etapa t = txt "Concept"
           /\ ListTab.kind t = Spec.kind_c df r
           /\ ListTab.kind t = ListTab._status_kind (ListTab.status t)
           /\ ListTab.status t = ListTab.status_c t
           /\ ListTab.responsavel t = ListTab.resp_c t).
Proof.
  unfold ListTab.concept_task. cbv zeta.
  change (ListTab._status_kind
            (ListTab.cell (columns df) r (ListTab.status_concept_col df)))
    with (Spec.kind_c df r).
  change (ListTab.cell (columns df) r (ListTab.ep_col df)) with (Spec.ep_raw df r).
  destruct (ListTab.open_kind (Spec.kind_c df r)); [|left; auto].
  right. destruct (ListTab.first_episode (Spec.ep_raw df r)) as [e|] eqn:E; simpl.
  - right. split; [reflexivity|]. eexists. split; [reflexivity|].
    simpl. repeat split; auto.
  - left. auto.
Qed.

Lemma rig_task_cases (r : list str) :
  (ListTab.open_kind (Spec.kind_r df r) = false /\ ListTab.rig_task df r = Some [])
  \/ (ListTab.open_kind (Spec.kind_r df r) = true
      /\ ListTab.first_episode (Spec.ep_raw df r) = None
      /\ ListTab.rig_task df r = None)
  \/ (ListTab.open_kind (Spec.kind_r df r) = true
      /\ exists t, ListTab.rig_task df r = Some [t]
           /\ ListTab.first_episode (ListTab.episodio t) = Some (ListTab.ep_first t)
           /\ ListTab.episodio t = Spec.ep_raw df r
           /\ ListTab.etapa t = txt "Rig"
           /\ ListTab.kind t = Spec.kind_r df r
           /\ ListTab.kind t = ListTab._status_kind (ListTab.status t)
           /\ ListTab.status t = ListTab.status_r t
           /\ ListTab.responsavel t = ListTab.resp_r t).
Proof.
  unfold ListTab.rig_task. cbv zeta.
  change (ListTab._status_kind
            (ListTab.cell (columns df) r (ListTab.status_rig_col df)))
    with (Spec.kind_r df r).
  change (ListTab.cell (columns df) r (ListTab.ep_col df)) with (Spec.ep_raw df r).
  destruct (ListTab.open_kind (Spec.kind_r df r)); [|left; auto].
  right. destruct (ListTab.first_episode (Spec.ep_raw df r)) as [e|] eqn:E; simpl.
  - right. split; [reflexivity|]. eexists. split; [reflexivity|].
    simpl. repeat split; auto.
  - left. auto.
Qed.

Lemma row_tasks_None (r : list str) :
  ListTab.row_tasks df r = None
  <-> ListTab.first_episode (Spec.ep_raw df r) = None
      /\ ListTab.open_kind (Spec.kind_c df r) || ListTab.open_kind (Spec.kind_r df r) = true.
Proof.
  unfold ListTab.row_tasks.
  destruct (concept_task_cases r) as [[Hc ->]|[(Hc & He & ->)|(Hc & t & -> & Ht)]];
    destruct (rig_task_cases r) as [[Hr ->]|[(Hr & He' & ->)|(Hr & t' & -> & Ht')]];
    rewrite Hc, Hr; simpl; try (split; [intros _|]; auto; fail).
  - split; [discriminate|]. intros [_ H]. discriminate.
  - split; [discriminate|]. intros [H _].
    destruct Ht' as (H1 & H2 & _). rewrite H2 in H1. congruence.
  - split; [discriminate|]. intros [H _].
    destruct Ht as (H1 & H2 & _). rewrite H2 in H1. congruence.
  - split; [discriminate|]. intros [H _].
    destruct Ht as (H1 & H2 & _). rewrite H2 in H1. congruence.
Qed.


Lemma all_tasks_None (rs : list (list str)) :
  ListTab.all_tasks df rs = None
  <-> exists r, In r rs /\ ListTab.row_tasks df r = None.
Proof.
  induction rs as [|r rs IH]; simpl.
  - split; [discriminate|]. intros (r & [] & _).
  - destruct (ListTab.row_tasks df r) as [ts|] eqn:E; simpl.
    + destruct (ListTab.all_tasks df rs) as [more|]; simpl.
      * split; [discriminate|]. intros (r' & [<-|Hin] & Hn); [congruence|].
        discriminate (proj2 IH (ex_intro _ r' (conj Hin Hn))).
      * split; [|reflexivity]. intros _.
        destruct (proj1 IH eq_refl) as (r' & Hin & Hn). eauto.
    + split; [|reflexivity]. intros _. exists r. auto.
Qed.


End OpenTaskFacts.

Lemma str_leb_total (a b : str) : str_leb a b = false -> str_leb b a = true.
Proof.
  revert b. induction a as [|x a IH]; intros [|y b]; simpl; try discriminate;
    try reflexivity.
  destruct (N.ltb_spec x y); [discriminate|].
  destruct (N.eqb_spec x y) as [->|Hne].
  - rewrite N.ltb_irrefl, N.eqb_refl. apply IH.
  - intros _. destruct (N.ltb_spec y x); [reflexivity|]. lia.
Qed.

#[local] Instance task_le_total : Total ListTab.task_le.
Proof.
  intros a b. unfold ListTab.task_le, ListTab.task_leb.
  destruct (Z.ltb_spec (ListTab.ep_first a) (ListTab.ep_first b));
    [left; exact I|].
  destruct (Z.ltb_spec (ListTab.ep_first b) (ListTab.ep_first a));
    [right; exact I|].
  destruct (str_leb (ListTab.etapa b) (ListTab.etapa a)) eqn:Hba;
    [|left; exact I].
  destruct (str_leb (ListTab.etapa a) (ListTab.etapa b)) eqn:Hab;
    [|right; exact I].
  simpl. destruct (str_leb (ListTab.nome a) (ListTab.nome b)) eqn:Hn;
    [left; exact I|].
  right. rewrite (str_leb_total _ _ Hn). exact I.
Qed.

(** X22: building the open tasks raises exactly when some row has the
    wildcard in its episode cell and a stage that is in production, under
    review or not started: the first episode of such a row is the minimum
    of an empty set.  One such row among finished ones is enough. *)
Theorem x22_open_tasks_wildcard_raises (df : DataFrame) :
  (ListTab.build_open_tasks df = None
   <-> exists r, In r (rows df)
         /\ Spec.has_wildcard (App.parse_episode_field (Spec.ep_raw df r)) = true
         /\ ListTab.open_kind (Spec.kind_c df r)
            || ListTab.open_kind (Spec.kind_r df r) = true)
  /\ ListTab.build_open_tasks
       (mkDF [App.COL_EP; App.COL_NAME; App.COL_STATUS_CONCEPT;
              App.COL_STATUS_RIG]
          [[txt "1"; txt "Ana"; txt "Concluído"; txt "Concluído"];
           [txt "Todos"; txt "Caribé"; txt "Em produção"; txt ""]])
     = None.
Proof.
  split; [|vm_compute; reflexivity].
  unfold ListTab.build_open_tasks.
  destruct (ListTab.all_tasks df (rows df)) as [recs|] eqn:E; simpl.
  - split; [discriminate|]. intros (r & Hin & Hw & Hk).
    assert (Hn : ListTab.all_tasks df (rows df) = None).
    { apply all_tasks_None. exists r. split; [exact Hin|].
      apply row_tasks_None. split; [now apply first_episode_None|exact Hk]. }
    congruence.
  - split; [intros _|reflexivity].
    apply all_tasks_None in E as (r & Hin & Hn).
    apply row_tasks_None in Hn as [He Hk].
    exists r. split; [exact Hin|]. split; [now apply first_episode_None|exact Hk].
Qed.



(** ** The two status readings *)

Lemma in_latin1_letters (d : N) :
  (0xC0 <= d <= 0xFF)%N -> In d (map N.of_nat (seq 192 64)).
Proof.
  intros H. apply in_map_iff. exists (N.to_nat d).
  split; [apply N2Nat.id|]. apply in_seq. lia.
Qed.

Lemma translit_char (d : char) :
  (d <= 0xFF)%N ->
  forallb App.az09
    (List.filter (fun ch => negb (combining ch)) (nfd_char d)) = true ->
  List.filter App.az09 (unidecode_char d)
  = List.filter (fun ch => negb (combining ch)) (nfd_char d).
Proof.
  intros Hhi H.
  destruct (N.ltb_spec d 0xC0) as [Hlo|Hlo].
  - rewrite nfd_char_outside in * by lia.
    assert (Hc : combining d = false).
    { destruct (combining d) eqn:E; [|reflexivity].
      apply combining_range in E. lia. }
    simpl in *. rewrite Hc in *. simpl in *. rewrite andb_true_r in H.
    assert (Hr := H). apply az09_range in Hr.
    unfold unidecode_char.
    replace (d <? 0x80)%N with true by (symmetry; apply N.ltb_lt; lia).
    simpl. now rewrite H.
  - assert (Hall :
      forallb
        (fun d =>
           implb (forallb App.az09
                    (List.filter (fun ch => negb (combining ch)) (nfd_char d)))
                 (str_eqb (List.filter App.az09 (unidecode_char d))
                    (List.filter (fun ch => negb (combining ch)) (nfd_char d))))
        (map N.of_nat (seq 192 64)) = true) by (vm_compute; reflexivity).
    rewrite forallb_forall in Hall.
    specialize (Hall d (in_latin1_letters d (conj Hlo Hhi))).
    rewrite H in Hall. simpl in Hall. now apply str_eqb_eq.
Qed.

Lemma lower_char_latin1 (c : char) :
  (c <= 0xFF)%N -> (lower_char c <= 0xFF)%N.
Proof.
  intros H. unfold lower_char, is_ascii_upper, in_range.
  destruct (N.leb_spec 0x41 c), (N.leb_spec c 0x5A); simpl; try lia;
    destruct (N.leb_spec 0xC0 c), (N.leb_spec c 0xDE); simpl; try lia;
    destruct (N.eqb c 0xD7); simpl; lia.
Qed.

Lemma forallb_flat_map_In {A} (p : char -> bool) (f : A -> str) (l : list A) :
  forallb p (flat_map f l) = true ->
  forall x, In x l -> forallb p (f x) = true.
Proof.
  induction l as [|y l IH]; simpl; intros H x; [tauto|].
  rewrite forallb_app in H. apply andb_true_iff in H as [H1 H2].
  intros [<-|Hin]; auto.
Qed.

Lemma flat_map_ext_In {A B} (f g : A -> list B) (l : list A) :
  (forall x, In x l -> f x = g x) -> flat_map f l = flat_map g l.
Proof.
  induction l as [|y l IH]; simpl; intros H; [reflexivity|].
  rewrite (H y) by now left. f_equal. apply IH. intros x Hx. apply H. now right.
Qed.

Lemma norm_of_safe_text (s : str) :
  forallb Spec.latin1 s = true ->
  forallb App.az09 (App._normalize_text s) = true ->
  ListTab._norm s = App._normalize_text s.
Proof.
  unfold ListTab._norm, App._normalize_text, sub_runs.
  rewrite sub_runs_from_filter.
  destruct s as [|c s]; [reflexivity|]. simpl truthy. cbv iota.
  intros Hl. apply forallb_strip in Hl. revert Hl.
  generalize (strip (c :: s)). intros t Hl.
  unfold unidecode, nfd, lower.
  rewrite !flat_map_concat_map, !map_map, <- !flat_map_concat_map.
  rewrite !filter_flat_map. intros H.
  apply flat_map_ext_In. intros x Hx.
  apply (translit_char (lower_char x)).
  - apply lower_char_latin1. rewrite forallb_forall in Hl.
    apply N.leb_le. now apply Hl.
  - exact (forallb_flat_map_In _ _ _ H x Hx).
Qed.

(** X24: for a status written with code points up to U+00FF whose
    normalised text is made of the letters a-z and the digits only, the
    list tab's key of the status is that very text; so every such status
    that the application counts as done is of kind "done" in the list
    tab.  The converse fails: the list tab looks for "concluido" inside
    the key and so takes "Não concluído" for done. *)
Theorem x24_done_in_both_readings (s : str) :
  forallb Spec.latin1 s = true ->
  forallb App.az09 (App._normalize_text s) = true ->
  ListTab._norm s = App._normalize_text s
  /\ (App.is_concluido s = true -> ListTab._status_kind s = txt "done")
  /\ App.is_concluido (txt "Não concluído") = false
  /\ ListTab._status_kind (txt "Não concluído") = txt "done".
Proof.
  intros Hl H. split; [now apply norm_of_safe_text|].
  split; [|split; vm_compute; reflexivity].
  unfold App.is_concluido, ListTab._status_kind. intros Hc.
  apply str_eqb_eq in Hc.
  rewrite (norm_of_safe_text s Hl H), Hc. vm_compute. reflexivity.
Qed.

Lemma x24_done_witness :
  ListTab._norm (txt " Concluído ") = txt "concluido"
  /\ ListTab._status_kind (txt " Concluído ") = txt "done".
Proof.
  destruct (x24_done_in_both_readings (txt " Concluído ")
              ltac:(vm_compute; reflexivity) ltac:(vm_compute; reflexivity))
    as (H1 & H2 & _).
  split.
  - rewrite H1. vm_compute. reflexivity.
  - apply H2. vm_compute. reflexivity.
Defined.
